(** * Animal Adventure: the collection tracker, catalog loader, gallery and
    narration text, embedded from the JavaScript sources

    The development follows the source files:
    - [Collection]  js/collection.js  (collected set, persistence, progress, gallery)
    - [AnimalData]  js/map.js         (catalog loader and its cache)
    - [App]         js/app.js         (start-up sequence)
    - [Speech]      js/speech.js      (narration text)

    The platform the sources run on (strings of UTF-16 code units, IEEE-754
    doubles, [JSON], [Set], [localStorage], a fragment of the DOM) is modelled
    first, as executable definitions. *)

From Stdlib Require Import ZArith NArith List Bool Lia String Ascii.
From Stdlib Require Import Floats.SpecFloat.
From stdpp Require Import gmap.

Local Open Scope Z_scope.
Set Warnings "-register-all".

(* ===================================================================== *)
(** * JavaScript strings *)
(* ===================================================================== *)

(** A JavaScript string is a sequence of 16-bit code units. *)
Abbreviation jsstring := (list N).

Module JsString.

(** A source literal, written in the ASCII range. *)
Fixpoint lit (s : string) : jsstring :=
  match s with
  | EmptyString => []
  | String c s' => N_of_ascii c :: lit s'
  end.

(** [a === b] on strings *)
Definition eqb (a b : jsstring) : bool := bool_decide (a = b).

(** [Array.prototype.join] on an array of strings *)
Fixpoint join (sep : jsstring) (parts : list jsstring) : jsstring :=
  match parts with
  | [] => []
  | [p] => p
  | p :: rest => p ++ sep ++ join sep rest
  end.

(** Decimal digits of a non-negative integer, as [ToString] prints an
    integral Number below 10^21 (array indices, lengths, set sizes). *)
Fixpoint digits_fuel (fuel : nat) (n : N) (acc : jsstring) : jsstring :=
  match fuel with
  | O => acc
  | S f =>
      let acc' := (48 + n mod 10)%N :: acc in
      if (n <? 10)%N then acc' else digits_fuel f (n / 10)%N acc'
  end.

Definition of_N (n : N) : jsstring := digits_fuel (S (N.to_nat (N.log2 n))) n [].

Definition of_nat (n : nat) : jsstring := of_N (N.of_nat n).

Definition is_high_surrogate (c : N) : bool := ((55296 <=? c) && (c <=? 56319))%N.
Definition is_low_surrogate (c : N) : bool := ((56320 <=? c) && (c <=? 57343))%N.
Definition is_surrogate (c : N) : bool := ((55296 <=? c) && (c <=? 57343))%N.

(** The string iterator: one element per code point, a surrogate pair
    staying together ([for (const ch of s)], [new Set(s)], [[...s]]). *)
Fixpoint code_points (s : jsstring) : list jsstring :=
  match s with
  | [] => []
  | c :: rest =>
      match rest with
      | d :: rest' =>
          if is_high_surrogate c && is_low_surrogate d
          then [c; d] :: code_points rest'
          else [c] :: code_points rest
      | [] => [[c]]
      end
  end.

End JsString.

Abbreviation js := JsString.lit.

(* ===================================================================== *)
(** * JavaScript numbers: IEEE-754 binary64 *)
(* ===================================================================== *)

(** A JavaScript Number is a double, in the representation of the
    standard library's [SpecFloat]: a zero, an infinity, NaN, or a finite
    [(-1)^s * m * 2^e]. *)
Abbreviation jsnumber := spec_float.

Module JsNumber.

Definition prec : Z := 53.
Definition emax : Z := 1024.

(** The exponent of the smallest subnormal, -1074 *)
Definition emin : Z := SpecFloat.emin prec emax.

Definition NaN : jsnumber := S754_nan.
Definition Infinity : jsnumber := S754_infinity false.

(** The Number value of a mathematical integer, rounded to nearest even *)
Definition of_Z (z : Z) : jsnumber := binary_normalize prec emax z 0 false.
Definition of_nat (n : nat) : jsnumber := of_Z (Z.of_nat n).

Definition div (x y : jsnumber) : jsnumber := SFdiv prec emax x y.
Definition mul (x y : jsnumber) : jsnumber := SFmul prec emax x y.

(** [isFinite] on a Number *)
Definition is_finite (x : jsnumber) : bool :=
  match x with
  | S754_zero _ | S754_finite _ _ _ => true
  | S754_infinity _ | S754_nan => false
  end.

(** [SameValueZero] on Numbers, the comparison of [Set] and [includes] *)
Definition same_value_zero (x y : jsnumber) : bool :=
  match x, y with
  | S754_nan, S754_nan => true
  | _, _ => SFeqb x y
  end.

(** [Math.round]: the closest integer, a tie going towards +Infinity;
    integers, zeros, infinities and NaN are returned as they are, and a
    result of zero keeps the sign of the argument. The value of a finite
    double is [m * 2 ^ e], so for [e < 0] the result is
    [floor ((2 m + 2 ^ -e) / 2 ^ (1 - e))], taken exactly. *)
Definition round (x : jsnumber) : jsnumber :=
  match x with
  | S754_finite s m e =>
      if 0 <=? e then x
      else
        let k := - e in
        let sm := if s then Z.neg m else Z.pos m in
        let r := (2 * sm + 2 ^ k) / 2 ^ (k + 1) in
        if r =? 0 then S754_zero s else of_Z r
  | _ => x
  end.

(** The Number value of the decimal [(-1)^neg * m * 10 ^ e], rounded once,
    to nearest even: what a numeric literal of JSON text denotes. A
    negative exponent is an exact integer division whose remainder decides
    the rounding. *)
Definition of_decimal (neg : bool) (m e : Z) : jsnumber :=
  match m with
  | Z.pos p =>
      if 0 <=? e
      then binary_normalize prec emax (cond_Zopp neg (Z.pos p * 10 ^ e)) 0 false
      else
        let '(q, e', l) := SFdiv_core_binary prec emax (Z.pos p) 0 (10 ^ (- e)) 0 in
        binary_round_aux prec emax neg q e' l
  | _ => S754_zero neg
  end.

(** ** [Number::toString], radix 10

    For a positive finite [x = m * 2 ^ e] the digits are those of the
    shortest decimal [s * 10 ^ (n - k)] (with [k] digits in [s]) that
    denotes [x]; of two such decimals the closer to [x] is taken. *)

(** [m * 2 ^ e < 10 ^ n] *)
Definition lt_pow10 (m : positive) (e n : Z) : bool :=
  Z.pos m * 2 ^ Z.max e 0 * 10 ^ Z.max (- n) 0 <? 10 ^ Z.max n 0 * 2 ^ Z.max (- e) 0.

Fixpoint first_pow10_above (fuel : nat) (m : positive) (e n : Z) : Z :=
  match fuel with
  | O => n
  | S f => if lt_pow10 m e n then n else first_pow10_above f m e (n + 1)
  end.

(** The least [n] with [m * 2 ^ e < 10 ^ n]: the search starts one below
    an underestimate of the decimal logarithm. *)
Definition magnitude (m : positive) (e : Z) : Z :=
  let b := Z.pos (digits2_pos m) + e in
  first_pow10_above 8 m e ((b - 1) * 30103 / 100000 - 1).

(** The [k]-digit decimal for [m * 2 ^ e] of magnitude [n], when one
    denotes the same double: its digits [s] and its magnitude. *)
Definition shortest_at (m : positive) (e n k : Z) : option (Z * Z) :=
  let a := Z.pos m * 2 ^ Z.max e 0 * 10 ^ Z.max (k - n) 0 in
  let b := 2 ^ Z.max (- e) 0 * 10 ^ Z.max (n - k) 0 in
  let lo := a / b in
  let hi := lo + 1 in
  let x := S754_finite false m e in
  let lo_ok := SFeqb (of_decimal false lo (n - k)) x in
  let hi_ok := SFeqb (of_decimal false hi (n - k)) x in
  let hi_out := if hi =? 10 ^ k then (10 ^ (k - 1), n + 1) else (hi, n) in
  match lo_ok, hi_ok with
  | true, false => Some (lo, n)
  | false, true => Some hi_out
  | false, false => None
  | true, true =>
      match 2 * a ?= (2 * lo + 1) * b with
      | Lt => Some (lo, n)
      | Gt => Some hi_out
      | Eq => if Z.even lo then Some (lo, n) else Some hi_out
      end
  end.

Fixpoint shortest_from (fuel : nat) (m : positive) (e n k : Z) : Z * Z * Z :=
  match fuel with
  | O => (Z.pos m * 2 ^ Z.max e 0 * 10 ^ Z.max (k - n) 0
            / (2 ^ Z.max (- e) 0 * 10 ^ Z.max (n - k) 0), n, k)
  | S f =>
      match shortest_at m e n k with
      | Some (s, n') => (s, n', k)
      | None => shortest_from f m e n (k + 1)
      end
  end.

Definition digits (z : Z) : jsstring := JsString.of_N (Z.to_N z).

Definition zeros (n : Z) : jsstring := repeat 48%N (Z.to_nat n).

(** The layout of [Number::toString] for digits [s] ([k] of them) and
    magnitude [n] *)
Definition layout (s n k : Z) : jsstring :=
  let ds := digits s in
  if (k <=? n) && (n <=? 21) then ds ++ zeros (n - k)
  else if (0 <? n) && (n <=? 21)
  then take (Z.to_nat n) ds ++ [46%N] ++ drop (Z.to_nat n) ds
  else if (-6 <? n) && (n <=? 0)
  then [48%N; 46%N] ++ zeros (- n) ++ ds
  else
    let ex := (if 0 <=? n - 1 then [43%N] else [45%N]) ++ digits (Z.abs (n - 1)) in
    if k =? 1 then ds ++ [101%N] ++ ex
    else take 1 ds ++ [46%N] ++ drop 1 ds ++ [101%N] ++ ex.

Definition to_string (x : jsnumber) : jsstring :=
  match x with
  | S754_nan => JsString.lit "NaN"
  | S754_zero _ => JsString.lit "0"
  | S754_infinity s =>
      (if s then [45%N] else []) ++ JsString.lit "Infinity"
  | S754_finite s m e =>
      let '(d, n, k) := shortest_from 17 m e (magnitude m e) 1 in
      (if s then [45%N] else []) ++ layout d n k
  end.

End JsNumber.

(* ===================================================================== *)
(** * JSON: values, [JSON.parse], [JSON.stringify] *)
(* ===================================================================== *)

Module Json.

(** The JavaScript values that JSON text denotes. An object is the list
    of its own properties in property order. *)
Inductive value :=
| JNull
| JBool (b : bool)
| JNum (x : jsnumber)
| JStr (s : jsstring)
| JArr (elems : list value)
| JObj (props : list (jsstring * value)).

(** ** Objects: property definition and property order *)

Definition is_digit (c : N) : bool := ((48 <=? c) && (c <=? 57))%N.

Fixpoint decimal_value (s : jsstring) (acc : N) : N :=
  match s with
  | [] => acc
  | c :: s' => decimal_value s' (10 * acc + (c - 48))%N
  end.

(** An array index is the canonical decimal of an integer below 2^32 - 1;
    such keys come first in property order, ascending. *)
Definition array_index (k : jsstring) : option N :=
  match k with
  | [] => None
  | c :: rest =>
      if forallb is_digit k && (negb (c =? 48)%N || bool_decide (rest = []))
         && (length k <=? 10)%nat
      then let n := decimal_value k 0 in
           if (n <? 4294967295)%N then Some n else None
      else None
  end.

(** Where a new key goes: an array index before the first key that is not
    a smaller array index, any other key at the end. *)
Fixpoint insert_property (k : jsstring) (v : value) (props : list (jsstring * value))
  : list (jsstring * value) :=
  match props with
  | [] => [(k, v)]
  | (k', v') :: rest =>
      match array_index k, array_index k' with
      | Some n, Some n' =>
          if (n <? n')%N then (k, v) :: props else (k', v') :: insert_property k v rest
      | Some _, None => (k, v) :: props
      | None, _ => (k', v') :: insert_property k v rest
      end
  end.

Fixpoint replace_property (k : jsstring) (v : value) (props : list (jsstring * value))
  : option (list (jsstring * value)) :=
  match props with
  | [] => None
  | (k', v') :: rest =>
      if JsString.eqb k k' then Some ((k', v) :: rest)
      else match replace_property k v rest with
           | Some rest' => Some ((k', v') :: rest')
           | None => None
           end
  end.

(** [CreateDataProperty]: a key that exists keeps its place and takes the
    new value. *)
Definition define_property (props : list (jsstring * value)) (kv : jsstring * value)
  : list (jsstring * value) :=
  match replace_property kv.1 kv.2 props with
  | Some props' => props'
  | None => insert_property kv.1 kv.2 props
  end.

(** The object a member list of JSON text denotes, members defined from
    left to right. *)
Definition object_of_members (members : list (jsstring * value)) : value :=
  JObj (fold_left define_property members []).

(** ** Tokens *)

Inductive token :=
| TLBracket | TRBracket | TLBrace | TRBrace | TComma | TColon
| TString (s : jsstring)
| TNumber (x : jsnumber)
| TTrue | TFalse | TNull.

(** The number grammar (an optional minus; a zero, or a non-zero digit
    and more digits; optionally a point and one or more digits; optionally
    an exponent mark, an optional sign and one or more digits), as an
    automaton that accumulates the decimal: sign, all digits read as one
    integer, the count of fraction digits, and the exponent. *)
Inductive num_state :=
| NMinus
| NZero (neg : bool)
| NInt (neg : bool) (m : Z)
| NDot (neg : bool) (m : Z)
| NFrac (neg : bool) (m : Z) (fl : Z)
| NExp (neg : bool) (m : Z) (fl : Z)
| NExpSign (neg : bool) (m : Z) (fl : Z) (eneg : bool)
| NExpDigits (neg : bool) (m : Z) (fl : Z) (eneg : bool) (ev : Z).

Definition digit_value (c : N) : Z := Z.of_N (c - 48).

Definition is_exp_mark (c : N) : bool := ((c =? 101) || (c =? 69))%N.

Definition num_step (ns : num_state) (c : N) : option num_state :=
  match ns with
  | NMinus =>
      if (c =? 48)%N then Some (NZero true)
      else if is_digit c then Some (NInt true (digit_value c))
      else None
  | NZero neg =>
      if (c =? 46)%N then Some (NDot neg 0)
      else if is_exp_mark c then Some (NExp neg 0 0)
      else None
  | NInt neg m =>
      if is_digit c then Some (NInt neg (10 * m + digit_value c))
      else if (c =? 46)%N then Some (NDot neg m)
      else if is_exp_mark c then Some (NExp neg m 0)
      else None
  | NDot neg m =>
      if is_digit c then Some (NFrac neg (10 * m + digit_value c) 1) else None
  | NFrac neg m fl =>
      if is_digit c then Some (NFrac neg (10 * m + digit_value c) (fl + 1))
      else if is_exp_mark c then Some (NExp neg m fl)
      else None
  | NExp neg m fl =>
      if (c =? 43)%N then Some (NExpSign neg m fl false)
      else if (c =? 45)%N then Some (NExpSign neg m fl true)
      else if is_digit c then Some (NExpDigits neg m fl false (digit_value c))
      else None
  | NExpSign neg m fl eneg =>
      if is_digit c then Some (NExpDigits neg m fl eneg (digit_value c)) else None
  | NExpDigits neg m fl eneg ev =>
      if is_digit c then Some (NExpDigits neg m fl eneg (10 * ev + digit_value c))
      else None
  end.

(** The Number of a complete literal; [None] where the literal cannot end. *)
Definition num_finish (ns : num_state) : option jsnumber :=
  match ns with
  | NZero neg => Some (JsNumber.of_decimal neg 0 0)
  | NInt neg m => Some (JsNumber.of_decimal neg m 0)
  | NFrac neg m fl => Some (JsNumber.of_decimal neg m (- fl))
  | NExpDigits neg m fl eneg ev =>
      Some (JsNumber.of_decimal neg m ((if eneg then - ev else ev) - fl))
  | NMinus | NDot _ _ | NExp _ _ _ | NExpSign _ _ _ _ => None
  end.

(** ** The lexer, one code unit at a time *)

Inductive lex_state :=
| LDefault
| LString (acc : jsstring)                 (* inside a string; [acc] is reversed *)
| LEscape (acc : jsstring)                 (* after a backslash *)
| LUnicode (acc : jsstring) (n : nat) (v : N)  (* after \u, [n] hex digits read *)
| LNumber (ns : num_state)
| LLiteral (rest : jsstring) (tok : token). (* inside true, false or null *)

Definition is_whitespace (c : N) : bool :=
  ((c =? 32) || (c =? 9) || (c =? 10) || (c =? 13))%N.

Definition hex_value (c : N) : option N :=
  if is_digit c then Some (c - 48)%N
  else if ((97 <=? c) && (c <=? 102))%N then Some (c - 87)%N
  else if ((65 <=? c) && (c <=? 70))%N then Some (c - 55)%N
  else None.

(** A code unit met between tokens *)
Definition lex_default (c : N) : option (lex_state * list token) :=
  if is_whitespace c then Some (LDefault, [])
  else if (c =? 91)%N then Some (LDefault, [TLBracket])
  else if (c =? 93)%N then Some (LDefault, [TRBracket])
  else if (c =? 123)%N then Some (LDefault, [TLBrace])
  else if (c =? 125)%N then Some (LDefault, [TRBrace])
  else if (c =? 44)%N then Some (LDefault, [TComma])
  else if (c =? 58)%N then Some (LDefault, [TColon])
  else if (c =? 34)%N then Some (LString [], [])
  else if (c =? 45)%N then Some (LNumber NMinus, [])
  else if (c =? 48)%N then Some (LNumber (NZero false), [])
  else if is_digit c then Some (LNumber (NInt false (digit_value c)), [])
  else if (c =? 116)%N then Some (LLiteral (js "rue") TTrue, [])
  else if (c =? 102)%N then Some (LLiteral (js "alse") TFalse, [])
  else if (c =? 110)%N then Some (LLiteral (js "ull") TNull, [])
  else None.

Definition unescape (c : N) : option N :=
  if (c =? 34)%N then Some 34%N
  else if (c =? 92)%N then Some 92%N
  else if (c =? 47)%N then Some 47%N
  else if (c =? 98)%N then Some 8%N
  else if (c =? 102)%N then Some 12%N
  else if (c =? 110)%N then Some 10%N
  else if (c =? 114)%N then Some 13%N
  else if (c =? 116)%N then Some 9%N
  else None.

(** One step: the next state and the tokens completed by this code unit.
    A number ends at the first code unit that cannot continue it, which
    is then read as a code unit between tokens. *)
Definition lex_step (st : lex_state) (c : N) : option (lex_state * list token) :=
  match st with
  | LDefault => lex_default c
  | LString acc =>
      if (c =? 34)%N then Some (LDefault, [TString (rev acc)])
      else if (c =? 92)%N then Some (LEscape acc, [])
      else if (c <? 32)%N then None
      else Some (LString (c :: acc), [])
  | LEscape acc =>
      if (c =? 117)%N then Some (LUnicode acc 0 0%N, [])
      else match unescape c with
           | Some u => Some (LString (u :: acc), [])
           | None => None
           end
  | LUnicode acc n v =>
      match hex_value c with
      | Some h =>
          let v' := (16 * v + h)%N in
          if (n =? 3)%nat then Some (LString (v' :: acc), [])
          else Some (LUnicode acc (S n) v', [])
      | None => None
      end
  | LNumber ns =>
      match num_step ns c with
      | Some ns' => Some (LNumber ns', [])
      | None =>
          match num_finish ns, lex_default c with
          | Some x, Some (st', toks) => Some (st', TNumber x :: toks)
          | _, _ => None
          end
      end
  | LLiteral rest tok =>
      match rest with
      | x :: rest' =>
          if (c =? x)%N
          then match rest' with
               | [] => Some (LDefault, [tok])
               | _ => Some (LLiteral rest' tok, [])
               end
          else None
      | [] => None
      end
  end.

Definition lex_end (st : lex_state) : option (list token) :=
  match st with
  | LDefault => Some []
  | LNumber ns =>
      match num_finish ns with
      | Some x => Some [TNumber x]
      | None => None
      end
  | _ => None
  end.

Fixpoint lex_from (st : lex_state) (s : jsstring) : option (list token) :=
  match s with
  | [] => lex_end st
  | c :: s' =>
      match lex_step st c with
      | Some (st', toks) =>
          match lex_from st' s' with
          | Some rest => Some (toks ++ rest)
          | None => None
          end
      | None => None
      end
  end.

Definition lex (s : jsstring) : option (list token) := lex_from LDefault s.

(** ** The parser, one token at a time

    A stack holds the containers that are open around the position; each
    frame keeps what its container has so far, most recent first. *)

Inductive frame :=
| FArr (acc : list value)
| FObj (acc : list (jsstring * value)) (key : jsstring).

Inductive parse_state :=
| PValue (stack : list frame)        (* a value must come *)
| PArrStart (stack : list frame)     (* after [[]: a value or []] *)
| PArrNext (acc : list value) (stack : list frame)   (* after an element *)
| PObjStart (stack : list frame)     (* after [{]: a key or [}] *)
| PKey (acc : list (jsstring * value)) (stack : list frame)   (* after a comma *)
| PColon (acc : list (jsstring * value)) (key : jsstring) (stack : list frame)
| PObjNext (acc : list (jsstring * value)) (stack : list frame) (* after a member *)
| PDone (v : value).

(** A complete value goes to the innermost open container. *)
Definition reduce (v : value) (stack : list frame) : parse_state :=
  match stack with
  | [] => PDone v
  | FArr acc :: stack' => PArrNext (v :: acc) stack'
  | FObj acc key :: stack' => PObjNext ((key, v) :: acc) stack'
  end.

(** A token at a position where a value must start *)
Definition parse_value_token (t : token) (stack : list frame) : option parse_state :=
  match t with
  | TNull => Some (reduce JNull stack)
  | TTrue => Some (reduce (JBool true) stack)
  | TFalse => Some (reduce (JBool false) stack)
  | TNumber x => Some (reduce (JNum x) stack)
  | TString s => Some (reduce (JStr s) stack)
  | TLBracket => Some (PArrStart stack)
  | TLBrace => Some (PObjStart stack)
  | TRBracket | TRBrace | TComma | TColon => None
  end.

Definition parse_step (st : parse_state) (t : token) : option parse_state :=
  match st with
  | PValue stack => parse_value_token t stack
  | PArrStart stack =>
      match t with
      | TRBracket => Some (reduce (JArr []) stack)
      | _ => parse_value_token t (FArr [] :: stack)
      end
  | PArrNext acc stack =>
      match t with
      | TComma => Some (PValue (FArr acc :: stack))
      | TRBracket => Some (reduce (JArr (rev acc)) stack)
      | _ => None
      end
  | PObjStart stack =>
      match t with
      | TRBrace => Some (reduce (object_of_members []) stack)
      | TString k => Some (PColon [] k stack)
      | _ => None
      end
  | PKey acc stack =>
      match t with
      | TString k => Some (PColon acc k stack)
      | _ => None
      end
  | PColon acc key stack =>
      match t with
      | TColon => Some (PValue (FObj acc key :: stack))
      | _ => None
      end
  | PObjNext acc stack =>
      match t with
      | TComma => Some (PKey acc stack)
      | TRBrace => Some (reduce (object_of_members (rev acc)) stack)
      | _ => None
      end
  | PDone _ => None
  end.

Fixpoint parse_from (st : parse_state) (ts : list token) : option value :=
  match ts with
  | [] => match st with PDone v => Some v | _ => None end
  | t :: ts' =>
      match parse_step st t with
      | Some st' => parse_from st' ts'
      | None => None
      end
  end.

(** [JSON.parse text] without a reviver: [None] is the SyntaxError. *)
Definition parse (text : jsstring) : option value :=
  match lex text with
  | Some ts => parse_from (PValue []) ts
  | None => None
  end.

(** ** [JSON.stringify] *)

Definition hex_digit (n : N) : N := if (n <? 10)%N then (48 + n)%N else (87 + n)%N.

(** [\uXXXX], lower-case *)
Definition unicode_escape (c : N) : jsstring :=
  [92; 117; hex_digit (c / 4096 mod 16); hex_digit (c / 256 mod 16);
   hex_digit (c / 16 mod 16); hex_digit (c mod 16)]%N.

(** One code unit that is not half of a well-formed surrogate pair *)
Definition quote_unit (c : N) : jsstring :=
  if (c =? 8)%N then [92; 98]%N
  else if (c =? 9)%N then [92; 116]%N
  else if (c =? 10)%N then [92; 110]%N
  else if (c =? 12)%N then [92; 102]%N
  else if (c =? 13)%N then [92; 114]%N
  else if (c =? 34)%N then [92; 34]%N
  else if (c =? 92)%N then [92; 92]%N
  else if (c <? 32)%N || JsString.is_surrogate c then unicode_escape c
  else [c].

Fixpoint quote_body (s : jsstring) : jsstring :=
  match s with
  | [] => []
  | c :: rest =>
      match rest with
      | d :: rest' =>
          if JsString.is_high_surrogate c && JsString.is_low_surrogate d
          then c :: d :: quote_body rest'
          else quote_unit c ++ quote_body rest
      | [] => quote_unit c
      end
  end.

(** [QuoteJSONString] *)
Definition quote (s : jsstring) : jsstring := [34%N] ++ quote_body s ++ [34%N].

Definition stringify_number (x : jsnumber) : jsstring :=
  if JsNumber.is_finite x then JsNumber.to_string x else js "null".

(** [JSON.stringify v] with no replacer and no indentation *)
Fixpoint stringify (v : value) : jsstring :=
  match v with
  | JNull => js "null"
  | JBool true => js "true"
  | JBool false => js "false"
  | JNum x => stringify_number x
  | JStr s => quote s
  | JArr elems =>
      [91%N] ++ JsString.join [44%N] (map stringify elems) ++ [93%N]
  | JObj props =>
      [123%N]
      ++ JsString.join [44%N]
           (map (fun kv : jsstring * value => quote kv.1 ++ [58%N] ++ stringify kv.2) props)
      ++ [125%N]
  end.

End Json.

(* ===================================================================== *)
(** * Exceptions *)
(* ===================================================================== *)

(** What a [throw] carries, by kind. *)
Inductive error :=
| SyntaxError            (** [JSON.parse], [Response.json] on malformed text *)
| TypeError              (** a value that is not iterable, a property of null *)
| SecurityError          (** storage access denied *)
| QuotaExceededError     (** storage full *)
| NetworkError           (** [fetch] rejected *)
| HttpError (status : N) (** thrown by the loader on a response that is not ok *).

(** How an evaluation ends. *)
Inductive completion (A : Type) :=
| Normal (a : A)
| Throw (e : error).
Arguments Normal {A} a.
Arguments Throw {A} e.

(* ===================================================================== *)
(** * [Set] *)
(* ===================================================================== *)

(** A [Set] is the list of its elements in insertion order. *)
Module JsSet.

Import Json.

(** [SameValueZero]. Strings, numbers, booleans and null compare by
    value. An array or an object is the same value only as itself; the
    ones met here come out of [JSON.parse], each a new object, so two of
    them are never the same. *)
Definition same_value_zero (a b : value) : bool :=
  match a, b with
  | JNull, JNull => true
  | JBool x, JBool y => Bool.eqb x y
  | JNum x, JNum y => JsNumber.same_value_zero x y
  | JStr s, JStr t => JsString.eqb s t
  | _, _ => false
  end.

Definition has (s : list value) (v : value) : bool :=
  existsb (same_value_zero v) s.

(** [add] stores -0 as +0. *)
Definition normalize (v : value) : value :=
  match v with
  | JNum (S754_zero true) => JNum (S754_zero false)
  | _ => v
  end.

Definition add (s : list value) (v : value) : list value :=
  if has s v then s else s ++ [normalize v].

Definition size (s : list value) : nat := length s.

Definition of_list (vs : list value) : list value := fold_left add vs [].

(** [new Set(iterable)]: null gives the empty set, a string its code
    points, an array its elements; a number, a boolean or an object is
    not iterable. *)
Definition construct (v : value) : completion (list value) :=
  match v with
  | JNull => Normal []
  | JStr s => Normal (of_list (map JStr (JsString.code_points s)))
  | JArr elems => Normal (of_list elems)
  | JBool _ | JNum _ | JObj _ => Throw TypeError
  end.

End JsSet.

(* ===================================================================== *)
(** * [localStorage] *)
(* ===================================================================== *)

Module LocalStorage.

(** The store of one origin: its items, whether access is denied (every
    call then throws a SecurityError), how many code units it holds at
    most (a write beyond that throws a QuotaExceededError), and the
    [setItem] calls received so far, kept or not. *)
Record t := {
  items : gmap (jsstring) (jsstring);
  denied : bool;
  quota : N;
  written : list (jsstring * jsstring)
}.

Definition usage (m : gmap (jsstring) (jsstring)) : N :=
  map_fold (fun k v n => (n + N.of_nat (length k) + N.of_nat (length v))%N) 0%N m.

Definition getItem (s : t) (key : jsstring) : completion (option jsstring) :=
  if denied s then Throw SecurityError else Normal (items s !! key).

Definition setItem (s : t) (key value : jsstring) : completion unit * t :=
  let log := written s ++ [(key, value)] in
  if denied s
  then (Throw SecurityError,
        {| items := items s; denied := denied s; quota := quota s; written := log |})
  else
    let items' := <[key := value]> (items s) in
    if (usage items' <=? quota s)%N
    then (Normal tt,
          {| items := items'; denied := denied s; quota := quota s; written := log |})
    else (Throw QuotaExceededError,
          {| items := items s; denied := denied s; quota := quota s; written := log |}).

End LocalStorage.

(* ===================================================================== *)
(** * A fragment of the DOM *)
(* ===================================================================== *)

Module Dom.

(** An element with its attributes, its click listeners and its children,
    or a text node. [H] is the type of listeners. *)
Inductive node (H : Type) :=
| Text (s : jsstring)
| Element (tag : jsstring) (attrs : list (jsstring * jsstring))
          (on_click : list H) (children : list (node H)).
Arguments Text {H} s.
Arguments Element {H} tag attrs on_click children.

Definition createElement {H} (tag : jsstring) : node H := Element tag [] [] [].

Fixpoint set_assoc (k v : jsstring) (attrs : list (jsstring * jsstring))
  : list (jsstring * jsstring) :=
  match attrs with
  | [] => [(k, v)]
  | (k', v') :: rest =>
      if JsString.eqb k k' then (k', v) :: rest else (k', v') :: set_assoc k v rest
  end.

Fixpoint get_assoc (k : jsstring) (attrs : list (jsstring * jsstring)) : option jsstring :=
  match attrs with
  | [] => None
  | (k', v') :: rest => if JsString.eqb k k' then Some v' else get_assoc k rest
  end.

Definition setAttribute {H} (n : node H) (k v : jsstring) : node H :=
  match n with
  | Element tag attrs hs cs => Element tag (set_assoc k v attrs) hs cs
  | Text _ => n
  end.

Definition getAttribute {H} (n : node H) (k : jsstring) : option jsstring :=
  match n with
  | Element _ attrs _ _ => get_assoc k attrs
  | Text _ => None
  end.

(** [el.className = v] *)
Definition set_className {H} (n : node H) (v : jsstring) : node H :=
  setAttribute n (js "class") v.

(** [el.textContent = v]: the children become one text node, none when
    [v] is empty. *)
Definition set_textContent {H} (n : node H) (v : jsstring) : node H :=
  match n with
  | Element tag attrs hs _ =>
      Element tag attrs hs (match v with [] => [] | _ => [Text v] end)
  | Text _ => Text v
  end.

Definition appendChild {H} (n child : node H) : node H :=
  match n with
  | Element tag attrs hs cs => Element tag attrs hs (cs ++ [child])
  | Text _ => n
  end.

(** [el.addEventListener('click', h)] *)
Definition add_click_listener {H} (n : node H) (h : H) : node H :=
  match n with
  | Element tag attrs hs cs => Element tag attrs (hs ++ [h]) cs
  | Text _ => n
  end.

(** ** [classList] *)

Definition is_ascii_whitespace (c : N) : bool :=
  ((c =? 9) || (c =? 10) || (c =? 12) || (c =? 13) || (c =? 32))%N.

(** Split on ASCII whitespace; [cur] is the token being read, reversed. *)
Fixpoint split_tokens (s cur : jsstring) : list jsstring :=
  match s with
  | [] => match cur with [] => [] | _ => [rev cur] end
  | c :: s' =>
      if is_ascii_whitespace c
      then match cur with
           | [] => split_tokens s' []
           | _ => rev cur :: split_tokens s' []
           end
      else split_tokens s' (c :: cur)
  end.

Definition add_token (set : list jsstring) (tok : jsstring) : list jsstring :=
  if existsb (JsString.eqb tok) set then set else set ++ [tok].

(** The token set of a class attribute: an ordered set. *)
Definition token_set (attr : option jsstring) : list jsstring :=
  match attr with
  | Some v => fold_left add_token (split_tokens v []) []
  | None => []
  end.

Definition serialize_tokens (set : list jsstring) : jsstring :=
  JsString.join [32%N] set.

(** [el.classList.toggle(tok, force)] for a token that is not empty and
    has no whitespace: the attribute is rewritten only when the set
    changes. *)
Definition classList_toggle {H} (n : node H) (tok : jsstring) (force : bool) : node H :=
  let set := token_set (getAttribute n (js "class")) in
  if existsb (JsString.eqb tok) set
  then if force then n
       else setAttribute n (js "class")
              (serialize_tokens (filter (fun t => negb (JsString.eqb tok t)) set))
  else if force
       then setAttribute n (js "class") (serialize_tokens (set ++ [tok]))
       else n.

(** The elements of a tree with a given tag *)
Fixpoint elements_by_tag {H} (tag : jsstring) (n : node H) : list (node H) :=
  match n with
  | Text _ => []
  | Element tag' _ _ cs =>
      (if JsString.eqb tag tag' then [n] else [])
      ++ flat_map (elements_by_tag tag) cs
  end.

(** The text of a tree: its text nodes, in order ([textContent]) *)
Fixpoint textContent {H} (n : node H) : jsstring :=
  match n with
  | Text s => s
  | Element _ _ _ cs => flat_map textContent cs
  end.

End Dom.

(* ===================================================================== *)
(** * The catalog record *)
(* ===================================================================== *)

(** The optional [speechPractice] descriptor of a record *)
Record speech_practice := {
  hasGKSound : bool;
  phonetic : jsstring;
  targetSound : jsstring;
  tip : jsstring
}.

(** An animal object of the catalog, by the properties the code reads *)
Record animal := {
  id : jsstring;
  name : jsstring;
  category : jsstring;
  habitat : jsstring;
  rarity : jsstring;
  image : jsstring;
  position : jsnumber * jsnumber;
  facts : option (list jsstring);
  stats : jsnumber * jsnumber * jsnumber;
  speechPractice : option speech_practice
}.

(* ===================================================================== *)
(** * The world the modules run in *)
(* ===================================================================== *)

(** What a request to the catalog URL meets: [fetch] rejects, or resolves
    to a response with its [ok] flag, status and body text. *)
Inductive fetch_outcome :=
| Unreachable
| Response (ok : bool) (status : N) (body : jsstring).

(** The log sites of the sources. *)
Inductive log_entry :=
| LogCollectionInitialized
| LogErrorLoadingCollection (e : error)
| LogErrorSavingCollection (e : error)
| LogLoadedAnimals
| LogErrorLoadingAnimalData (e : error)
| LogAppInitialized
| LogErrorInitializingApp (e : error).

(** A pending [setTimeout]: its delay in milliseconds; the only callback
    the modelled code schedules hides the celebration again. *)
Inductive timer := HideCelebration (delay : N).

(** The content of the [.main] element *)
Inductive main_content :=
| MainPage
| MainErrorMessage (message : jsstring).

Record world := {
  (** module state of js/collection.js *)
  collection : list Json.value;
  (** module state of AnimalData *)
  animals : Json.value;
  loaded : bool;
  (** the platform *)
  storage : LocalStorage.t;
  network : list fetch_outcome;     (** what the coming requests will meet *)
  requests : list jsstring;         (** the requests made so far *)
  console : list log_entry;
  progress_count : option jsstring; (** text of [#progress-count], if present *)
  celebration_hidden : option bool; (** [hidden] of [#celebration], if present *)
  timers : list timer;
  main : option main_content        (** the [.main] element, if present *)
}.

Definition with_collection (c : list Json.value) (w : world) : world :=
  {| collection := c; animals := animals w; loaded := loaded w;
     storage := storage w; network := network w; requests := requests w;
     console := console w; progress_count := progress_count w;
     celebration_hidden := celebration_hidden w; timers := timers w;
     main := main w |}.

Definition with_animals (a : Json.value) (w : world) : world :=
  {| collection := collection w; animals := a; loaded := loaded w;
     storage := storage w; network := network w; requests := requests w;
     console := console w; progress_count := progress_count w;
     celebration_hidden := celebration_hidden w; timers := timers w;
     main := main w |}.

Definition with_loaded (b : bool) (w : world) : world :=
  {| collection := collection w; animals := animals w; loaded := b;
     storage := storage w; network := network w; requests := requests w;
     console := console w; progress_count := progress_count w;
     celebration_hidden := celebration_hidden w; timers := timers w;
     main := main w |}.

Definition with_storage (s : LocalStorage.t) (w : world) : world :=
  {| collection := collection w; animals := animals w; loaded := loaded w;
     storage := s; network := network w; requests := requests w;
     console := console w; progress_count := progress_count w;
     celebration_hidden := celebration_hidden w; timers := timers w;
     main := main w |}.

Definition with_network (n : list fetch_outcome) (r : list jsstring) (w : world) : world :=
  {| collection := collection w; animals := animals w; loaded := loaded w;
     storage := storage w; network := n; requests := r;
     console := console w; progress_count := progress_count w;
     celebration_hidden := celebration_hidden w; timers := timers w;
     main := main w |}.

Definition with_console (c : list log_entry) (w : world) : world :=
  {| collection := collection w; animals := animals w; loaded := loaded w;
     storage := storage w; network := network w; requests := requests w;
     console := c; progress_count := progress_count w;
     celebration_hidden := celebration_hidden w; timers := timers w;
     main := main w |}.

Definition with_progress_count (p : option jsstring) (w : world) : world :=
  {| collection := collection w; animals := animals w; loaded := loaded w;
     storage := storage w; network := network w; requests := requests w;
     console := console w; progress_count := p;
     celebration_hidden := celebration_hidden w; timers := timers w;
     main := main w |}.

Definition with_celebration (h : option bool) (t : list timer) (w : world) : world :=
  {| collection := collection w; animals := animals w; loaded := loaded w;
     storage := storage w; network := network w; requests := requests w;
     console := console w; progress_count := progress_count w;
     celebration_hidden := h; timers := t;
     main := main w |}.

Definition with_main (m : option main_content) (w : world) : world :=
  {| collection := collection w; animals := animals w; loaded := loaded w;
     storage := storage w; network := network w; requests := requests w;
     console := console w; progress_count := progress_count w;
     celebration_hidden := celebration_hidden w; timers := timers w;
     main := m |}.

(** ** Computations: a world in, a completion and a world out

    A [throw] keeps the changes made to the world before it. *)
Definition M (A : Type) : Type := world -> completion A * world.

Definition ret {A} (a : A) : M A := fun w => (Normal a, w).

Definition bind {A B} (m : M A) (k : A -> M B) : M B :=
  fun w =>
    match m w with
    | (Normal a, w') => k a w'
    | (Throw e, w') => (Throw e, w')
    end.

Definition throw {A} (e : error) : M A := fun w => (Throw e, w).

(** [try { m } catch (error) { handler error }] *)
Definition try_catch {A} (m : M A) (handler : error -> M A) : M A :=
  fun w =>
    match m w with
    | (Normal a, w') => (Normal a, w')
    | (Throw e, w') => handler e w'
    end.

Definition get {A} (f : world -> A) : M A := fun w => (Normal (f w), w).
Definition modify (f : world -> world) : M unit := fun w => (Normal tt, f w).
Definition lift {A} (c : completion A) : M A := fun w => (c, w).

#[global] Instance M_ret : MRet M := @ret.
#[global] Instance M_bind : MBind M := fun A B k m => bind m k.

(** Platform calls, on the world *)
Definition localStorage_getItem (key : jsstring) : M (option jsstring) :=
  fun w => (LocalStorage.getItem (storage w) key, w).

Definition localStorage_setItem (key value : jsstring) : M unit :=
  fun w =>
    let '(c, s) := LocalStorage.setItem (storage w) key value in
    (c, with_storage s w).

Definition JSON_parse (text : jsstring) : M Json.value :=
  match Json.parse text with
  | Some v => ret v
  | None => throw SyntaxError
  end.

Definition console_log (entry : log_entry) : M unit :=
  modify (fun w => with_console (console w ++ [entry]) w).

(* ===================================================================== *)
(** * js/collection.js *)
(* ===================================================================== *)

Module Collection.

Definition STORAGE_KEY : jsstring := js "animal_adventure_collection".

(** [if (saved)] on what [getItem] returned: null and the empty string
    are falsy. *)
Definition truthy (saved : option jsstring) : bool :=
  match saved with
  | Some (_ :: _) => true
  | Some [] | None => false
  end.

Definition loadFromStorage : M unit :=
  try_catch
    (saved ← localStorage_getItem STORAGE_KEY;
     match saved with
     | Some text =>
         if truthy saved then
           parsed ← JSON_parse text;
           set ← lift (JsSet.construct parsed);
           modify (with_collection set)
         else mret tt
     | None => mret tt
     end)
    (fun error =>
       console_log (LogErrorLoadingCollection error);;
       modify (with_collection [])).

Definition saveToStorage : M unit :=
  try_catch
    (c ← get collection;
     localStorage_setItem STORAGE_KEY (Json.stringify (Json.JArr c)))
    (fun error => console_log (LogErrorSavingCollection error)).

Definition updateProgressDisplay : M unit :=
  modify (fun w =>
    match progress_count w with
    | Some _ => with_progress_count (Some (JsString.of_nat (JsSet.size (collection w)))) w
    | None => w
    end).

Definition showCelebration : M unit :=
  modify (fun w =>
    match celebration_hidden w with
    | Some _ => with_celebration (Some false) (timers w ++ [HideCelebration 1500]) w
    | None => w
    end).

Definition collect (animalId : jsstring) : M bool :=
  c ← get collection;
  if JsSet.has c (Json.JStr animalId) then mret false
  else
    modify (fun w => with_collection (JsSet.add (collection w) (Json.JStr animalId)) w);;
    saveToStorage;;
    updateProgressDisplay;;
    showCelebration;;
    mret true.

Definition isCollected (w : world) (animalId : jsstring) : bool :=
  JsSet.has (collection w) (Json.JStr animalId).

Definition getCollectedIds (w : world) : list Json.value := collection w.

Record ProgressSummary := {
  collected : jsnumber;
  total : jsnumber;
  percentage : jsnumber
}.

(** [getProgress(total = 20)]: a missing argument takes the default. *)
Definition getProgress (w : world) (total : option jsnumber) : ProgressSummary :=
  let total := match total with Some t => t | None => JsNumber.of_Z 20 end in
  let count := JsNumber.of_nat (JsSet.size (collection w)) in
  {| collected := count;
     total := total;
     percentage :=
       JsNumber.round (JsNumber.mul (JsNumber.div count total) (JsNumber.of_Z 100)) |}.

(** The part of [init] that touches the collection: the element lookups
    and listener registrations around it change none of the modelled
    state. *)
Definition init : M unit :=
  loadFromStorage;;
  updateProgressDisplay;;
  console_log LogCollectionInitialized.

Definition reset : M unit :=
  modify (with_collection []);;
  saveToStorage;;
  updateProgressDisplay.

(** The click listener of an owned gallery item: it hides the gallery
    and shows the card of its animal. *)
Inductive listener := ViewCard (a : animal).

Definition createGalleryItem (w : world) (a : animal) : Dom.node listener :=
  let isOwned := JsSet.has (collection w) (Json.JStr (id a)) in
  let item := Dom.createElement (js "div") in
  let item := Dom.set_className item (js "collection-item collection-item--" ++ rarity a) in
  let item := Dom.classList_toggle item (js "collection-item--collected") isOwned in
  let item := Dom.classList_toggle item (js "collection-item--undiscovered") (negb isOwned) in
  let item :=
    if isOwned then
      let img := Dom.createElement (js "img") in
      let img := Dom.set_className img (js "collection-item__image") in
      let img := Dom.setAttribute img (js "src") (image a) in
      let img := Dom.setAttribute img (js "alt") (name a) in
      Dom.appendChild item img
    else
      let silhouette := Dom.createElement (js "div") in
      let silhouette := Dom.set_className silhouette (js "collection-item__silhouette") in
      Dom.appendChild item silhouette in
  let name_el := Dom.createElement (js "span") in
  let name_el := Dom.set_className name_el (js "collection-item__name") in
  let name_el := Dom.set_textContent name_el (if isOwned then name a else js "???") in
  let item := Dom.appendChild item name_el in
  if isOwned then Dom.add_click_listener item (ViewCard a) else item.

End Collection.

(* ===================================================================== *)
(** * js/map.js: AnimalData *)
(* ===================================================================== *)

Module AnimalData.

Definition CATALOG_URL : jsstring := js "data/animals.json".

(** [await fetch(url)]: the request is recorded and meets the next
    outcome of the network; with none left the host is unreachable. *)
Definition fetch (url : jsstring) : M fetch_outcome :=
  fun w =>
    match network w with
    | [] => (Normal Unreachable, with_network [] (requests w ++ [url]) w)
    | o :: rest => (Normal o, with_network rest (requests w ++ [url]) w)
    end.

(** [animals.length] inside the log message reads a property of the
    parsed value, which throws on null. *)
Definition read_length (v : Json.value) : M unit :=
  match v with
  | Json.JNull => throw TypeError
  | _ => mret tt
  end.

Definition loadAnimals : M Json.value :=
  is_loaded ← get loaded;
  if (is_loaded : bool) then get animals
  else
    try_catch
      (outcome ← fetch CATALOG_URL;
       match outcome with
       | Unreachable => throw NetworkError
       | Response ok status body =>
           if negb ok then throw (HttpError status)
           else
             parsed ← JSON_parse body;
             modify (with_animals parsed);;
             modify (with_loaded true);;
             read_length parsed;;
             console_log LogLoadedAnimals;;
             get animals
       end)
      (fun error =>
         console_log (LogErrorLoadingAnimalData error);;
         mret (Json.JArr [])).

Definition isLoaded (w : world) : bool := loaded w.

End AnimalData.

(* ===================================================================== *)
(** * js/app.js *)
(* ===================================================================== *)

Module App.

(** The modules the start-up sequence calls that are not modelled here
    (speech, cards, map): each call either completes or throws. *)
Record collaborators := {
  Speech_init : completion unit;
  Cards_init : completion unit;
  GameMap_init : completion unit;
  GameMap_placeMarkers : Json.value -> completion unit;
  GameMap_updateAllMarkerStates : list Json.value -> completion unit;
  setupHandlers : completion unit
}.

(** [animals.length === 0] *)
Definition length_is_zero (v : Json.value) : M bool :=
  match v with
  | Json.JNull => throw TypeError
  | Json.JArr elems => mret (bool_decide (elems = []))
  | Json.JStr s => mret (bool_decide (s = []))
  | Json.JObj props =>
      mret (match find (fun kv : jsstring * Json.value => JsString.eqb kv.1 (js "length")) props with
            | Some (_, Json.JNum (S754_zero _)) => true
            | _ => false
            end)
  | Json.JBool _ | Json.JNum _ => mret false
  end.

Definition showError (message : jsstring) : M unit :=
  modify (fun w =>
    match main w with
    | Some _ => with_main (Some (MainErrorMessage message)) w
    | None => w
    end).

Definition init (env : collaborators) : M unit :=
  try_catch
    (lift (Speech_init env);;
     lift (Cards_init env);;
     Collection.init;;
     lift (GameMap_init env);;
     animals ← AnimalData.loadAnimals;
     empty ← length_is_zero animals;
     if (empty : bool) then
       showError (js "Could not load animal data. Please try refreshing the page.")
     else
       lift (GameMap_placeMarkers env animals);;
       ids ← get Collection.getCollectedIds;
       lift (GameMap_updateAllMarkerStates env ids);;
       lift (setupHandlers env);;
       console_log LogAppInitialized)
    (fun error =>
       console_log (LogErrorInitializingApp error);;
       showError (js "Something went wrong. Please try refreshing the page.")).

End App.

(* ===================================================================== *)
(** * js/speech.js *)
(* ===================================================================== *)

Module Speech.

(** [arr.forEach((x, i) => ...)] as a loop over a state *)
Fixpoint forEach {A St : Type} (body : St -> A -> nat -> St) (arr : list A) (i : nat)
    (s : St) : St :=
  match arr with
  | [] => s
  | x :: rest => forEach body rest (S i) (body s x i)
  end.

Definition push (parts : list jsstring) (part : jsstring) : list jsstring :=
  parts ++ [part].

Section BuildSpeechText.

(** [String.prototype.toUpperCase], which follows the Unicode case
    tables of the platform *)
Variable toUpperCase : jsstring -> jsstring.

Definition buildSpeechText (a : animal) : jsstring :=
  let parts := [] in
  let parts := push parts (name a) in
  let category :=
    if JsString.eqb (category a) (js "dinosaur")
    then js "is an Australian dinosaur"
    else js "is one of Australia's deadly creatures" in
  let parts := push parts category in
  let parts :=
    match facts a with
    | Some ((_ :: _) as fs) =>
        let parts := push parts (js "Here are some fun facts:") in
        forEach (fun parts fact i =>
                   push parts (js "Fact " ++ JsString.of_nat (i + 1) ++ js ": " ++ fact))
                fs 0%nat parts
    | _ => parts
    end in
  let parts :=
    match speechPractice a with
    | Some sp =>
        if hasGKSound sp then
          let parts := push parts (js "Now let's practice saying " ++ name a ++ js "!") in
          push parts (js "Listen for the " ++ toUpperCase (targetSound sp) ++ js " sound.")
        else parts
    | None => parts
    end in
  JsString.join (js ". ") parts.

End BuildSpeechText.

End Speech.

(* ===================================================================== *)
(** * Worlds to run the modules in *)
(* ===================================================================== *)

(** The world once the scripts are evaluated: every module variable at its
    initialiser, nothing logged, nothing requested. *)
Definition boot (s : LocalStorage.t) (net : list fetch_outcome)
    (progress : option jsstring) (celebration : option bool)
    (m : option main_content) : world :=
  {| collection := []; animals := Json.JArr []; loaded := false;
     storage := s; network := net; requests := []; console := [];
     progress_count := progress; celebration_hidden := celebration;
     timers := []; main := m |}.

(** A store that holds [value] under the collection key, or nothing. *)
Definition storage_holding (value : option jsstring) (denied : bool) (quota : N)
  : LocalStorage.t :=
  {| LocalStorage.items :=
       match value with
       | Some v => {[ Collection.STORAGE_KEY := v ]}
       | None => ∅
       end;
     LocalStorage.denied := denied;
     LocalStorage.quota := quota;
     LocalStorage.written := [] |}.

(** The page of the application: progress counter at 0, celebration
    hidden, main element present. *)
Definition page_world (s : LocalStorage.t) (net : list fetch_outcome) : world :=
  boot s net (Some (js "0")) (Some true) (Some MainPage).

(** The same call made [n] times in a row: the results, and the world at
    the end. A call that throws ends the run. *)
Fixpoint repeatedly {A} (m : M A) (n : nat) (w : world) : list A * world :=
  match n with
  | O => ([], w)
  | S n' =>
      match m w with
      | (Normal a, w') => let '(rs, w'') := repeatedly m n' w' in (a :: rs, w'')
      | (Throw _, w') => ([], w')
      end
  end.

(* ===================================================================== *)
(** * Auxiliary definitions for the statements *)
(* ===================================================================== *)

(** What the write of [saveToStorage] leaves behind: the store after the
    call, and the log entry when the write was refused. *)
Definition after_save (w : world) : world :=
  match LocalStorage.setItem (storage w) Collection.STORAGE_KEY
          (Json.stringify (Json.JArr (collection w))) with
  | (Normal _, s) => with_storage s w
  | (Throw e, s) =>
      with_console (console w ++ [LogErrorSavingCollection e]) (with_storage s w)
  end.

(** The display updates that follow a mutation *)
Definition after_progress (w : world) : world :=
  match progress_count w with
  | Some _ => with_progress_count (Some (JsString.of_nat (JsSet.size (collection w)))) w
  | None => w
  end.

Definition after_celebration (w : world) : world :=
  match celebration_hidden w with
  | Some _ => with_celebration (Some false) (timers w ++ [HideCelebration 1500]) w
  | None => w
  end.


(** ** Worlds used to run the statements *)

(** The application page over an empty store with room to write *)
Definition empty_store_world : world :=
  page_world (storage_holding None false 5000000) [].

(** The same page over a store too small for any write *)
Definition full_store_world : world :=
  page_world (storage_holding None false 3) [].

(** A world whose collection holds [n] ids, the decimals of 0 .. n-1 *)
Definition world_with_ids (n : nat) : world :=
  with_collection (map (fun i => Json.JStr (JsString.of_nat i)) (seq 0 n)) empty_store_world.

(** ** Stored texts *)

(** A stored text is a list of identifiers when it parses to an array of
    strings; any other text under the collection key is corrupted. *)
Definition holds_identifiers (text : jsstring) : Prop :=
  exists ids : list jsstring, Json.parse text = Some (Json.JArr (map Json.JStr ids)).

Definition corrupted (text : jsstring) : Prop := ~ holds_identifiers text.

(** The JSON text of the string ab between quotes *)
Definition quoted_ab : jsstring := [34; 97; 98; 34]%N.

(** What a stored text restores: the set, or the error thrown on the way *)
Definition restored (text : jsstring) : completion (list Json.value) :=
  match Json.parse text with
  | Some v => JsSet.construct v
  | None => Throw SyntaxError
  end.

(** The world [loadFromStorage] leaves *)
Definition after_load (w : world) : world :=
  let failed e :=
    with_collection [] (with_console (console w ++ [LogErrorLoadingCollection e]) w) in
  match LocalStorage.getItem (storage w) Collection.STORAGE_KEY with
  | Throw e => failed e
  | Normal None | Normal (Some []) => w
  | Normal (Some text) =>
      match restored text with
      | Normal set => with_collection set w
      | Throw e => failed e
      end
  end.

(** The application page over a store that holds [text] under the
    collection key *)
Definition world_storing (text : jsstring) : world :=
  page_world (storage_holding (Some text) false 5000000) [].

(** The tokens between the brackets of an array of strings *)
Fixpoint string_tokens (ids : list jsstring) : list Json.token :=
  match ids with
  | [] => []
  | a :: rest =>
      match rest with
      | [] => [Json.TString a]
      | _ => Json.TString a :: Json.TComma :: string_tokens rest
      end
  end.

(** ** Exact percentages *)

#[global] Instance spec_float_eq_dec : EqDecision jsnumber.
Proof. solve_decision. Defined.

(** [num / den] rounded to the closest integer, a tie going up, for a
    positive [den]: the value the words round(100 * count / total) denote. *)
Definition round_half_up (num den : Z) : Z := (2 * num + den) / (2 * den).

(** The progress summary as the specification words it, for a total that
    is a whole number: the percentage is the exact rounding, and a count
    above the total gives a percentage above 100. *)
Definition progress_as_stated (w : world) (total : nat) : Prop :=
  let summary := Collection.getProgress w (Some (JsNumber.of_nat total)) in
  let count := JsSet.size (collection w) in
  Collection.collected summary = JsNumber.of_nat count
  /\ Collection.total summary = JsNumber.of_nat total
  /\ Collection.percentage summary
     = JsNumber.of_Z (round_half_up (100 * Z.of_nat count) (Z.of_nat total))
  /\ ((total < count)%nat ->
      SFltb (JsNumber.of_Z 100) (Collection.percentage summary) = true).

(** The percentage of [getProgress], from the count and the total *)
Definition percentage_of (count total : nat) : jsnumber :=
  JsNumber.round
    (JsNumber.mul (JsNumber.div (JsNumber.of_nat count) (JsNumber.of_nat total))
       (JsNumber.of_Z 100)).

(** Whether the double computation gives the exact rounding for [count]
    of [total], and exceeds 100 when the count exceeds the total *)
Definition percentage_exact (total count : nat) : bool :=
  bool_decide (percentage_of count total
               = JsNumber.of_Z (round_half_up (100 * Z.of_nat count) (Z.of_nat total)))
  && ((count <=? total)%nat || SFltb (JsNumber.of_Z 100) (percentage_of count total)).

(** ** The catalog request *)

(** What the next request meets *)
Definition next_outcome (w : world) : fetch_outcome :=
  match network w with
  | [] => Unreachable
  | o :: _ => o
  end.

(** The world once that request is made *)
Definition after_fetch (w : world) : world :=
  with_network (tail (network w)) (requests w ++ [AnimalData.CATALOG_URL]) w.

(** The error of a source that is unreachable or malformed: the request is
    rejected, the response is not ok, or its body is not JSON text. *)
Definition load_error (o : fetch_outcome) : option error :=
  match o with
  | Unreachable => Some NetworkError
  | Response false status _ => Some (HttpError status)
  | Response true _ body =>
      match Json.parse body with
      | None => Some SyntaxError
      | Some _ => None
      end
  end.

(** Collaborators that all complete *)
Definition quiet_collaborators : App.collaborators :=
  {| App.Speech_init := Normal tt;
     App.Cards_init := Normal tt;
     App.GameMap_init := Normal tt;
     App.GameMap_placeMarkers := fun _ => Normal tt;
     App.GameMap_updateAllMarkerStates := fun _ => Normal tt;
     App.setupHandlers := Normal tt |}.

(** The application page with an empty store and a given network *)
Definition world_with_network (net : list fetch_outcome) : world :=
  page_world (storage_holding None false 5000000) net.

Definition could_not_load : jsstring :=
  js "Could not load animal data. Please try refreshing the page.".

(** ** The narration, part by part *)

(** The framing sentence of a category *)
Definition framing (category : jsstring) : jsstring :=
  if JsString.eqb category (js "dinosaur")
  then js "is an Australian dinosaur"
  else js "is one of Australia's deadly creatures".

(** The facts in order, the first numbered 1 *)
Definition fact_lines (fs : list jsstring) : list jsstring :=
  imap (fun i fact => js "Fact " ++ JsString.of_nat (S i) ++ js ": " ++ fact) fs.

Definition facts_block (a : animal) : list jsstring :=
  match facts a with
  | Some (fact :: fs) => js "Here are some fun facts:" :: fact_lines (fact :: fs)
  | Some [] | None => []
  end.

(** Whether pronunciation practice applies to a record *)
Definition practice_applies (a : animal) : bool :=
  match speechPractice a with
  | Some sp => hasGKSound sp
  | None => false
  end.

Definition prompt_block (toUpperCase : jsstring -> jsstring) (a : animal) : list jsstring :=
  match speechPractice a with
  | Some sp =>
      if hasGKSound sp
      then [js "Now let's practice saying " ++ name a ++ js "!";
            js "Listen for the " ++ toUpperCase (targetSound sp) ++ js " sound."]
      else []
  | None => []
  end.

Definition narration_parts (toUpperCase : jsstring -> jsstring) (a : animal) : list jsstring :=
  name a :: framing (category a) :: facts_block a ++ prompt_block toUpperCase a.

(** A record with two facts and no pronunciation practice *)
Definition quoll : animal :=
  {| id := js "quoll"; name := js "Quoll"; category := js "deadly";
     habitat := js "land"; rarity := js "rare"; image := js "images/quoll.png";
     position := (JsNumber.of_Z 50, JsNumber.of_Z 50);
     facts := Some [js "Fast"; js "Loud"];
     stats := (JsNumber.of_Z 2, JsNumber.of_Z 6, JsNumber.of_Z 3);
     speechPractice := None |}.

(** A record with pronunciation practice *)
Definition kookaburra : animal :=
  {| id := js "kookaburra"; name := js "Kookaburra"; category := js "deadly";
     habitat := js "land"; rarity := js "common"; image := js "images/kookaburra.png";
     position := (JsNumber.of_Z 70, JsNumber.of_Z 60);
     facts := Some [js "Laughs"];
     stats := (JsNumber.of_Z 2, JsNumber.of_Z 5, JsNumber.of_Z 1);
     speechPractice :=
       Some {| hasGKSound := true; phonetic := js "KOOK-uh-bur-uh";
               targetSound := js "k"; tip := js "Back of the tongue" |} |}.

(** The rarities of the data model *)
Definition rarities : list jsstring :=
  [js "common"; js "uncommon"; js "rare"; js "legendary"].

(** The text a store holds for the ids A and B *)
Definition stored_A_B : jsstring :=
  Json.stringify (Json.JArr [Json.JStr (js "A"); Json.JStr (js "B")]).

(** A progress summary of whole numbers *)
Definition summary_of (count total percent : Z) : Collection.ProgressSummary :=
  {| Collection.collected := JsNumber.of_Z count;
     Collection.total := JsNumber.of_Z total;
     Collection.percentage := JsNumber.of_Z percent |}.
(* ===================================================================== *)
(** * js/map.js: AnimalData, the queries *)
(* ===================================================================== *)

Module AnimalQueries.

Import Json.

(** [v.key] for a key that no prototype defines and that is neither
    [length] nor an index (the keys read here are id, category, habitat,
    rarity, speechPractice and hasGKSound): the own property of an object,
    undefined on an array, a string, a number or a boolean. Reading a
    property of null throws. [None] is undefined. *)
Fixpoint own_property (key : jsstring) (props : list (jsstring * value)) : option value :=
  match props with
  | [] => None
  | (k, v) :: rest => if JsString.eqb key k then Some v else own_property key rest
  end.

Definition get_property (v : value) (key : jsstring) : completion (option value) :=
  match v with
  | JNull => Throw TypeError
  | JObj props => Normal (own_property key props)
  | JBool _ | JNum _ | JStr _ | JArr _ => Normal None
  end.

(** [x === s] for a string [s] *)
Definition strict_equals_string (x : option value) (s : jsstring) : bool :=
  match x with
  | Some (JStr t) => JsString.eqb t s
  | _ => false
  end.

(** [ToBoolean] *)
Definition to_boolean (x : option value) : bool :=
  match x with
  | None | Some JNull => false
  | Some (JBool b) => b
  | Some (JNum (S754_zero _)) | Some (JNum S754_nan) => false
  | Some (JNum _) => true
  | Some (JStr s) => negb (bool_decide (s = []))
  | Some (JArr _) | Some (JObj _) => true
  end.

(** The [find] and [filter] methods exist on arrays only: on any other
    catalog value the call throws. *)
Definition array_of (v : value) : completion (list value) :=
  match v with
  | JArr elems => Normal elems
  | _ => Throw TypeError
  end.

(** [arr.find(pred)]: the first element that passes; the callback is not
    called on the elements after it. *)
Fixpoint array_find (pred : value -> completion bool) (arr : list value)
  : completion (option value) :=
  match arr with
  | [] => Normal None
  | x :: rest =>
      match pred x with
      | Throw e => Throw e
      | Normal true => Normal (Some x)
      | Normal false => array_find pred rest
      end
  end.

(** [arr.filter(pred)]: the callback is called on every element in
    order. *)
Fixpoint array_filter (pred : value -> completion bool) (arr : list value)
  : completion (list value) :=
  match arr with
  | [] => Normal []
  | x :: rest =>
      match pred x with
      | Throw e => Throw e
      | Normal keep =>
          match array_filter pred rest with
          | Throw e => Throw e
          | Normal kept => Normal (if keep then x :: kept else kept)
          end
      end
  end.

(** [animal => animal.key === wanted] *)
Definition property_is (key wanted : jsstring) (animal : value) : completion bool :=
  match get_property animal key with
  | Throw e => Throw e
  | Normal x => Normal (strict_equals_string x wanted)
  end.

(** [[...animals]]: an array gives its elements, a string its code
    points; nothing else that JSON text denotes is iterable. *)
Definition getAll (w : world) : completion (list value) :=
  match animals w with
  | JArr elems => Normal elems
  | JStr s => Normal (map JStr (JsString.code_points s))
  | JNull | JBool _ | JNum _ | JObj _ => Throw TypeError
  end.

(** [animals.find(animal => animal.id === id) || null] *)
Definition getById (w : world) (id : jsstring) : completion value :=
  match array_of (animals w) with
  | Throw e => Throw e
  | Normal arr =>
      match array_find (property_is (js "id") id) arr with
      | Throw e => Throw e
      | Normal found =>
          Normal (if to_boolean found
                  then match found with Some v => v | None => JNull end
                  else JNull)
      end
  end.

Definition getByCategory (w : world) (category : jsstring) : completion (list value) :=
  match array_of (animals w) with
  | Throw e => Throw e
  | Normal arr => array_filter (property_is (js "category") category) arr
  end.

Definition getByHabitat (w : world) (habitat : jsstring) : completion (list value) :=
  match array_of (animals w) with
  | Throw e => Throw e
  | Normal arr => array_filter (property_is (js "habitat") habitat) arr
  end.

(** [animal => animal.speechPractice && animal.speechPractice.hasGKSound],
    as [filter] reads it: by its truth value. *)
Definition has_practice (animal : value) : completion bool :=
  match get_property animal (js "speechPractice") with
  | Throw e => Throw e
  | Normal sp =>
      if to_boolean sp then
        match sp with
        | Some v =>
            match get_property v (js "hasGKSound") with
            | Throw e => Throw e
            | Normal flag => Normal (to_boolean flag)
            end
        | None => Normal false
        end
      else Normal false
  end.

Definition getGKSoundAnimals (w : world) : completion (list value) :=
  match array_of (animals w) with
  | Throw e => Throw e
  | Normal arr => array_filter has_practice arr
  end.

Definition getByRarity (w : world) (rarity : jsstring) : completion (list value) :=
  match array_of (animals w) with
  | Throw e => Throw e
  | Normal arr => array_filter (property_is (js "rarity") rarity) arr
  end.

End AnimalQueries.

(* ===================================================================== *)
(** * More of the platform: string methods, token lists, speech synthesis *)
(* ===================================================================== *)

Module StringMethods.

(** [s.startsWith(prefix)] *)
Definition startsWith (s prefix : jsstring) : bool :=
  bool_decide (take (length prefix) s = prefix).

(** [s.includes(sub)] *)
Fixpoint includes (s sub : jsstring) : bool :=
  match s with
  | [] => bool_decide (sub = [])
  | _ :: rest => startsWith s sub || includes rest sub
  end.

(** [s.charAt(0)]: the first code unit, or the empty string *)
Definition charAt0 (s : jsstring) : jsstring :=
  match s with
  | [] => []
  | c :: _ => [c]
  end.

(** [s.slice(1)] *)
Definition slice1 (s : jsstring) : jsstring := tail s.

(** The quotation mark, for the literals that hold one *)
Definition quote : jsstring := [34%N].

End StringMethods.

(** The [classList] of an element, on the value of its class attribute
    ([None] when the element has no such attribute), for tokens that are
    not empty and have no whitespace. [add] and [remove] always write the
    attribute back, [toggle] only when the set changes. *)
Module ClassList.

Definition contains (attr : option jsstring) (tok : jsstring) : bool :=
  existsb (JsString.eqb tok) (Dom.token_set attr).

Definition without (tok : jsstring) (set : list jsstring) : list jsstring :=
  List.filter (fun t => negb (JsString.eqb tok t)) set.

Definition add (attr : option jsstring) (tok : jsstring) : option jsstring :=
  Some (Dom.serialize_tokens (Dom.add_token (Dom.token_set attr) tok)).

Definition remove (attr : option jsstring) (tok : jsstring) : option jsstring :=
  match attr with
  | None => None
  | Some _ => Some (Dom.serialize_tokens (without tok (Dom.token_set attr)))
  end.

Definition toggle (attr : option jsstring) (tok : jsstring) (force : bool)
  : option jsstring :=
  let set := Dom.token_set attr in
  if existsb (JsString.eqb tok) set
  then if force then attr else Some (Dom.serialize_tokens (without tok set))
  else if force then Some (Dom.serialize_tokens (set ++ [tok])) else attr.

End ClassList.

(** [window.speechSynthesis] and its utterances *)
Module SpeechSynthesis.

Record voice := {
  lang : jsstring;
  voiceURI : jsstring
}.

(** An utterance: its text, its voice when one was set, and its rate,
    pitch and volume, which are single-precision numbers. *)
Record utterance := {
  text : jsstring;
  voice_set : option voice;
  rate : spec_float;
  pitch : spec_float;
  volume : spec_float
}.

(** The synthesiser: the utterances handed to it and not cancelled, in
    order, and the voices it offers. *)
Record t := {
  pending : list utterance;
  installed : list voice
}.

Definition getVoices (s : t) : list voice := installed s.

Definition cancel (s : t) : t := {| pending := []; installed := installed s |}.

Definition speak (s : t) (u : utterance) : t :=
  {| pending := pending s ++ [u]; installed := installed s |}.

(** Writing a Number to an attribute of type float: the closest
    single-precision number, a tie going to the even significand; a
    TypeError for NaN, an infinity, and a number that rounds beyond the
    largest single-precision number. *)
Definition to_float (x : jsnumber) : completion spec_float :=
  match x with
  | S754_nan | S754_infinity _ => Throw TypeError
  | S754_zero _ => Normal x
  | S754_finite s m e =>
      match binary_normalize 24 128 (if s then Z.neg m else Z.pos m) e s with
      | S754_infinity _ => Throw TypeError
      | y => Normal y
      end
  end.

End SpeechSynthesis.

(* ===================================================================== *)
(** * The page the views run in *)
(* ===================================================================== *)

(** [#btn-speak]: its class attribute, the markup last written to it, the
    [display] of its style once written, and the [focus()] calls made. *)
Record speak_button := {
  speak_class : option jsstring;
  speak_innerHTML : jsstring;
  speak_display : option jsstring;
  speak_focus_calls : nat
}.

(** [#btn-collect] *)
Record collect_button := {
  collect_disabled : bool;
  collect_innerHTML : jsstring
}.

(** A modal element: its class and [aria-hidden] attributes *)
Record modal_attributes := {
  class_attribute : option jsstring;
  aria_hidden : option jsstring
}.

(** A filter button: its class attribute and [dataset.filter] *)
Record filter_button := {
  filter_class : option jsstring;
  data_filter : option jsstring
}.

(** The properties of the parts of the card that [Cards.show] writes a
    text to. A width is the text assigned to [style.width]. *)
Inductive card_property :=
| Name_textContent
| Image_src
| Image_alt
| Habitat_textContent
| Rarity_textContent
| Rarity_className
| Type_textContent
| Card_className
| StatSize_width
| StatSpeed_width
| StatDanger_width
| Phonetic_innerHTML
| SpeechTip_textContent.

#[global] Instance card_property_eq_dec : EqDecision card_property.
Proof. solve_decision. Defined.

Definition card_property_index (p : card_property) : nat :=
  match p with
  | Name_textContent => 0 | Image_src => 1 | Image_alt => 2
  | Habitat_textContent => 3 | Rarity_textContent => 4 | Rarity_className => 5
  | Type_textContent => 6 | Card_className => 7 | StatSize_width => 8
  | StatSpeed_width => 9 | StatDanger_width => 10 | Phonetic_innerHTML => 11
  | SpeechTip_textContent => 12
  end%nat.

Definition card_property_at (n : nat) : option card_property :=
  match n with
  | 0 => Some Name_textContent | 1 => Some Image_src | 2 => Some Image_alt
  | 3 => Some Habitat_textContent | 4 => Some Rarity_textContent
  | 5 => Some Rarity_className | 6 => Some Type_textContent
  | 7 => Some Card_className | 8 => Some StatSize_width
  | 9 => Some StatSpeed_width | 10 => Some StatDanger_width
  | 11 => Some Phonetic_innerHTML | 12 => Some SpeechTip_textContent
  | _ => None
  end%nat.

#[global] Instance card_property_countable : Countable card_property.
Proof.
  apply (inj_countable card_property_index card_property_at).
  intros []; reflexivity.
Defined.

(** The card modal: the modal element and the parts of the card. *)
Record card_view := {
  (** the properties written so far *)
  props : gmap card_property jsstring;
  (** the texts of the [li] children of [#card-facts-list] *)
  factsList : list jsstring;
  (** [hidden] of [#speech-practice] *)
  speechPractice_hidden : bool;
  (** the class attribute of the modal *)
  modal_class : option jsstring;
  (** its [aria-hidden] attribute *)
  modal_aria_hidden : option jsstring
}.

Definition card_props (v : gmap card_property jsstring) (r : card_view) : card_view :=
  {| props := v; factsList := factsList r;
     speechPractice_hidden := speechPractice_hidden r; modal_class := modal_class r;
     modal_aria_hidden := modal_aria_hidden r |}.

Definition card_factsList (v : list jsstring) (r : card_view) : card_view :=
  {| props := props r; factsList := v;
     speechPractice_hidden := speechPractice_hidden r; modal_class := modal_class r;
     modal_aria_hidden := modal_aria_hidden r |}.

Definition card_speechPractice_hidden (v : bool) (r : card_view) : card_view :=
  {| props := props r; factsList := factsList r; speechPractice_hidden := v;
     modal_class := modal_class r; modal_aria_hidden := modal_aria_hidden r |}.

Definition card_modal_class (v : option jsstring) (r : card_view) : card_view :=
  {| props := props r; factsList := factsList r;
     speechPractice_hidden := speechPractice_hidden r; modal_class := v;
     modal_aria_hidden := modal_aria_hidden r |}.

Definition card_modal_aria_hidden (v : option jsstring) (r : card_view) : card_view :=
  {| props := props r; factsList := factsList r;
     speechPractice_hidden := speechPractice_hidden r; modal_class := modal_class r;
     modal_aria_hidden := v |}.


(** The function a marker was given as its [onClick]: the sources pass
    [handleAnimalClick] of js/app.js. *)
Inductive click_handler := HandleAnimalClick.

(** A marker of the map: the button element [createMarker] builds. [left]
    and [top] are the texts assigned to its style, [icon] the text of its
    icon, [badge] the text of its practice badge when it has one; [opens]
    and [onClick] are the animal and the function of its click listener. *)
Record marker := {
  marker_class : option jsstring;
  animalId : jsstring;
  aria_label : jsstring;
  left : jsstring;
  top : jsstring;
  icon : jsstring;
  badge : option jsstring;
  opens : animal;
  onClick : option click_handler
}.

Definition with_marker_class (c : option jsstring) (m : marker) : marker :=
  {| marker_class := c; animalId := animalId m; aria_label := aria_label m;
     left := left m; top := top m; icon := icon m; badge := badge m;
     opens := opens m; onClick := onClick m |}.

(** The console lines of the views *)
Inductive page_log :=
| LogSpeechInitialized
| WarnSpeechNotSupported
| LogFoundEnglishVoices (n : nat)
| WarnSynthesisNotAvailable
| ErrorSpeechSynthesis
| ErrorAnimalModalNotFound
| LogCardsInitialized
| ErrorMapContainerNotFound
| LogMapInitialized
| LogPlacedMarkers (n : nat).

(** The timers of the views: the one a marker click sets to take the
    active look off the marker again (by the place of the marker in the
    list), and the one that ends the print view. *)
Inductive page_timer :=
| DeactivateMarker (index : nat) (delay : N)
| EndPrintMode (delay : N).

(** The elements of the page the modules look up; [None] when the page lacks one. *)
Record document := {
  (** [window.speechSynthesis], when the browser has it *)
  speechSynthesis : option SpeechSynthesis.t;
  (** [#btn-speak] *)
  btn_speak : option speak_button;
  (** [#btn-collect] *)
  btn_collect : option collect_button;
  (** [#animal-modal] with the parts of the card *)
  animal_modal : option card_view;
  (** the map container: whether the outline is drawn in it *)
  map_element : option bool;
  (** [#collection-modal] *)
  collection_modal : option modal_attributes;
  (** the children of [#collection-grid] *)
  collection_grid : option (list (Dom.node Collection.listener));
  (** the [.filter-btn] elements, in document order *)
  filter_buttons : list filter_button
}.

Definition set_speechSynthesis (v : option SpeechSynthesis.t) (r : document) : document :=
  {| speechSynthesis := v; btn_speak := btn_speak r; btn_collect := btn_collect r;
     animal_modal := animal_modal r; map_element := map_element r;
     collection_modal := collection_modal r; collection_grid := collection_grid r;
     filter_buttons := filter_buttons r |}.

Definition set_btn_speak (v : option speak_button) (r : document) : document :=
  {| speechSynthesis := speechSynthesis r; btn_speak := v;
     btn_collect := btn_collect r; animal_modal := animal_modal r;
     map_element := map_element r; collection_modal := collection_modal r;
     collection_grid := collection_grid r; filter_buttons := filter_buttons r |}.

Definition set_btn_collect (v : option collect_button) (r : document) : document :=
  {| speechSynthesis := speechSynthesis r; btn_speak := btn_speak r;
     btn_collect := v; animal_modal := animal_modal r; map_element := map_element r;
     collection_modal := collection_modal r; collection_grid := collection_grid r;
     filter_buttons := filter_buttons r |}.

Definition set_animal_modal (v : option card_view) (r : document) : document :=
  {| speechSynthesis := speechSynthesis r; btn_speak := btn_speak r;
     btn_collect := btn_collect r; animal_modal := v; map_element := map_element r;
     collection_modal := collection_modal r; collection_grid := collection_grid r;
     filter_buttons := filter_buttons r |}.

Definition set_map_element (v : option bool) (r : document) : document :=
  {| speechSynthesis := speechSynthesis r; btn_speak := btn_speak r;
     btn_collect := btn_collect r; animal_modal := animal_modal r; map_element := v;
     collection_modal := collection_modal r; collection_grid := collection_grid r;
     filter_buttons := filter_buttons r |}.

Definition set_collection_modal (v : option modal_attributes) (r : document) : document :=
  {| speechSynthesis := speechSynthesis r; btn_speak := btn_speak r;
     btn_collect := btn_collect r; animal_modal := animal_modal r;
     map_element := map_element r; collection_modal := v;
     collection_grid := collection_grid r; filter_buttons := filter_buttons r |}.

Definition set_collection_grid (v : option (list (Dom.node Collection.listener))) (r : document) : document :=
  {| speechSynthesis := speechSynthesis r; btn_speak := btn_speak r;
     btn_collect := btn_collect r; animal_modal := animal_modal r;
     map_element := map_element r; collection_modal := collection_modal r;
     collection_grid := v; filter_buttons := filter_buttons r |}.

Definition set_filter_buttons (v : list filter_button) (r : document) : document :=
  {| speechSynthesis := speechSynthesis r; btn_speak := btn_speak r;
     btn_collect := btn_collect r; animal_modal := animal_modal r;
     map_element := map_element r; collection_modal := collection_modal r;
     collection_grid := collection_grid r; filter_buttons := v |}.


(** The state the views run in: the module variables of the five sources, the document, the console lines and the pending timers of the views. *)
Record page := {
  (** the world of the collection store and the catalog *)
  world_of : world;
  (** js/speech.js: whether [synth] refers to the synthesiser *)
  synth : bool;
  speaking : bool;
  supported : bool;
  voices : list SpeechSynthesis.voice;
  (** js/cards.js: whether [modal] and [elements] are set *)
  cards_modal : bool;
  currentAnimal : option animal;
  (** GameMap: whether [mapContainer] refers to the element *)
  mapContainer : bool;
  markers : list marker;
  (** js/collection.js: whether [modal] and [grid] refer to elements *)
  gallery_modal : bool;
  gallery_grid : bool;
  (** the document and the platform *)
  doc : document;
  page_console : list page_log;
  page_timers : list page_timer
}.

Definition set_world_of (v : world) (r : page) : page :=
  {| world_of := v; synth := synth r; speaking := speaking r;
     supported := supported r; voices := voices r; cards_modal := cards_modal r;
     currentAnimal := currentAnimal r; mapContainer := mapContainer r;
     markers := markers r; gallery_modal := gallery_modal r;
     gallery_grid := gallery_grid r; doc := doc r; page_console := page_console r;
     page_timers := page_timers r |}.

Definition set_synth (v : bool) (r : page) : page :=
  {| world_of := world_of r; synth := v; speaking := speaking r;
     supported := supported r; voices := voices r; cards_modal := cards_modal r;
     currentAnimal := currentAnimal r; mapContainer := mapContainer r;
     markers := markers r; gallery_modal := gallery_modal r;
     gallery_grid := gallery_grid r; doc := doc r; page_console := page_console r;
     page_timers := page_timers r |}.

Definition set_speaking (v : bool) (r : page) : page :=
  {| world_of := world_of r; synth := synth r; speaking := v;
     supported := supported r; voices := voices r; cards_modal := cards_modal r;
     currentAnimal := currentAnimal r; mapContainer := mapContainer r;
     markers := markers r; gallery_modal := gallery_modal r;
     gallery_grid := gallery_grid r; doc := doc r; page_console := page_console r;
     page_timers := page_timers r |}.

Definition set_supported (v : bool) (r : page) : page :=
  {| world_of := world_of r; synth := synth r; speaking := speaking r;
     supported := v; voices := voices r; cards_modal := cards_modal r;
     currentAnimal := currentAnimal r; mapContainer := mapContainer r;
     markers := markers r; gallery_modal := gallery_modal r;
     gallery_grid := gallery_grid r; doc := doc r; page_console := page_console r;
     page_timers := page_timers r |}.

Definition set_voices (v : list SpeechSynthesis.voice) (r : page) : page :=
  {| world_of := world_of r; synth := synth r; speaking := speaking r;
     supported := supported r; voices := v; cards_modal := cards_modal r;
     currentAnimal := currentAnimal r; mapContainer := mapContainer r;
     markers := markers r; gallery_modal := gallery_modal r;
     gallery_grid := gallery_grid r; doc := doc r; page_console := page_console r;
     page_timers := page_timers r |}.

Definition set_cards_modal (v : bool) (r : page) : page :=
  {| world_of := world_of r; synth := synth r; speaking := speaking r;
     supported := supported r; voices := voices r; cards_modal := v;
     currentAnimal := currentAnimal r; mapContainer := mapContainer r;
     markers := markers r; gallery_modal := gallery_modal r;
     gallery_grid := gallery_grid r; doc := doc r; page_console := page_console r;
     page_timers := page_timers r |}.

Definition set_currentAnimal (v : option animal) (r : page) : page :=
  {| world_of := world_of r; synth := synth r; speaking := speaking r;
     supported := supported r; voices := voices r; cards_modal := cards_modal r;
     currentAnimal := v; mapContainer := mapContainer r; markers := markers r;
     gallery_modal := gallery_modal r; gallery_grid := gallery_grid r; doc := doc r;
     page_console := page_console r; page_timers := page_timers r |}.

Definition set_mapContainer (v : bool) (r : page) : page :=
  {| world_of := world_of r; synth := synth r; speaking := speaking r;
     supported := supported r; voices := voices r; cards_modal := cards_modal r;
     currentAnimal := currentAnimal r; mapContainer := v; markers := markers r;
     gallery_modal := gallery_modal r; gallery_grid := gallery_grid r; doc := doc r;
     page_console := page_console r; page_timers := page_timers r |}.

Definition set_markers (v : list marker) (r : page) : page :=
  {| world_of := world_of r; synth := synth r; speaking := speaking r;
     supported := supported r; voices := voices r; cards_modal := cards_modal r;
     currentAnimal := currentAnimal r; mapContainer := mapContainer r; markers := v;
     gallery_modal := gallery_modal r; gallery_grid := gallery_grid r; doc := doc r;
     page_console := page_console r; page_timers := page_timers r |}.

Definition set_gallery_modal (v : bool) (r : page) : page :=
  {| world_of := world_of r; synth := synth r; speaking := speaking r;
     supported := supported r; voices := voices r; cards_modal := cards_modal r;
     currentAnimal := currentAnimal r; mapContainer := mapContainer r;
     markers := markers r; gallery_modal := v; gallery_grid := gallery_grid r;
     doc := doc r; page_console := page_console r; page_timers := page_timers r |}.

Definition set_gallery_grid (v : bool) (r : page) : page :=
  {| world_of := world_of r; synth := synth r; speaking := speaking r;
     supported := supported r; voices := voices r; cards_modal := cards_modal r;
     currentAnimal := currentAnimal r; mapContainer := mapContainer r;
     markers := markers r; gallery_modal := gallery_modal r; gallery_grid := v;
     doc := doc r; page_console := page_console r; page_timers := page_timers r |}.

Definition set_doc (v : document) (r : page) : page :=
  {| world_of := world_of r; synth := synth r; speaking := speaking r;
     supported := supported r; voices := voices r; cards_modal := cards_modal r;
     currentAnimal := currentAnimal r; mapContainer := mapContainer r;
     markers := markers r; gallery_modal := gallery_modal r;
     gallery_grid := gallery_grid r; doc := v; page_console := page_console r;
     page_timers := page_timers r |}.

Definition set_page_console (v : list page_log) (r : page) : page :=
  {| world_of := world_of r; synth := synth r; speaking := speaking r;
     supported := supported r; voices := voices r; cards_modal := cards_modal r;
     currentAnimal := currentAnimal r; mapContainer := mapContainer r;
     markers := markers r; gallery_modal := gallery_modal r;
     gallery_grid := gallery_grid r; doc := doc r; page_console := v;
     page_timers := page_timers r |}.

Definition set_page_timers (v : list page_timer) (r : page) : page :=
  {| world_of := world_of r; synth := synth r; speaking := speaking r;
     supported := supported r; voices := voices r; cards_modal := cards_modal r;
     currentAnimal := currentAnimal r; mapContainer := mapContainer r;
     markers := markers r; gallery_modal := gallery_modal r;
     gallery_grid := gallery_grid r; doc := doc r; page_console := page_console r;
     page_timers := v |}.


(** ** Computations on the page *)

Definition P (A : Type) : Type := page -> completion A * page.

#[global] Instance P_ret : MRet P := fun A (a : A) (p : page) => (Normal a, p).

#[global] Instance P_bind : MBind P :=
  fun A B (k : A -> P B) (m : P A) (p : page) =>
    match m p with
    | (Normal a, p') => k a p'
    | (Throw e, p') => (Throw e, p')
    end.

Definition read {A} (f : page -> A) : P A := fun p => (Normal (f p), p).
Definition update (f : page -> page) : P unit := fun p => (Normal tt, f p).
Definition raise {A} (e : error) : P A := fun p => (Throw e, p).
Definition of_completion {A} (c : completion A) : P A := fun p => (c, p).

(** A computation of the collection store or the catalog, on the page *)
Definition on_world {A} (m : M A) : P A :=
  fun p => let '(c, w) := m (world_of p) in (c, set_world_of w p).

Definition update_doc (f : document -> document) : P unit :=
  update (fun p => set_doc (f (doc p)) p).

Definition page_log_line (entry : page_log) : P unit :=
  update (fun p => set_page_console (page_console p ++ [entry]) p).

Definition setTimeout (t : page_timer) : P unit :=
  update (fun p => set_page_timers (page_timers p ++ [t]) p).

(** [Cards.getCurrentAnimal()], which js/speech.js and js/app.js call *)
Definition Cards_getCurrentAnimal : P (option animal) := read currentAnimal.

(* ===================================================================== *)
(** * js/speech.js: the synthesis *)
(* ===================================================================== *)

Module SpeechControl.

Import SpeechSynthesis.

(** The [options] argument of [speak]: each property a Number, or
    missing. *)
Record options := {
  opt_rate : option jsnumber;
  opt_pitch : option jsnumber;
  opt_volume : option jsnumber
}.

(** [{}], the default of the argument *)
Definition no_options : options :=
  {| opt_rate := None; opt_pitch := None; opt_volume := None |}.

(** [x || d] for a Number or undefined [x]: zero and NaN are falsy. *)
Definition or_default (x : option jsnumber) (d : jsnumber) : jsnumber :=
  match x with
  | None | Some (S754_zero _) | Some S754_nan => d
  | Some v => v
  end.

Definition STOP_HTML : jsstring :=
  js "<span class=" ++ StringMethods.quote ++ js "btn__icon" ++ StringMethods.quote
  ++ js ">" ++ [240; 376; 8221; 8225]%N ++ js "</span> Stop".

Definition READ_HTML : jsstring :=
  js "<span class=" ++ StringMethods.quote ++ js "btn__icon" ++ StringMethods.quote
  ++ js ">" ++ [240; 376; 8221; 352]%N ++ js "</span> Read to Me".

Definition updateSpeakButton (isSpeaking : bool) : P unit :=
  update_doc (fun d =>
    match btn_speak d with
    | None => d
    | Some btn =>
        set_btn_speak
          (Some {| speak_class := ClassList.toggle (speak_class btn) (js "speaking") isSpeaking;
                   speak_innerHTML := if isSpeaking then STOP_HTML else READ_HTML;
                   speak_display := speak_display btn;
                   speak_focus_calls := speak_focus_calls btn |}) d
    end).

Definition hideSpeak : P unit :=
  update_doc (fun d =>
    match btn_speak d with
    | None => d
    | Some btn =>
        set_btn_speak
          (Some {| speak_class := speak_class btn;
                   speak_innerHTML := speak_innerHTML btn;
                   speak_display := Some (js "none");
                   speak_focus_calls := speak_focus_calls btn |}) d
    end).

(** The synthesiser [synth] refers to; a call on null throws. *)
Definition the_synth : P SpeechSynthesis.t :=
  set ← read synth;
  platform ← read (fun p => speechSynthesis (doc p));
  match platform with
  | Some s => if (set : bool) then mret s else raise TypeError
  | None => raise TypeError
  end.

Definition loadVoices : P unit :=
  s ← the_synth;
  update (set_voices (getVoices s));;
  vs ← read voices;
  let englishVoices :=
    List.filter (fun v => StringMethods.startsWith (lang v) (js "en")) vs in
  if (0 <? length englishVoices)%nat
  then page_log_line (LogFoundEnglishVoices (length englishVoices))
  else mret tt.

(** [init]; the click listener it gives the speak button is
    [handleSpeakClick], and the synthesiser calls [loadVoices] when its
    voices change. *)
Definition init : P unit :=
  platform ← read (fun p => speechSynthesis (doc p));
  match platform with
  | Some _ =>
      update (set_synth true);;
      update (set_supported true);;
      loadVoices;;
      page_log_line LogSpeechInitialized
  | None =>
      page_log_line WarnSpeechNotSupported;;
      hideSpeak
  end.

Definition getBestVoice (voices : list voice) : option voice :=
  match voices with
  | [] => None
  | first :: _ =>
      match find (fun v => JsString.eqb (lang v) (js "en-AU")) voices with
      | Some aussie => Some aussie
      | None =>
          match find (fun v => StringMethods.startsWith (lang v) (js "en")) voices with
          | Some english => Some english
          | None => Some first
          end
      end
  end.

Definition stop : P unit :=
  set ← read synth;
  (if (set : bool)
   then update_doc (fun d => set_speechSynthesis (cancel <$> speechSynthesis d) d)
   else mret tt);;
  update (set_speaking false);;
  updateSpeakButton false.

(** The listeners of an utterance *)
Definition onstart : P unit :=
  update (set_speaking true);;
  updateSpeakButton true.

Definition onend : P unit :=
  update (set_speaking false);;
  updateSpeakButton false.

Definition onerror : P unit :=
  page_log_line ErrorSpeechSynthesis;;
  update (set_speaking false);;
  updateSpeakButton false.

Definition speak (text : jsstring) (opts : options) : P unit :=
  ok ← read supported;
  set ← read synth;
  if negb ok || negb set then page_log_line WarnSynthesisNotAvailable
  else
    stop;;
    vs ← read voices;
    let voice := getBestVoice vs in
    rate ← of_completion (to_float (or_default (opt_rate opts) (JsNumber.of_decimal false 9 (-1))));
    pitch ← of_completion (to_float (or_default (opt_pitch opts) (JsNumber.of_Z 1)));
    volume ← of_completion (to_float (or_default (opt_volume opts) (JsNumber.of_Z 1)));
    s ← the_synth;
    update_doc (set_speechSynthesis
      (Some (SpeechSynthesis.speak s
         {| text := text; voice_set := voice; rate := rate; pitch := pitch;
            volume := volume |}))).

Definition isSpeaking : P bool := read speaking.

Definition isSupported : P bool := read supported.

Definition speakName (name : jsstring) : P unit :=
  speak name {| opt_rate := Some (JsNumber.of_decimal false 7 (-1));
                opt_pitch := None; opt_volume := None |}.

Section HandleSpeakClick.

Variable toUpperCase : jsstring -> jsstring.

Definition handleSpeakClick : P unit :=
  busy ← read speaking;
  if (busy : bool) then stop
  else
    current ← Cards_getCurrentAnimal;
    match current with
    | None => mret tt
    | Some animal => speak (Speech.buildSpeechText toUpperCase animal) no_options
    end.

End HandleSpeakClick.

End SpeechControl.

(** [arr.forEach(x => body)] on the page: a throw ends the loop. *)
Fixpoint for_each {A : Type} (body : A -> P unit) (arr : list A) : P unit :=
  match arr with
  | [] => mret tt
  | x :: rest => body x;; for_each body rest
  end.

(* ===================================================================== *)
(** * js/cards.js *)
(* ===================================================================== *)

Module Cards.

Definition COLLECTED_HTML : jsstring :=
  js "<span class=" ++ StringMethods.quote ++ js "btn__icon" ++ StringMethods.quote
  ++ js ">" ++ [10003%N] ++ js "</span> Collected!".

Definition COLLECT_HTML : jsstring :=
  js "<span class=" ++ StringMethods.quote ++ js "btn__icon" ++ StringMethods.quote
  ++ js ">" ++ [11088%N] ++ js "</span> Collect!".

(** [init]: with the modal in the page, [modal] and the entries of
    [elements] are set; the page is taken to hold the parts of the card
    whenever it holds the modal. The listeners [setupCloseHandlers] adds
    call [hide]. *)
Definition init : P unit :=
  modal ← read (fun p => animal_modal (doc p));
  match modal with
  | None => page_log_line ErrorAnimalModalNotFound
  | Some _ =>
      update (set_cards_modal true);;
      page_log_line LogCardsInitialized
  end.

(** The modal and the parts [elements] refers to; before [init] has
    found them a property access on them throws. *)
Definition the_card : P card_view :=
  found ← read cards_modal;
  modal ← read (fun p => animal_modal (doc p));
  match modal with
  | Some card => if (found : bool) then mret card else raise TypeError
  | None => raise TypeError
  end.

Definition write_card (f : card_view -> card_view) : P unit :=
  card ← the_card;
  update_doc (set_animal_modal (Some (f card))).

Definition write_property (k : card_property) (v : jsstring) : P unit :=
  write_card (fun card => card_props (<[k := v]> (props card)) card).

(** [elements.btnCollect]: both its properties are written together. *)
Definition write_collect_button (b : collect_button) : P unit :=
  found ← read cards_modal;
  btn ← read (fun p => btn_collect (doc p));
  match btn with
  | Some _ =>
      if (found : bool) then update_doc (set_btn_collect (Some b)) else raise TypeError
  | None => raise TypeError
  end.

(** [elements.btnSpeak.focus()] *)
Definition focus_speak_button : P unit :=
  found ← read cards_modal;
  btn ← read (fun p => btn_speak (doc p));
  match btn with
  | Some b =>
      if (found : bool)
      then update_doc (set_btn_speak
             (Some {| speak_class := speak_class b;
                      speak_innerHTML := speak_innerHTML b;
                      speak_display := speak_display b;
                      speak_focus_calls := S (speak_focus_calls b) |}))
      else raise TypeError
  | None => raise TypeError
  end.

Definition setStatBar (element : card_property) (value : jsnumber) : P unit :=
  let percentage :=
    JsNumber.mul (JsNumber.div value (JsNumber.of_Z 10)) (JsNumber.of_Z 100) in
  write_property element (JsNumber.to_string percentage ++ js "%").

Section Showing.

(** [String.prototype.toUpperCase] *)
Variable toUpperCase : jsstring -> jsstring.

(** [subject.replace(new RegExp(pattern, flags), replacement)], the
    regular expressions of the platform: the constructor throws on a
    pattern that is no regular expression. *)
Variable regexp_replace :
  forall (pattern flags subject replacement : jsstring), completion jsstring.

Definition formatPhonetic (phonetic targetSound : jsstring) : completion jsstring :=
  regexp_replace (js "(" ++ targetSound ++ js ")") (js "gi") phonetic
    (js "<span class=" ++ StringMethods.quote ++ js "highlight" ++ StringMethods.quote
     ++ js ">$1</span>").

Definition capitalize (str : jsstring) : jsstring :=
  toUpperCase (StringMethods.charAt0 str) ++ StringMethods.slice1 str.

(** [show(animal, isCollected = false)]; [stats] holds size, speed and
    dangerLevel in this order. *)
Definition show (animal : animal) (isCollected : bool) : P unit :=
  update (set_currentAnimal (Some animal));;
  write_property Name_textContent (name animal);;
  write_property Image_src (image animal);;
  write_property Image_alt (name animal);;
  write_property Habitat_textContent (habitat animal);;
  write_property Rarity_textContent (capitalize (rarity animal));;
  write_property Rarity_className (js "card__rarity card__rarity--" ++ rarity animal);;
  write_property Type_textContent
    (if JsString.eqb (category animal) (js "dinosaur") then js "Dinosaur" else js "Deadly");;
  write_property Card_className (js "modal__content card card--" ++ rarity animal);;
  setStatBar StatSize_width (stats animal).1.1;;
  setStatBar StatSpeed_width (stats animal).1.2;;
  setStatBar StatDanger_width (stats animal).2;;
  write_card (card_factsList []);;
  match facts animal with
  | None => raise TypeError
  | Some fs =>
      for_each (fun fact => write_card (fun card => card_factsList (factsList card ++ [fact]) card))
        fs
  end;;
  match speechPractice animal with
  | Some sp =>
      if hasGKSound sp then
        write_card (card_speechPractice_hidden false);;
        html ← of_completion (formatPhonetic (phonetic sp) (targetSound sp));
        write_property Phonetic_innerHTML html;;
        write_property SpeechTip_textContent (tip sp)
      else write_card (card_speechPractice_hidden true)
  | None => write_card (card_speechPractice_hidden true)
  end;;
  (if isCollected
   then write_collect_button
          {| collect_disabled := true; collect_innerHTML := COLLECTED_HTML |}
   else write_collect_button
          {| collect_disabled := false; collect_innerHTML := COLLECT_HTML |});;
  write_card (fun card => card_modal_class (ClassList.add (modal_class card) (js "active")) card);;
  write_card (card_modal_aria_hidden (Some (js "false")));;
  focus_speak_button.

End Showing.

Definition hide : P unit :=
  write_card (fun card =>
    card_modal_class (ClassList.remove (modal_class card) (js "active")) card);;
  write_card (card_modal_aria_hidden (Some (js "true")));;
  busy ← SpeechControl.isSpeaking;
  (if (busy : bool) then SpeechControl.stop else mret tt);;
  update (set_currentAnimal None).

Definition getCurrentAnimal : P (option animal) := Cards_getCurrentAnimal.

Definition setCollected (collected : bool) : P unit :=
  if collected
  then write_collect_button
         {| collect_disabled := true; collect_innerHTML := COLLECTED_HTML |}
  else mret tt.

End Cards.

(* ===================================================================== *)
(** * js/map.js: GameMap *)
(* ===================================================================== *)

Module GameMap.

(** [emojiMap], in the order of its keys; the literals are taken code
    unit by code unit from the source file. *)
Definition emojiMap : list (jsstring * jsstring) :=
  [(js "crocodile", [240; 376; 352]%N);
   (js "shark", [240; 376; 166; 710]%N);
   (js "snake", [240; 376]%N);
   (js "spider", [240; 376; 8226; 183; 239; 184]%N);
   (js "jellyfish", [240; 376; 381]%N);
   (js "octopus", [240; 376; 8482]%N);
   (js "kangaroo", [240; 376; 166; 732]%N);
   (js "cassowary", [240; 376; 166; 8230]%N);
   (js "platypus", [240; 376; 166; 171]%N);
   (js "dingo", [240; 376; 8226]%N);
   (js "default_dino", [240; 376; 166; 8211]%N);
   (js "flying", [240; 376; 166; 8230]%N);
   (js "marine", [240; 376; 8249]%N)].

(** [init('australia-map')], the call of js/app.js; [map_element] is
    the element of that id. *)
Definition init : P unit :=
  container ← read (fun p => map_element (doc p));
  match container with
  | None =>
      update (set_mapContainer false);;
      page_log_line ErrorMapContainerNotFound
  | Some _ =>
      update (set_mapContainer true);;
      update_doc (set_map_element (Some true));;
      page_log_line LogMapInitialized
  end.

Section Markers.

(** [String.prototype.toLowerCase] and [toUpperCase] *)
Variable toLowerCase : jsstring -> jsstring.
Variable toUpperCase : jsstring -> jsstring.

Definition getAnimalEmoji (animal : animal) : jsstring :=
  let name := toLowerCase (name animal) in
  match find (fun entry : jsstring * jsstring => StringMethods.includes name entry.1) emojiMap with
  | Some (_, emoji) => emoji
  | None =>
      if JsString.eqb (category animal) (js "dinosaur")
      then if JsString.eqb (habitat animal) (js "sea")
           then [240; 376; 8249]%N else [240; 376; 166; 8211]%N
      else if JsString.eqb (habitat animal) (js "sea")
           then [240; 376; 160]%N else [240; 376; 166; 381]%N
  end.

Definition createMarker (animal : animal) (onClick : option click_handler) : marker :=
  {| marker_class := Some (js "marker marker--" ++ rarity animal);
     animalId := id animal;
     aria_label := js "Discover " ++ name animal;
     left := JsNumber.to_string (position animal).1 ++ js "%";
     top := JsNumber.to_string (position animal).2 ++ js "%";
     icon := getAnimalEmoji animal;
     badge :=
       match speechPractice animal with
       | Some sp => if hasGKSound sp then Some (toUpperCase (targetSound sp)) else None
       | None => None
       end;
     opens := animal;
     onClick := onClick |}.

(** [placeMarkers(animals, onClick)]: the markers of before leave the
    document and the list; each new marker goes into the container, which
    throws when there is none, and then into the list. *)
Definition placeMarkers (animals : list animal) (onClick : option click_handler) : P unit :=
  update (set_markers []);;
  for_each (fun animal =>
              let marker := createMarker animal onClick in
              container ← read mapContainer;
              if (container : bool)
              then update (fun p => set_markers (markers p ++ [marker]) p)
              else raise TypeError)
           animals;;
  placed ← read markers;
  page_log_line (LogPlacedMarkers (length placed)).

End Markers.

(** The first marker that passes [test] is replaced by [change] of it:
    [const marker = markers.find(test); if (marker) change(marker)]. *)
Fixpoint change_first (test : marker -> bool) (change : marker -> marker)
    (ms : list marker) : list marker :=
  match ms with
  | [] => []
  | m :: rest => if test m then change m :: rest else m :: change_first test change rest
  end.

Definition updateMarkerState (animalId' : jsstring) (collected : bool) : P unit :=
  update (fun p =>
    set_markers
      (change_first
         (fun m => JsString.eqb (animalId m) animalId')
         (fun m =>
            let m := with_marker_class
                       (ClassList.toggle (marker_class m) (js "marker--collected") collected) m in
            with_marker_class
              (ClassList.toggle (marker_class m) (js "marker--undiscovered") (negb collected)) m)
         (markers p))
      p).

(** [collectedIds.includes(x)] *)
Definition includes (collectedIds : list Json.value) (x : Json.value) : bool :=
  existsb (JsSet.same_value_zero x) collectedIds.

Definition updateAllMarkerStates (collectedIds : list Json.value) : P unit :=
  update (fun p =>
    set_markers
      (map (fun m =>
              let isCollected := includes collectedIds (Json.JStr (animalId m)) in
              with_marker_class
                (ClassList.toggle (marker_class m) (js "marker--collected") isCollected) m)
           (markers p))
      p).

End GameMap.

(* ===================================================================== *)
(** * js/collection.js: the gallery *)
(* ===================================================================== *)

Module Gallery.

(** [init]: [modal] and [grid] take the elements of the page, then the
    collection is loaded and the counter updated. *)
Definition init : P unit :=
  update (fun p => set_gallery_modal (bool_decide (is_Some (collection_modal (doc p)))) p);;
  update (fun p => set_gallery_grid (bool_decide (is_Some (collection_grid (doc p)))) p);;
  on_world Collection.init.

Definition write_modal (f : modal_attributes -> modal_attributes) : P unit :=
  update_doc (fun d => set_collection_modal (f <$> collection_modal d) d).

Definition hideGallery : P unit :=
  found ← read gallery_modal;
  if negb found then mret tt
  else
    write_modal (fun m =>
      {| class_attribute := ClassList.remove (class_attribute m) (js "active");
         aria_hidden := aria_hidden m |});;
    write_modal (fun m =>
      {| class_attribute := class_attribute m; aria_hidden := Some (js "true") |}).

(** [renderGallery()]; [animals] is what [AnimalData.getAll()] returns,
    as records. *)
Definition renderGallery (animals : list animal) : P unit :=
  found ← read gallery_grid;
  if negb found then mret tt
  else
    update_doc (fun d => set_collection_grid ((fun _ => []) <$> collection_grid d) d);;
    for_each (fun animal =>
                w ← read world_of;
                let item := Collection.createGalleryItem w animal in
                update_doc (fun d =>
                  set_collection_grid ((fun items => items ++ [item]) <$> collection_grid d) d))
             animals.

Definition showGallery (animals : list animal) : P unit :=
  modal ← read gallery_modal;
  grid ← read gallery_grid;
  if negb modal || negb grid then mret tt
  else
    renderGallery animals;;
    write_modal (fun m =>
      {| class_attribute := ClassList.add (class_attribute m) (js "active");
         aria_hidden := aria_hidden m |});;
    write_modal (fun m =>
      {| class_attribute := class_attribute m; aria_hidden := Some (js "false") |}).

End Gallery.

(* ===================================================================== *)
(** * js/app.js: the handlers *)
(* ===================================================================== *)

Module Handlers.

Section Handlers.

Variable toUpperCase : jsstring -> jsstring.
Variable regexp_replace :
  forall (pattern flags subject replacement : jsstring), completion jsstring.

(** The animals of the catalog, as records: what [AnimalData.getAll()]
    returns to the gallery. *)
Variable catalog : list animal.

Definition handleAnimalClick (animal : animal) : P unit :=
  isCollected ← read (fun p => Collection.isCollected (world_of p) (id animal));
  Cards.show toUpperCase regexp_replace animal isCollected.

(** The click listener [setupCollectHandler] gives the collect button *)
Definition collect_click : P unit :=
  current ← Cards.getCurrentAnimal;
  match current with
  | None => mret tt
  | Some animal =>
      isNew ← on_world (Collection.collect (id animal));
      if (isNew : bool) then
        Cards.setCollected true;;
        GameMap.updateMarkerState (id animal) true
      else mret tt
  end.

(** The click listener [setupFilterHandlers] gives the filter button at
    [index]: the object [GameMap] has the properties init, placeMarkers,
    updateMarkerState and updateAllMarkerStates, so the call of
    [GameMap.filterMarkers] throws. *)
Definition filter_click (index : nat) : P unit :=
  buttons ← read (fun p => filter_buttons (doc p));
  match buttons !! index with
  | None => mret tt
  | Some _ =>
      update_doc (fun d =>
        set_filter_buttons
          (map (fun btn =>
                  {| filter_class := ClassList.remove (filter_class btn) (js "filter-btn--active");
                     data_filter := data_filter btn |})
               (filter_buttons d))
          d);;
      update_doc (fun d =>
        set_filter_buttons
          (alter (fun btn =>
                    {| filter_class := ClassList.add (filter_class btn) (js "filter-btn--active");
                       data_filter := data_filter btn |})
                 index (filter_buttons d))
          d);;
      raise TypeError
  end.

(** The click listener [createMarker] gives a marker, for the marker at
    [index] of the list *)
Definition marker_click (index : nat) : P unit :=
  ms ← read markers;
  match ms !! index with
  | None => mret tt
  | Some m =>
      update (set_markers
        (<[index := with_marker_class (ClassList.add (marker_class m) (js "marker--active")) m]> ms));;
      setTimeout (DeactivateMarker index 500);;
      match onClick m with
      | Some HandleAnimalClick => handleAnimalClick (opens m)
      | None => mret tt
      end
  end.

(** The click listener of a gallery item that is owned *)
Definition gallery_item_click (animal : animal) : P unit :=
  Gallery.hideGallery;;
  Cards.show toUpperCase regexp_replace animal true.

(** The keydown listener of [setupCloseHandlers], for the Escape key *)
Definition escape_key : P unit :=
  card ← Cards.the_card;
  if ClassList.contains (modal_class card) (js "active") then Cards.hide else mret tt.

(** What the user and the platform do to the page *)
Inductive event :=
| MarkerClick (index : nat)
| CollectClick
| CardCloseClick
| EscapeKey
| SpeakClick
| GalleryOpenClick
| GalleryCloseClick
| GalleryItemClick (index : nat)
| FilterClick (index : nat)
| UtteranceStart
| UtteranceEnd
| UtteranceError
| VoicesChanged.

Definition listener (ev : event) : P unit :=
  match ev with
  | MarkerClick index => marker_click index
  | CollectClick => collect_click
  | CardCloseClick => Cards.hide
  | EscapeKey => escape_key
  | SpeakClick => SpeechControl.handleSpeakClick toUpperCase
  | GalleryOpenClick => Gallery.showGallery catalog
  | GalleryCloseClick => Gallery.hideGallery
  | GalleryItemClick index =>
      grid ← read (fun p => collection_grid (doc p));
      match grid with
      | Some items =>
          match items !! index with
          | Some (Dom.Element _ _ (Collection.ViewCard animal :: _) _) =>
              gallery_item_click animal
          | _ => mret tt
          end
      | None => mret tt
      end
  | FilterClick index => filter_click index
  | UtteranceStart => SpeechControl.onstart
  | UtteranceEnd => SpeechControl.onend
  | UtteranceError => SpeechControl.onerror
  | VoicesChanged => SpeechControl.loadVoices
  end.

(** The page after the listeners of a run of events: a listener that
    throws leaves the page as it is at the throw. *)
Definition after_events (evs : list event) (p : page) : page :=
  fold_left (fun p ev => (listener ev p).2) evs p.

End Handlers.

End Handlers.
(* ===================================================================== *)
(** * Auxiliary definitions for the statements on the added code *)
(* ===================================================================== *)

(** One [collect] call per id, in order: the results and the world at the
    end. A call that throws ends the run. *)
Fixpoint collect_each (ids : list jsstring) (w : world) : list bool * world :=
  match ids with
  | [] => ([], w)
  | animalId :: rest =>
      match Collection.collect animalId w with
      | (Normal b, w') => let '(bs, w'') := collect_each rest w' in (b :: bs, w'')
      | (Throw _, w') => ([], w')
      end
  end.

(** The counter of the page header shows the size of the set, when the
    page has the counter. *)
Definition counter_shows_size (w : world) : Prop :=
  match progress_count w with
  | Some text => text = JsString.of_nat (JsSet.size (collection w))
  | None => True
  end.

(** The store holds the serialisation of the set under the collection
    key. *)
Definition store_holds_set (w : world) : Prop :=
  LocalStorage.items (storage w) !! Collection.STORAGE_KEY
  = Some (Json.stringify (Json.JArr (collection w))).

(** The scripts evaluated again over the store a world leaves behind: a
    new visit of the page. *)
Definition next_visit (w : world) : world :=
  boot (storage w) [] (Some (js "0")) (Some true) (Some MainPage).

(** A catalog record has the string [wanted] under [key]. *)
Definition record_has (key wanted : jsstring) (animal : Json.value) : bool :=
  match animal with
  | Json.JObj props =>
      match AnimalQueries.own_property key props with
      | Some (Json.JStr t) => JsString.eqb t wanted
      | _ => false
      end
  | _ => false
  end.

(** An element that is not null and does not have [wanted] under [key]:
    [find] passes over it. *)
Definition passed_over (key wanted : jsstring) (animal : Json.value) : Prop :=
  animal <> Json.JNull /\ record_has key wanted animal = false.

(** A token of a class attribute: not empty, no whitespace in it *)
Definition valid_token (tok : jsstring) : Prop :=
  tok <> [] /\ Forall (fun c => Dom.is_ascii_whitespace c = false) tok.

(** An ordered set of tokens *)
Definition token_list (set : list jsstring) : Prop :=
  Forall valid_token set /\ NoDup set.

(** A computation on the page that leaves a part [f] of the page as it
    is, whatever it returns or throws *)
Definition preserves {X A : Type} (f : page -> X) (m : P A) : Prop :=
  forall p : page, f (m p).2 = f p.

(** Whether a marker has the collected look *)
Definition collected_look (m : marker) : bool :=
  ClassList.contains (marker_class m) (js "marker--collected").

Definition undiscovered_look (m : marker) : bool :=
  ClassList.contains (marker_class m) (js "marker--undiscovered").

(** The same marker with another class attribute, in which every token
    but [tok] is present exactly when it was *)
Definition restyled (tok : jsstring) (m m' : marker) : Prop :=
  m' = with_marker_class (marker_class m') m
  /\ forall other : jsstring,
       other <> tok ->
       ClassList.contains (marker_class m') other = ClassList.contains (marker_class m) other.

(** Every marker has the collected look exactly when its animal is in
    the collection. *)
Definition markers_in_sync (p : page) : Prop :=
  Forall (fun m => collected_look m = Collection.isCollected (world_of p) (animalId m))
         (markers p).

(** Start-up, from the markers on: [placeMarkers(animals,
    handleAnimalClick)] and
    [updateAllMarkerStates(Collection.getCollectedIds())] *)
Definition place_and_mark (toLowerCase toUpperCase : jsstring -> jsstring)
    (animals : list animal) : P unit :=
  GameMap.placeMarkers toLowerCase toUpperCase animals (Some HandleAnimalClick);;
  ids ← read (fun p => Collection.getCollectedIds (world_of p));
  GameMap.updateAllMarkerStates ids.

(** ** Pages used to run the statements *)

(** The page once the scripts are evaluated: every module variable at
    its initialiser *)
Definition fresh_page (w : world) (d : document) : page :=
  {| world_of := w; synth := false; speaking := false; supported := false;
     voices := []; cards_modal := false; currentAnimal := None;
     mapContainer := false; markers := []; gallery_modal := false;
     gallery_grid := false; doc := d; page_console := []; page_timers := [] |}.

(** A document with every element the modules look up and a synthesiser
    that offers a British and an Australian voice *)
Definition whole_document : document :=
  {| speechSynthesis :=
       Some {| SpeechSynthesis.pending := [];
               SpeechSynthesis.installed :=
                 [ {| SpeechSynthesis.lang := js "en-GB"; SpeechSynthesis.voiceURI := js "Daniel" |};
                   {| SpeechSynthesis.lang := js "en-AU"; SpeechSynthesis.voiceURI := js "Karen" |} ] |};
     btn_speak :=
       Some {| speak_class := Some (js "btn"); speak_innerHTML := js "Read to Me";
               speak_display := None; speak_focus_calls := 0 |};
     btn_collect := Some {| collect_disabled := false; collect_innerHTML := js "Collect!" |};
     animal_modal :=
       Some {| props := ∅; factsList := []; speechPractice_hidden := true;
               modal_class := Some (js "modal"); modal_aria_hidden := Some (js "true") |};
     map_element := Some false;
     collection_modal :=
       Some {| class_attribute := Some (js "modal"); aria_hidden := Some (js "true") |};
     collection_grid := Some [];
     filter_buttons :=
       [ {| filter_class := Some (js "filter-btn filter-btn--active");
            data_filter := Some (js "all") |};
         {| filter_class := Some (js "filter-btn"); data_filter := Some (js "deadly") |} ] |}.

(** A document with none of them *)
Definition bare_document : document :=
  {| speechSynthesis := None; btn_speak := None; btn_collect := None;
     animal_modal := None; map_element := None; collection_modal := None;
     collection_grid := None; filter_buttons := [] |}.

(** The whole page after the [init] of the speech, cards, collection
    and map modules *)
Definition initialised_page : page :=
  let p := fresh_page empty_store_world whole_document in
  let p := (SpeechControl.init p).2 in
  let p := (Cards.init p).2 in
  let p := (Gallery.init p).2 in
  (GameMap.init p).2.

(** The same page with markers for the quoll and the kookaburra *)
Definition started_page : page :=
  (place_and_mark (fun s => s) (fun s => s) [quoll; kookaburra] initialised_page).2.

(** A platform without regular expressions to speak of: every pattern is
    refused. It serves where no record has pronunciation practice. *)
Definition no_regexp (pattern flags subject replacement : jsstring) : completion jsstring :=
  Throw SyntaxError.

(** A computation on the page that keeps a property [I] of the page,
    whatever it returns or throws *)
Definition keeps {A : Type} (I : page -> Prop) (m : P A) : Prop :=
  forall p : page, I p -> I (m p).2.

(** What [updateMarkerState] does to the marker it finds *)
Definition marked (collected : bool) (m : marker) : marker :=
  let m := with_marker_class
             (ClassList.toggle (marker_class m) (js "marker--collected") collected) m in
  with_marker_class
    (ClassList.toggle (marker_class m) (js "marker--undiscovered") (negb collected)) m.

(** The page has the card modal and the collect button, and [Cards.init]
    has found them. *)
Definition card_ready (p : page) : Prop :=
  cards_modal p = true
  /\ is_Some (animal_modal (doc p))
  /\ is_Some (btn_collect (doc p)).

(** A marker once [updateAllMarkerStates] has given it its look *)
Definition marker_with_look (m : marker) (collected : bool) : marker :=
  with_marker_class (ClassList.toggle (marker_class m) (js "marker--collected") collected) m.

(** A catalog of two records around a null element *)
Definition record_a : Json.value :=
  Json.JObj [(js "id", Json.JStr (js "a")); (js "category", Json.JStr (js "deadly"))].

Definition record_b : Json.value :=
  Json.JObj [(js "id", Json.JStr (js "b")); (js "category", Json.JStr (js "dinosaur"))].

Definition catalog_with_null : list Json.value := [record_a; Json.JNull; record_b].

(** ** Narration *)

(** The utterances the synthesiser holds, none without a synthesiser *)
Definition pending_utterances (p : page) : list SpeechSynthesis.utterance :=
  match speechSynthesis (doc p) with
  | Some s => SpeechSynthesis.pending s
  | None => []
  end.

(** [Speech.init] has found the synthesiser [s]. *)
Definition speech_ready (s : SpeechSynthesis.t) (p : page) : Prop :=
  supported p = true /\ synth p = true /\ speechSynthesis (doc p) = Some s.

(** The options with every zero and NaN taken out *)
Definition truthy_option (x : option jsnumber) : option jsnumber :=
  match x with
  | Some (S754_zero _) | Some S754_nan => None
  | _ => x
  end.

Definition truthy_options (opts : SpeechControl.options) : SpeechControl.options :=
  {| SpeechControl.opt_rate := truthy_option (SpeechControl.opt_rate opts);
     SpeechControl.opt_pitch := truthy_option (SpeechControl.opt_pitch opts);
     SpeechControl.opt_volume := truthy_option (SpeechControl.opt_volume opts) |}.

(** The single-precision numbers closest to 0.9 and 0.7, and 1 *)
Definition single_0_9 : spec_float := S754_finite false 15099494 (-24).
Definition single_0_7 : spec_float := S754_finite false 11744051 (-24).
Definition single_1 : spec_float := S754_finite false 8388608 (-23).

(** The utterance [speak(text)] makes with the default options *)
Definition default_utterance (text : jsstring) (voice : option SpeechSynthesis.voice)
  : SpeechSynthesis.utterance :=
  {| SpeechSynthesis.text := text; SpeechSynthesis.voice_set := voice;
     SpeechSynthesis.rate := single_0_9; SpeechSynthesis.pitch := single_1;
     SpeechSynthesis.volume := single_1 |}.

(** The page [stop()] leaves when [synth] is set: nothing pending, not
    speaking, the button back to its resting look *)
Definition silenced (p : page) : page :=
  let p1 := set_doc (set_speechSynthesis
                       (SpeechSynthesis.cancel <$> speechSynthesis (doc p)) (doc p)) p in
  let p2 := set_speaking false p1 in
  (SpeechControl.updateSpeakButton false p2).2.

(** The synthesiser holds one utterance at most. *)
Definition at_most_one_pending (p : page) : Prop :=
  (length (pending_utterances p) <= 1)%nat.

(** ** The card *)

(** The width [setStatBar] writes for a stat *)
Definition stat_width (value : jsnumber) : jsstring :=
  JsNumber.to_string
    (JsNumber.mul (JsNumber.div value (JsNumber.of_Z 10)) (JsNumber.of_Z 100))
  ++ js "%".

(** [show] from the practice section on: the part after the facts *)
Definition show_rest (toUpperCase : jsstring -> jsstring)
    (regexp_replace : jsstring -> jsstring -> jsstring -> jsstring -> completion jsstring)
    (a : animal) (isCollected : bool) : P unit :=
  match speechPractice a with
  | Some sp =>
      if hasGKSound sp then
        Cards.write_card (card_speechPractice_hidden false);;
        html ← of_completion
                 (Cards.formatPhonetic regexp_replace (phonetic sp) (targetSound sp));
        Cards.write_property Phonetic_innerHTML html;;
        Cards.write_property SpeechTip_textContent (tip sp)
      else Cards.write_card (card_speechPractice_hidden true)
  | None => Cards.write_card (card_speechPractice_hidden true)
  end;;
  (if isCollected
   then Cards.write_collect_button
          {| collect_disabled := true; collect_innerHTML := Cards.COLLECTED_HTML |}
   else Cards.write_collect_button
          {| collect_disabled := false; collect_innerHTML := Cards.COLLECT_HTML |});;
  Cards.write_card (fun card =>
    card_modal_class (ClassList.add (modal_class card) (js "active")) card);;
  Cards.write_card (card_modal_aria_hidden (Some (js "false")));;
  Cards.focus_speak_button.

(** ** The gallery *)

(** Whether a gallery entry holds an image *)
Definition shows_image (item : Dom.node Collection.listener) : bool :=
  match Dom.elements_by_tag (js "img") item with
  | [] => false
  | _ :: _ => true
  end.

(** Whether a filter button has the active look *)
Definition active_filter (btn : filter_button) : bool :=
  ClassList.contains (filter_class btn) (js "filter-btn--active").
(* ===================================================================== *)
(** * Decimal digits *)
(* ===================================================================== *)

Lemma log2_tenth (n : N) : (10 <= n)%N -> (N.log2 (n / 10) < N.log2 n)%N.
Proof.
  intros H.
  assert (Hhalf : (n / 10 <= n / 2)%N).
  { zify. Z.to_euclidean_division_equations. lia. }
  assert (Hlog : (N.log2 (n / 2) < N.log2 n)%N).
  { rewrite <- N.div2_div, N.div2_spec, N.log2_shiftr.
    assert (0 < N.log2 n)%N by (apply N.log2_pos; lia). lia. }
  pose proof (N.log2_le_mono _ _ Hhalf). lia.
Qed.

(** The fuel of [of_N] is enough: the digits printed denote the number. *)
Lemma digits_fuel_value (fuel : nat) :
  forall (n : N) (acc : jsstring),
    (N.to_nat (N.log2 n) < fuel)%nat ->
    Json.decimal_value (JsString.digits_fuel fuel n acc) 0 = Json.decimal_value acc n.
Proof.
  induction fuel as [|fuel IH]; intros n acc Hf; [lia|].
  cbn [JsString.digits_fuel].
  destruct (N.ltb_spec n 10) as [Hlt|Hge].
  - cbn [Json.decimal_value]. f_equal. rewrite N.mod_small by exact Hlt. lia.
  - rewrite IH.
    + cbn [Json.decimal_value]. f_equal.
      zify. Z.to_euclidean_division_equations. lia.
    + pose proof (log2_tenth n Hge). lia.
Qed.

Lemma of_N_value (n : N) : Json.decimal_value (JsString.of_N n) 0 = n.
Proof. unfold JsString.of_N. rewrite digits_fuel_value by lia. reflexivity. Qed.

(* ===================================================================== *)
(** * Properties of the collection store *)
(* ===================================================================== *)

(** Unfolding of the computation combinators *)
Ltac run :=
  unfold mbind, M_bind, mret, M_ret, bind, ret, get, modify, lift, throw,
    try_catch, console_log, localStorage_getItem, localStorage_setItem in *;
  cbn [fst snd] in *.

Lemma same_value_zero_string (s t : jsstring) :
  JsSet.same_value_zero (Json.JStr s) (Json.JStr t) = bool_decide (s = t).
Proof. reflexivity. Qed.

Lemma has_app (c d : list Json.value) (v : Json.value) :
  JsSet.has (c ++ d) v = JsSet.has c v || JsSet.has d v.
Proof. unfold JsSet.has. apply existsb_app. Qed.

Lemma has_added (c : list Json.value) (s : jsstring) :
  JsSet.has (JsSet.add c (Json.JStr s)) (Json.JStr s) = true.
Proof.
  unfold JsSet.add. destruct (JsSet.has c (Json.JStr s)) eqn:E; [exact E|].
  rewrite has_app. apply orb_true_iff. right.
  unfold JsSet.has. cbn [existsb JsSet.normalize].
  rewrite same_value_zero_string, bool_decide_eq_true_2 by reflexivity.
  reflexivity.
Qed.

Lemma add_absent (c : list Json.value) (s : jsstring) :
  JsSet.has c (Json.JStr s) = false ->
  JsSet.add c (Json.JStr s) = c ++ [Json.JStr s].
Proof. intros E. unfold JsSet.add. rewrite E. reflexivity. Qed.

Lemma saveToStorage_eq (w : world) :
  Collection.saveToStorage w = (Normal tt, after_save w).
Proof.
  unfold Collection.saveToStorage, after_save. run.
  destruct (LocalStorage.setItem _ _ _) as [[[]|e] s]; reflexivity.
Qed.

Lemma after_save_collection (w : world) : collection (after_save w) = collection w.
Proof.
  unfold after_save.
  destruct (LocalStorage.setItem _ _ _) as [[[]|e] s]; reflexivity.
Qed.

Lemma setItem_written (s : LocalStorage.t) (k v : jsstring) :
  LocalStorage.written (LocalStorage.setItem s k v).2 = LocalStorage.written s ++ [(k, v)].
Proof.
  unfold LocalStorage.setItem.
  destruct (LocalStorage.denied s); [reflexivity|].
  destruct (_ <=? _)%N; reflexivity.
Qed.

Lemma after_save_written (w : world) :
  LocalStorage.written (storage (after_save w))
  = LocalStorage.written (storage w)
    ++ [(Collection.STORAGE_KEY, Json.stringify (Json.JArr (collection w)))].
Proof.
  unfold after_save.
  pose proof (setItem_written (storage w) Collection.STORAGE_KEY
                (Json.stringify (Json.JArr (collection w)))) as H.
  destruct (LocalStorage.setItem _ _ _) as [[[]|e] s]; exact H.
Qed.

Lemma after_progress_collection w : collection (after_progress w) = collection w.
Proof. unfold after_progress. destruct (progress_count w); reflexivity. Qed.

Lemma after_progress_storage w : storage (after_progress w) = storage w.
Proof. unfold after_progress. destruct (progress_count w); reflexivity. Qed.

Lemma after_celebration_collection w : collection (after_celebration w) = collection w.
Proof. unfold after_celebration. destruct (celebration_hidden w); reflexivity. Qed.

Lemma after_celebration_storage w : storage (after_celebration w) = storage w.
Proof. unfold after_celebration. destruct (celebration_hidden w); reflexivity. Qed.

(** [collect] as one equation: nothing at all happens for an id that is
    in the set; otherwise the id is added, the set saved, the counter
    updated and the celebration shown, in this order. *)
Lemma collect_eq (animalId : jsstring) (w : world) :
  Collection.collect animalId w =
    if Collection.isCollected w animalId then (Normal false, w)
    else (Normal true,
          after_celebration (after_progress (after_save
            (with_collection (JsSet.add (collection w) (Json.JStr animalId)) w)))).
Proof.
  unfold Collection.collect, Collection.isCollected. run.
  destruct (JsSet.has (collection w) (Json.JStr animalId)); [reflexivity|].
  rewrite saveToStorage_eq. reflexivity.
Qed.

Lemma collect_new (animalId : jsstring) (w : world) :
  Collection.isCollected w animalId = false ->
  exists w',
    Collection.collect animalId w = (Normal true, w')
    /\ collection w' = collection w ++ [Json.JStr animalId]
    /\ Collection.isCollected w' animalId = true
    /\ LocalStorage.written (storage w')
       = LocalStorage.written (storage w)
         ++ [(Collection.STORAGE_KEY, Json.stringify (Json.JArr (collection w')))].
Proof.
  intros E. rewrite collect_eq, E. eexists. split; [reflexivity|].
  unfold Collection.isCollected in *.
  rewrite after_celebration_collection, after_progress_collection, after_save_collection.
  rewrite after_celebration_storage, after_progress_storage, after_save_written.
  cbn [collection storage with_collection].
  split; [apply add_absent, E|]. split; [apply has_added|].
  reflexivity.
Qed.

Lemma collect_known (animalId : jsstring) (w : world) :
  Collection.isCollected w animalId = true ->
  Collection.collect animalId w = (Normal false, w).
Proof. intros E. rewrite collect_eq, E. reflexivity. Qed.

Lemma repeatedly_collect_known (animalId : jsstring) (n : nat) (w : world) :
  Collection.isCollected w animalId = true ->
  repeatedly (Collection.collect animalId) n w = (replicate n false, w).
Proof.
  intros E. induction n as [|n IH]; [reflexivity|].
  cbn [repeatedly]. rewrite collect_known by exact E. rewrite IH. reflexivity.
Qed.

(** C1: [collect(id)] returns true, adds the id and writes the set to
    storage exactly when the id was not in the set; for an id that is in
    the set it returns false and leaves the whole world as it was, the
    store and its log of writes included. So in a run of calls with one id
    only the first can return true (it does when the id is new), every
    later call returns false, and the world after the run is the world
    after the first call. *)
Theorem collect_once_per_id (animalId : jsstring) (w : world) :
  (Collection.isCollected w animalId = false ->
   exists w',
     Collection.collect animalId w = (Normal true, w')
     /\ collection w' = collection w ++ [Json.JStr animalId]
     /\ LocalStorage.written (storage w')
        = LocalStorage.written (storage w)
          ++ [(Collection.STORAGE_KEY, Json.stringify (Json.JArr (collection w')))])
  /\ (Collection.isCollected w animalId = true ->
      Collection.collect animalId w = (Normal false, w))
  /\ ((Collection.collect animalId w).1 = Normal true
      <-> Collection.isCollected w animalId = false)
  /\ (forall n : nat,
        repeatedly (Collection.collect animalId) (S n) w
        = (negb (Collection.isCollected w animalId) :: replicate n false,
           (Collection.collect animalId w).2))
  /\ (forall n : nat,
        Collection.isCollected w animalId = false ->
        (repeatedly (Collection.collect animalId) (S n) w).1 = true :: replicate n false
        /\ JsSet.size (collection (repeatedly (Collection.collect animalId) (S n) w).2)
           = S (JsSet.size (collection w))).
Proof.
  assert (Hrun : forall n : nat,
            repeatedly (Collection.collect animalId) (S n) w
            = (negb (Collection.isCollected w animalId) :: replicate n false,
               (Collection.collect animalId w).2)).
  { intros n. cbn [repeatedly].
    destruct (Collection.isCollected w animalId) eqn:E.
    - rewrite collect_known by exact E.
      rewrite repeatedly_collect_known by exact E. reflexivity.
    - destruct (collect_new animalId w E) as (w' & H1 & _ & H3 & _).
      rewrite H1. rewrite repeatedly_collect_known by exact H3. reflexivity. }
  split; [|split; [|split; [|split; [exact Hrun|]]]]; cycle 3.
  { intros n E. rewrite Hrun, E. cbn [fst snd negb]. split; [reflexivity|].
    destruct (collect_new animalId w E) as (w' & H1 & H2 & _).
    rewrite H1. cbn [snd]. rewrite H2. unfold JsSet.size.
    rewrite length_app. cbn [length]. lia. }
  - intros E. destruct (collect_new animalId w E) as (w' & H1 & H2 & _ & H4).
    exists w'. auto.
  - apply collect_known.
  - rewrite collect_eq. destruct (Collection.isCollected w animalId); cbn.
    + split; discriminate.
    + split; reflexivity.
Qed.

Lemma collect_once_per_id_witness :
  (exists w',
     Collection.collect (js "koala") empty_store_world = (Normal true, w')
     /\ collection w' = collection empty_store_world ++ [Json.JStr (js "koala")]
     /\ LocalStorage.written (storage w')
        = LocalStorage.written (storage empty_store_world)
          ++ [(Collection.STORAGE_KEY, Json.stringify (Json.JArr (collection w')))])
  /\ Collection.collect (js "0") (world_with_ids 2) = (Normal false, world_with_ids 2)
  /\ (repeatedly (Collection.collect (js "koala")) 4 empty_store_world).1
     = [true; false; false; false]
  /\ JsSet.size
       (collection (repeatedly (Collection.collect (js "koala")) 4 empty_store_world).2)
     = 1%nat.
Proof.
  destruct (collect_once_per_id (js "koala") empty_store_world)
    as (Hnew & _ & _ & _ & Hrun).
  destruct (collect_once_per_id (js "0") (world_with_ids 2)) as (_ & Hknown & _).
  split; [exact (Hnew eq_refl)|].
  split; [exact (Hknown eq_refl)|].
  exact (Hrun 3%nat eq_refl).
Defined.

(** ** Writes that fail *)

Lemma setItem_throw_items (s s' : LocalStorage.t) (k v : jsstring) (e : error) :
  LocalStorage.setItem s k v = (Throw e, s') ->
  LocalStorage.items s' = LocalStorage.items s.
Proof.
  unfold LocalStorage.setItem.
  destruct (LocalStorage.denied s).
  - intros [= _ <-]. reflexivity.
  - destruct (_ <=? _)%N; intros H; inversion H; subst; reflexivity.
Qed.

Lemma reset_eq (w : world) :
  Collection.reset w = (Normal tt, after_progress (after_save (with_collection [] w))).
Proof. unfold Collection.reset. run. rewrite saveToStorage_eq. reflexivity. Qed.

Lemma after_progress_console w : console (after_progress w) = console w.
Proof. unfold after_progress. destruct (progress_count w); reflexivity. Qed.

Lemma after_celebration_console w : console (after_celebration w) = console w.
Proof. unfold after_celebration. destruct (celebration_hidden w); reflexivity. Qed.

(** C9: when the write of a mutating operation throws, the throw is
    caught and logged and the mutation stays: after [collect] of a new id
    the id is in the set, after [reset] the set is empty; both return
    normally and the stored items are as before. *)
Theorem failed_write_keeps_mutation (animalId : jsstring) (w : world) :
  (forall (e : error) (s : LocalStorage.t),
     Collection.isCollected w animalId = false ->
     LocalStorage.setItem (storage w) Collection.STORAGE_KEY
       (Json.stringify (Json.JArr (collection w ++ [Json.JStr animalId]))) = (Throw e, s) ->
     exists w',
       Collection.collect animalId w = (Normal true, w')
       /\ collection w' = collection w ++ [Json.JStr animalId]
       /\ Collection.isCollected w' animalId = true
       /\ console w' = console w ++ [LogErrorSavingCollection e]
       /\ LocalStorage.items (storage w') = LocalStorage.items (storage w))
  /\ (forall (e : error) (s : LocalStorage.t),
        LocalStorage.setItem (storage w) Collection.STORAGE_KEY
          (Json.stringify (Json.JArr [])) = (Throw e, s) ->
        exists w',
          Collection.reset w = (Normal tt, w')
          /\ collection w' = []
          /\ console w' = console w ++ [LogErrorSavingCollection e]
          /\ LocalStorage.items (storage w') = LocalStorage.items (storage w)).
Proof.
  split.
  - intros e s E Hset. rewrite collect_eq, E. eexists. split; [reflexivity|].
    unfold Collection.isCollected in *.
    rewrite after_celebration_collection, after_progress_collection, after_save_collection.
    rewrite after_celebration_console, after_progress_console.
    rewrite after_celebration_storage, after_progress_storage.
    cbn [collection with_collection].
    rewrite add_absent by exact E.
    split; [reflexivity|]. split.
    { rewrite <- (add_absent _ _ E). apply has_added. }
    unfold after_save. cbn [collection storage with_collection]. rewrite Hset.
    split; [reflexivity|]. cbn. exact (setItem_throw_items _ _ _ _ _ Hset).
  - intros e s Hset. rewrite reset_eq. eexists. split; [reflexivity|].
    rewrite after_progress_collection, after_save_collection, after_progress_console,
      after_progress_storage.
    split; [reflexivity|].
    unfold after_save. cbn [collection storage with_collection]. rewrite Hset.
    split; [reflexivity|]. cbn. exact (setItem_throw_items _ _ _ _ _ Hset).
Qed.

Lemma failed_write_keeps_mutation_witness :
  (exists w',
     Collection.collect (js "koala") full_store_world = (Normal true, w')
     /\ collection w' = collection full_store_world ++ [Json.JStr (js "koala")]
     /\ Collection.isCollected w' (js "koala") = true
     /\ console w' = console full_store_world ++ [LogErrorSavingCollection QuotaExceededError]
     /\ LocalStorage.items (storage w') = LocalStorage.items (storage full_store_world))
  /\ (exists w',
        Collection.reset full_store_world = (Normal tt, w')
        /\ collection w' = []
        /\ console w' = console full_store_world ++ [LogErrorSavingCollection QuotaExceededError]
        /\ LocalStorage.items (storage w') = LocalStorage.items (storage full_store_world)).
Proof.
  split.
  - eapply (proj1 (failed_write_keeps_mutation (js "koala") full_store_world)).
    + reflexivity.
    + vm_compute. reflexivity.
  - eapply (proj2 (failed_write_keeps_mutation (js "koala") full_store_world)).
    vm_compute. reflexivity.
Defined.

(** ** Restoring the collection *)

Lemma loadFromStorage_eq (w : world) :
  Collection.loadFromStorage w = (Normal tt, after_load w).
Proof.
  unfold Collection.loadFromStorage, after_load, restored, JSON_parse. run.
  destruct (LocalStorage.getItem _ _) as [[[|c text]|]|e]; try reflexivity.
  cbn [Collection.truthy].
  destruct (Json.parse (c :: text)) as [v|]; [|reflexivity].
  unfold ret. destruct (JsSet.construct v); reflexivity.
Qed.

Lemma init_eq (w : world) :
  Collection.init w
  = (Normal tt,
     let w1 := after_progress (after_load w) in
     with_console (console w1 ++ [LogCollectionInitialized]) w1).
Proof. unfold Collection.init. run. rewrite loadFromStorage_eq. reflexivity. Qed.

Lemma parse_empty : Json.parse [] = None.
Proof. reflexivity. Qed.

(** C3, as the code has it: initialising never fails the caller, whatever
    the store holds or does. The restored set is empty when there is no
    stored value, when reading the store throws, when the text is not JSON
    and when it denotes null, a number, a boolean or an object; every throw
    on the way is logged. A text that denotes an array or a string is taken
    as it is, without validation: the set is the array's elements, or the
    string's code points. *)
Theorem init_restores_or_resets (s : LocalStorage.t) (net : list fetch_outcome)
    (p : option jsstring) (c : option bool) (m : option main_content) :
  exists w',
    Collection.init (boot s net p c m) = (Normal tt, w')
    /\ (LocalStorage.getItem s Collection.STORAGE_KEY = Normal None ->
        collection w' = [] /\ console w' = [LogCollectionInitialized])
    /\ (forall e : error,
          LocalStorage.getItem s Collection.STORAGE_KEY = Throw e ->
          collection w' = []
          /\ console w' = [LogErrorLoadingCollection e; LogCollectionInitialized])
    /\ (forall text : jsstring,
          LocalStorage.getItem s Collection.STORAGE_KEY = Normal (Some text) ->
          match Json.parse text with
          | None =>
              collection w' = []
              /\ (text <> [] ->
                  console w' = [LogErrorLoadingCollection SyntaxError; LogCollectionInitialized])
          | Some (Json.JArr elems) => collection w' = JsSet.of_list elems
          | Some (Json.JStr str) =>
              collection w' = JsSet.of_list (map Json.JStr (JsString.code_points str))
          | Some Json.JNull => collection w' = []
          | Some (Json.JBool _ | Json.JNum _ | Json.JObj _) =>
              collection w' = []
              /\ console w' = [LogErrorLoadingCollection TypeError; LogCollectionInitialized]
          end).
Proof.
  rewrite init_eq. eexists. split; [reflexivity|].
  cbn zeta. cbn [collection console with_console].
  rewrite after_progress_console, after_progress_collection.
  unfold after_load, restored. cbn [storage boot].
  split; [|split].
  - intros ->. split; reflexivity.
  - intros e ->. split; reflexivity.
  - intros text ->. destruct text as [|ch text].
    + rewrite parse_empty. split; [reflexivity|]. intros H. contradiction H. reflexivity.
    + destruct (Json.parse (ch :: text)) as [v|].
      * destruct v; cbn; try reflexivity; split; reflexivity.
      * cbn. split; [reflexivity|]. intros _. reflexivity.
Qed.

Lemma init_restores_or_resets_witness :
  exists w',
    Collection.init (world_storing (js "{oops")) = (Normal tt, w')
    /\ collection w' = []
    /\ console w' = [LogErrorLoadingCollection SyntaxError; LogCollectionInitialized].
Proof.
  destruct (init_restores_or_resets
              (storage_holding (Some (js "{oops")) false 5000000) []
              (Some (js "0")) (Some true) (Some MainPage))
    as (w' & Hrun & _ & _ & Htext).
  exists w'. split; [exact Hrun|].
  specialize (Htext (js "{oops") eq_refl).
  change (Json.parse (js "{oops")) with (@None Json.value) in Htext.
  destruct Htext as [Hc Hl]. split; [exact Hc|].
  apply Hl. discriminate.
Defined.

(** C3, refuted as stated: the text of a JSON string under the collection
    key is corrupted (it is no list of identifiers) and parses; the set
    restored from it holds the characters of the string and is not empty. *)
Lemma init_corrupted_not_empty :
  corrupted quoted_ab
  /\ collection (Collection.init (world_storing quoted_ab)).2
     = [Json.JStr (js "a"); Json.JStr (js "b")]
  /\ collection (Collection.init (world_storing quoted_ab)).2 <> [].
Proof.
  split; [|split].
  - intros [ids H]. vm_compute in H. destruct ids; discriminate.
  - vm_compute. reflexivity.
  - vm_compute. discriminate.
Qed.

(* ===================================================================== *)
(** * [JSON.parse] after [JSON.stringify], on arrays of strings *)
(* ===================================================================== *)

Section JsonRoundTrip.

Import Json.

Lemma hex_value_hex_digit (n : N) : (n < 16)%N -> hex_value (hex_digit n) = Some n.
Proof.
  intros H. destruct n as [|p]; [reflexivity|].
  repeat (destruct p as [p|p|]; try (exfalso; lia); try reflexivity).
Qed.

Lemma nibbles (c : N) :
  (c < 65536)%N ->
  (16 * (16 * (16 * (16 * 0 + c / 4096 mod 16) + c / 256 mod 16) + c / 16 mod 16)
   + c mod 16)%N = c.
Proof.
  intros H.
  change 4096%N with (16 * 16 * 16)%N. change 256%N with (16 * 16)%N.
  rewrite <- !N.Div0.div_div.
  zify. Z.to_euclidean_division_equations. lia.
Qed.

(** A step that completes no token *)
Lemma lex_from_step (st st' : lex_state) (c : N) (s : jsstring) :
  lex_step st c = Some (st', []) -> lex_from st (c :: s) = lex_from st' s.
Proof.
  intros H. cbn [lex_from]. rewrite H. destruct (lex_from st' s); reflexivity.
Qed.

Lemma lex_hex_digit (acc : jsstring) (n : nat) (v d : N) :
  (d < 16)%N ->
  lex_step (LUnicode acc n v) (hex_digit d)
  = if (n =? 3)%nat then Some (LString ((16 * v + d)%N :: acc), [])
    else Some (LUnicode acc (S n) (16 * v + d)%N, []).
Proof. intros H. cbn [lex_step]. rewrite hex_value_hex_digit by exact H. reflexivity. Qed.

Lemma lex_unicode_escape (acc : jsstring) (c : N) (tail : jsstring) :
  (c < 65536)%N ->
  lex_from (LString acc) (unicode_escape c ++ tail) = lex_from (LString (c :: acc)) tail.
Proof.
  intros H. unfold unicode_escape. cbn [app].
  rewrite (lex_from_step (LString acc) (LEscape acc)) by reflexivity.
  rewrite (lex_from_step (LEscape acc) (LUnicode acc 0 0%N)) by reflexivity.
  assert (Hd : forall x : N, (x mod 16 < 16)%N) by (intros x; apply N.mod_lt; discriminate).
  erewrite lex_from_step by (rewrite lex_hex_digit by apply Hd; reflexivity).
  erewrite lex_from_step by (rewrite lex_hex_digit by apply Hd; reflexivity).
  erewrite lex_from_step by (rewrite lex_hex_digit by apply Hd; reflexivity).
  erewrite lex_from_step by (rewrite lex_hex_digit by apply Hd; reflexivity).
  rewrite nibbles by exact H. reflexivity.
Qed.

(** A code unit kept as it is inside a string *)
Lemma lex_verbatim (acc : jsstring) (c : N) (tail : jsstring) :
  c <> 34%N -> c <> 92%N -> (32 <= c)%N ->
  lex_from (LString acc) (c :: tail) = lex_from (LString (c :: acc)) tail.
Proof.
  intros H1 H2 H3. apply lex_from_step. cbn [lex_step].
  destruct (N.eqb_spec c 34); [contradiction|].
  destruct (N.eqb_spec c 92); [contradiction|].
  destruct (N.ltb_spec c 32); [lia|]. reflexivity.
Qed.

Lemma surrogate_range (c : N) :
  JsString.is_surrogate c = true -> (55296 <= c <= 57343)%N.
Proof.
  unfold JsString.is_surrogate. intros H. apply andb_true_iff in H.
  destruct H as [H1%N.leb_le H2%N.leb_le]. lia.
Qed.

Lemma lex_quote_unit (acc : jsstring) (c : N) (tail : jsstring) :
  lex_from (LString acc) (quote_unit c ++ tail) = lex_from (LString (c :: acc)) tail.
Proof.
  unfold quote_unit.
  destruct (N.eqb_spec c 8) as [->|H8];
    [cbn [app]; do 2 (erewrite lex_from_step by reflexivity); reflexivity|].
  destruct (N.eqb_spec c 9) as [->|H9];
    [cbn [app]; do 2 (erewrite lex_from_step by reflexivity); reflexivity|].
  destruct (N.eqb_spec c 10) as [->|H10];
    [cbn [app]; do 2 (erewrite lex_from_step by reflexivity); reflexivity|].
  destruct (N.eqb_spec c 12) as [->|H12];
    [cbn [app]; do 2 (erewrite lex_from_step by reflexivity); reflexivity|].
  destruct (N.eqb_spec c 13) as [->|H13];
    [cbn [app]; do 2 (erewrite lex_from_step by reflexivity); reflexivity|].
  destruct (N.eqb_spec c 34) as [->|H34];
    [cbn [app]; do 2 (erewrite lex_from_step by reflexivity); reflexivity|].
  destruct (N.eqb_spec c 92) as [->|H92];
    [cbn [app]; do 2 (erewrite lex_from_step by reflexivity); reflexivity|].
  destruct (N.ltb_spec c 32) as [Hlt|Hge].
  - cbn [orb]. apply lex_unicode_escape. lia.
  - cbn [orb]. destruct (JsString.is_surrogate c) eqn:Hs.
    + apply lex_unicode_escape. apply surrogate_range in Hs. lia.
    + cbn [app]. apply lex_verbatim; assumption.
Qed.

Lemma lex_close_string (acc tail : jsstring) :
  lex_from (LString acc) (34%N :: tail)
  = match lex_from LDefault tail with
    | Some ts => Some (TString (rev acc) :: ts)
    | None => None
    end.
Proof. reflexivity. Qed.

Lemma quote_body_cons (c d : N) (rest : jsstring) :
  quote_body (c :: d :: rest)
  = if JsString.is_high_surrogate c && JsString.is_low_surrogate d
    then c :: d :: quote_body rest
    else quote_unit c ++ quote_body (d :: rest).
Proof. reflexivity. Qed.

Lemma lex_quote_body (n : nat) :
  forall s : jsstring, (length s <= n)%nat ->
  forall acc tail : jsstring,
    lex_from (LString acc) (quote_body s ++ 34%N :: tail)
    = match lex_from LDefault tail with
      | Some ts => Some (TString (rev acc ++ s) :: ts)
      | None => None
      end.
Proof.
  induction n as [|n IH]; intros s Hlen acc tail.
  - destruct s; [|cbn in Hlen; lia].
    cbn [quote_body app]. rewrite lex_close_string, app_nil_r. reflexivity.
  - destruct s as [|c [|d rest]].
    + cbn [quote_body app]. rewrite lex_close_string, app_nil_r. reflexivity.
    + cbn [quote_body]. rewrite lex_quote_unit, lex_close_string. reflexivity.
    + rewrite quote_body_cons.
      destruct (JsString.is_high_surrogate c && JsString.is_low_surrogate d) eqn:Hp.
      * apply andb_true_iff in Hp. destruct Hp as [Hc Hd].
        unfold JsString.is_high_surrogate in Hc. unfold JsString.is_low_surrogate in Hd.
        apply andb_true_iff in Hc, Hd.
        destruct Hc as [Hc1%N.leb_le Hc2%N.leb_le].
        destruct Hd as [Hd1%N.leb_le Hd2%N.leb_le].
        cbn [app]. rewrite lex_verbatim by lia. rewrite lex_verbatim by lia.
        rewrite IH by (cbn in Hlen; lia).
        cbn [rev]. rewrite <- !app_assoc. reflexivity.
      * rewrite <- app_assoc, lex_quote_unit.
        rewrite IH by (cbn [length] in *; lia).
        cbn [rev]. rewrite <- app_assoc. reflexivity.
Qed.

Lemma lex_quote (s tail : jsstring) :
  lex_from LDefault (quote s ++ tail)
  = match lex_from LDefault tail with
    | Some ts => Some (TString s :: ts)
    | None => None
    end.
Proof.
  unfold quote. rewrite <- !app_assoc. cbn [app].
  rewrite (lex_from_step LDefault (LString [])) by reflexivity.
  apply (lex_quote_body (length s) s (le_n _) [] tail).
Qed.

Lemma lex_strings (ids : list jsstring) (tail : jsstring) :
  lex_from LDefault (JsString.join [44%N] (map quote ids) ++ tail)
  = match lex_from LDefault tail with
    | Some ts => Some (string_tokens ids ++ ts)
    | None => None
    end.
Proof.
  induction ids as [|a [|b rest] IH].
  - cbn. destruct (lex_from LDefault tail); reflexivity.
  - cbn [map JsString.join string_tokens]. rewrite lex_quote.
    destruct (lex_from LDefault tail); reflexivity.
  - change (JsString.join [44%N] (map quote (a :: b :: rest)))
      with (quote a ++ [44%N] ++ JsString.join [44%N] (map quote (b :: rest))).
    rewrite <- !app_assoc. rewrite lex_quote. cbn [app].
    change (lex_from LDefault (44%N :: ?x))
      with (match lex_from LDefault x with
            | Some r => Some ([TComma] ++ r)
            | None => None
            end).
    rewrite IH. destruct (lex_from LDefault tail); reflexivity.
Qed.

Lemma stringify_strings (ids : list jsstring) :
  stringify (JArr (map JStr ids))
  = [91%N] ++ JsString.join [44%N] (map quote ids) ++ [93%N].
Proof. cbn [stringify]. rewrite map_map. reflexivity. Qed.

Lemma lex_stringify_strings (ids : list jsstring) :
  lex (stringify (JArr (map JStr ids)))
  = Some (TLBracket :: string_tokens ids ++ [TRBracket]).
Proof.
  rewrite stringify_strings. unfold lex. cbn [app].
  change (lex_from LDefault (91%N :: ?x))
    with (match lex_from LDefault x with
          | Some r => Some ([TLBracket] ++ r)
          | None => None
          end).
  rewrite lex_strings. reflexivity.
Qed.

Lemma parse_strings (ids : list jsstring) :
  forall (a : jsstring) (acc : list value) (stack : list frame) (rest : list token),
    parse_from (PValue (FArr acc :: stack)) (string_tokens (a :: ids) ++ TRBracket :: rest)
    = parse_from (reduce (JArr (rev acc ++ map JStr (a :: ids))) stack) rest.
Proof.
  induction ids as [|b ids IH]; intros a acc stack rest.
  - reflexivity.
  - change (string_tokens (a :: b :: ids))
      with (TString a :: TComma :: string_tokens (b :: ids)).
    cbn [app parse_from parse_step parse_value_token reduce].
    rewrite IH. cbn [rev map]. rewrite <- app_assoc. reflexivity.
Qed.

(** [JSON.parse] gives back the array of strings [JSON.stringify] printed. *)
Lemma parse_stringify_strings (ids : list jsstring) :
  parse (stringify (JArr (map JStr ids))) = Some (JArr (map JStr ids)).
Proof.
  unfold parse. rewrite lex_stringify_strings.
  destruct ids as [|a ids]; [reflexivity|].
  cbn [app parse_from parse_step parse_value_token].
  change (parse_from (PArrStart []) ((string_tokens (a :: ids) ++ [TRBracket])))
    with (parse_from (PArrStart []) (string_tokens (a :: ids) ++ [TRBracket])).
  assert (H : forall ts, parse_from (PArrStart []) (string_tokens (a :: ids) ++ ts)
                         = parse_from (PValue [FArr []]) (string_tokens (a :: ids) ++ ts)).
  { intros ts. destruct ids; reflexivity. }
  rewrite H, parse_strings. reflexivity.
Qed.

End JsonRoundTrip.

(* ===================================================================== *)
(** * Saving and restoring the collection *)
(* ===================================================================== *)

Lemma has_strings (pre : list jsstring) (a : jsstring) :
  JsSet.has (map Json.JStr pre) (Json.JStr a) = bool_decide (a ∈ pre).
Proof.
  induction pre as [|b pre IH].
  - cbn. rewrite bool_decide_eq_false_2; [reflexivity|]. apply not_elem_of_nil.
  - cbn [map]. unfold JsSet.has in *. cbn [existsb]. rewrite IH, same_value_zero_string.
    destruct (decide (a = b)) as [->|Hne].
    + rewrite (bool_decide_eq_true_2 (b = b)) by reflexivity. cbn [orb].
      symmetry. apply bool_decide_eq_true_2. apply elem_of_cons. auto.
    + rewrite (bool_decide_eq_false_2 (a = b)) by exact Hne. cbn [orb].
      apply bool_decide_ext. rewrite elem_of_cons. tauto.
Qed.

(** A list of distinct strings is the [Set] built from it. *)
Lemma of_list_strings (ids : list jsstring) :
  forall pre : list jsstring,
    NoDup (pre ++ ids) ->
    fold_left JsSet.add (map Json.JStr ids) (map Json.JStr pre)
    = map Json.JStr (pre ++ ids).
Proof.
  induction ids as [|a ids IH]; intros pre Hnd.
  - rewrite app_nil_r. reflexivity.
  - cbn [map fold_left]. unfold JsSet.add at 2. rewrite has_strings.
    assert (Ha : a ∉ pre).
    { apply NoDup_app in Hnd. destruct Hnd as (_ & Hd & _).
      intros Hin. apply (Hd a Hin). apply elem_of_cons. auto. }
    rewrite bool_decide_eq_false_2 by exact Ha.
    cbn [JsSet.normalize].
    change [Json.JStr a] with (map Json.JStr [a]). rewrite <- map_app.
    rewrite IH.
    + rewrite <- app_assoc. reflexivity.
    + rewrite <- app_assoc. exact Hnd.
Qed.

Lemma construct_strings (ids : list jsstring) :
  NoDup ids ->
  JsSet.construct (Json.JArr (map Json.JStr ids)) = Normal (map Json.JStr ids).
Proof.
  intros Hnd. cbn [JsSet.construct]. unfold JsSet.of_list.
  exact (f_equal Normal (of_list_strings ids [] Hnd)).
Qed.

Lemma setItem_normal (s s' : LocalStorage.t) (k v : jsstring) :
  LocalStorage.setItem s k v = (Normal tt, s') ->
  LocalStorage.denied s' = false /\ LocalStorage.items s' !! k = Some v.
Proof.
  unfold LocalStorage.setItem.
  destruct (LocalStorage.denied s) eqn:Hd; [discriminate|].
  destruct (_ <=? _)%N; [|discriminate].
  intros H. inversion H; subst. cbn. split; [reflexivity|]. apply lookup_insert_eq.
Qed.

(** C4: a set of string ids, saved by a write that succeeds and restored
    by a fresh start over the same store, comes back as the same set: the
    same ids, each once, and in the same order. *)
Theorem save_then_restore (ids : list jsstring) (w : world)
    (net : list fetch_outcome) (p : option jsstring) (c : option bool)
    (m : option main_content) :
  NoDup ids ->
  collection w = map Json.JStr ids ->
  (LocalStorage.setItem (storage w) Collection.STORAGE_KEY
     (Json.stringify (Json.JArr (collection w)))).1 = Normal tt ->
  exists w1 w2,
    Collection.saveToStorage w = (Normal tt, w1)
    /\ LocalStorage.items (storage w1) !! Collection.STORAGE_KEY
       = Some (Json.stringify (Json.JArr (map Json.JStr ids)))
    /\ Collection.init (boot (storage w1) net p c m) = (Normal tt, w2)
    /\ collection w2 = collection w
    /\ (forall animalId : jsstring,
          Collection.isCollected w2 animalId = Collection.isCollected w animalId).
Proof.
  intros Hnd Hc Hset.
  assert (Hsave : exists s1,
            after_save w = with_storage s1 w
            /\ LocalStorage.denied s1 = false
            /\ LocalStorage.items s1 !! Collection.STORAGE_KEY
               = Some (Json.stringify (Json.JArr (map Json.JStr ids)))).
  { unfold after_save.
    destruct (LocalStorage.setItem _ _ _) as [[[]|e] s1] eqn:Hs; [|discriminate].
    apply setItem_normal in Hs. destruct Hs as [Hden Hlook].
    exists s1. rewrite Hc in Hlook. auto. }
  destruct Hsave as (s1 & Hw1 & Hden & Hlook).
  assert (Hload : collection (after_load (boot s1 net p c m)) = collection w).
  { unfold after_load, LocalStorage.getItem. cbn [storage boot].
    rewrite Hden, Hlook.
    destruct (Json.stringify (Json.JArr (map Json.JStr ids))) as [|ch text] eqn:Htext.
    - rewrite stringify_strings in Htext. discriminate Htext.
    - rewrite <- Htext. unfold restored.
      rewrite parse_stringify_strings, construct_strings by exact Hnd.
      rewrite Hc. reflexivity. }
  exists (after_save w).
  eexists. split; [apply saveToStorage_eq|].
  rewrite Hw1. cbn [storage with_storage].
  split; [exact Hlook|]. split; [apply init_eq|].
  cbn zeta. cbn [collection with_console]. rewrite after_progress_collection.
  split; [exact Hload|].
  intros animalId. unfold Collection.isCollected.
  cbn [collection with_console]. rewrite after_progress_collection, Hload. reflexivity.
Qed.

Lemma save_then_restore_witness :
  exists w1 w2,
    Collection.saveToStorage
      (with_collection (map Json.JStr [js "koala"; js "emu"]) empty_store_world)
    = (Normal tt, w1)
    /\ LocalStorage.items (storage w1) !! Collection.STORAGE_KEY
       = Some (Json.stringify (Json.JArr (map Json.JStr [js "koala"; js "emu"])))
    /\ Collection.init (boot (storage w1) [] None None None) = (Normal tt, w2)
    /\ collection w2 = map Json.JStr [js "koala"; js "emu"]
    /\ (forall animalId : jsstring,
          Collection.isCollected w2 animalId
          = Collection.isCollected
              (with_collection (map Json.JStr [js "koala"; js "emu"]) empty_store_world)
              animalId).
Proof.
  apply (save_then_restore [js "koala"; js "emu"]
           (with_collection (map Json.JStr [js "koala"; js "emu"]) empty_store_world)
           [] None None None).
  - apply (bool_decide_unpack _). vm_compute. exact I.
  - reflexivity.
  - vm_compute. reflexivity.
Defined.

(* ===================================================================== *)
(** * Doubles: the Number of a positive integer is never zero or NaN *)
(* ===================================================================== *)

Section Rounding.

Lemma shr_1_div2 (mrs : shr_record) :
  0 <= shr_m mrs -> shr_m (shr_1 mrs) = shr_m mrs / 2.
Proof.
  destruct mrs as [m r s]. cbn [shr_m]. intros H.
  destruct m as [|[p|p|]|p]; cbn [shr_1 shr_m].
  - reflexivity.
  - rewrite (Pos2Z.inj_xI p). Z.to_euclidean_division_equations. lia.
  - rewrite (Pos2Z.inj_xO p). Z.to_euclidean_division_equations. lia.
  - reflexivity.
  - lia.
Qed.

Lemma pow2_xO (p : positive) : 2 ^ Z.pos p~0 = 2 ^ Z.pos p * 2 ^ Z.pos p.
Proof.
  rewrite (Pos2Z.inj_xO p).
  replace (2 * Z.pos p) with (Z.pos p + Z.pos p) by lia.
  apply Z.pow_add_r; lia.
Qed.

Lemma pow2_xI (p : positive) : 2 ^ Z.pos p~1 = 2 * (2 ^ Z.pos p * 2 ^ Z.pos p).
Proof.
  rewrite (Pos2Z.inj_xI p).
  replace (2 * Z.pos p + 1) with (1 + Z.pos p~0) by lia.
  rewrite (Z.pow_add_r 2 1 (Z.pos p~0)) by lia.
  rewrite pow2_xO. reflexivity.
Qed.

Lemma shr_iter_div (p : positive) :
  forall mrs : shr_record,
    0 <= shr_m mrs ->
    shr_m (SpecFloat.iter_pos shr_1 p mrs) = shr_m mrs / 2 ^ Z.pos p.
Proof.
  induction p as [p IH|p IH|]; intros mrs H.
  - cbn [SpecFloat.iter_pos].
    assert (H1 : 0 <= shr_m (shr_1 mrs)).
    { rewrite shr_1_div2 by exact H. apply Z.div_pos; lia. }
    assert (H2 : 0 <= shr_m (SpecFloat.iter_pos shr_1 p (shr_1 mrs))).
    { rewrite IH by exact H1. apply Z.div_pos; lia. }
    rewrite IH by exact H2. rewrite IH by exact H1. rewrite shr_1_div2 by exact H.
    rewrite !Z.div_div by lia.
    rewrite pow2_xI. reflexivity.
  - cbn [SpecFloat.iter_pos].
    assert (H2 : 0 <= shr_m (SpecFloat.iter_pos shr_1 p mrs)).
    { rewrite IH by exact H. apply Z.div_pos; lia. }
    rewrite IH by exact H2. rewrite IH by exact H.
    rewrite !Z.div_div by lia.
    rewrite pow2_xO. reflexivity.
  - cbn [SpecFloat.iter_pos]. rewrite shr_1_div2 by exact H. reflexivity.
Qed.

Lemma digits2_pos_lower (m : positive) :
  2 ^ (Z.pos (digits2_pos m) - 1) <= Z.pos m.
Proof.
  induction m as [m IH|m IH|]; cbn [digits2_pos].
  - rewrite Pos2Z.inj_succ, (Pos2Z.inj_xI m).
    replace (Z.succ (Z.pos (digits2_pos m)) - 1)
      with (1 + (Z.pos (digits2_pos m) - 1)) by lia.
    rewrite Z.pow_add_r by lia. lia.
  - rewrite Pos2Z.inj_succ, (Pos2Z.inj_xO m).
    replace (Z.succ (Z.pos (digits2_pos m)) - 1)
      with (1 + (Z.pos (digits2_pos m) - 1)) by lia.
    rewrite Z.pow_add_r by lia. lia.
  - reflexivity.
Qed.

(** The shift that brings a mantissa to its format never empties it. *)
Lemma shr_fexp_positive (m : positive) (e : Z) (l : location) :
  JsNumber.emin <= e ->
  0 < shr_m (shr_fexp JsNumber.prec JsNumber.emax (Z.pos m) e l).1
  /\ JsNumber.emin <= (shr_fexp JsNumber.prec JsNumber.emax (Z.pos m) e l).2.
Proof.
  intros He. unfold shr_fexp, shr.
  assert (Hrec : shr_m (shr_record_of_loc (Z.pos m) l) = Z.pos m).
  { destruct l as [|[]]; reflexivity. }
  set (n := SpecFloat.fexp JsNumber.prec JsNumber.emax (Zdigits2 (Z.pos m) + e) - e).
  assert (Hn : n <= Z.pos (digits2_pos m) - 1).
  { subst n. cbn [Zdigits2].
    unfold SpecFloat.fexp, JsNumber.emin, SpecFloat.emin, JsNumber.prec, JsNumber.emax in *.
    lia. }
  destruct n as [|p|p] eqn:En; cbn [fst snd].
  - rewrite Hrec. lia.
  - rewrite shr_iter_div by (rewrite Hrec; lia). rewrite Hrec. split; [|lia].
    apply Z.div_str_pos. split; [apply Z.pow_pos_nonneg; lia|].
    pose proof (digits2_pos_lower m) as Hlow.
    assert (2 ^ Z.pos p <= 2 ^ (Z.pos (digits2_pos m) - 1))
      by (apply Z.pow_le_mono_r; lia).
    lia.
  - rewrite Hrec. lia.
Qed.

Lemma round_nearest_even_positive (m : Z) (l : location) :
  0 < m -> 0 < round_nearest_even m l.
Proof.
  intros H. destruct l as [|[]]; cbn [round_nearest_even]; try lia.
  destruct (Z.even m); lia.
Qed.

(** Rounding a positive mantissa gives a finite non-zero double or an
    infinity, of the given sign. *)
Lemma binary_round_aux_positive (s : bool) (m : positive) (e : Z) (l : location) :
  JsNumber.emin <= e ->
  (exists m' e', binary_round_aux JsNumber.prec JsNumber.emax s (Z.pos m) e l
                 = S754_finite s m' e')
  \/ binary_round_aux JsNumber.prec JsNumber.emax s (Z.pos m) e l = S754_infinity s.
Proof.
  intros He. unfold binary_round_aux.
  pose proof (shr_fexp_positive m e l He) as [H1 H1e].
  destruct (shr_fexp JsNumber.prec JsNumber.emax (Z.pos m) e l) as [mrs' e'].
  cbn [fst snd] in H1, H1e.
  pose proof (round_nearest_even_positive (shr_m mrs') (loc_of_shr_record mrs') H1) as H2.
  destruct (round_nearest_even (shr_m mrs') (loc_of_shr_record mrs')) as [|m1|m1];
    try lia.
  pose proof (shr_fexp_positive m1 e' loc_Exact H1e) as [H3 _].
  destruct (shr_fexp JsNumber.prec JsNumber.emax (Z.pos m1) e' loc_Exact) as [mrs'' e''].
  cbn [fst snd] in H3.
  destruct (shr_m mrs'') as [|m2|m2]; try lia.
  destruct (e'' <=? JsNumber.emax - JsNumber.prec); [left; eauto | right; reflexivity].
Qed.

Lemma of_Z_positive (p : positive) :
  (exists m e, JsNumber.of_Z (Z.pos p) = S754_finite false m e)
  \/ JsNumber.of_Z (Z.pos p) = S754_infinity false.
Proof.
  unfold JsNumber.of_Z, binary_normalize, binary_round, shl_align.
  set (ex' := SpecFloat.fexp JsNumber.prec JsNumber.emax (Z.pos (digits2_pos p) + 0)).
  assert (Hex : JsNumber.emin <= ex').
  { subst ex'. unfold SpecFloat.fexp, JsNumber.emin. lia. }
  destruct (ex' - 0) eqn:Hd; apply binary_round_aux_positive;
    unfold JsNumber.emin, SpecFloat.emin, JsNumber.prec, JsNumber.emax in *; lia.
Qed.

Lemma of_nat_positive (n : nat) :
  (exists m e, JsNumber.of_nat (S n) = S754_finite false m e)
  \/ JsNumber.of_nat (S n) = S754_infinity false.
Proof.
  unfold JsNumber.of_nat. rewrite Nat2Z.inj_succ.
  destruct (Z.succ (Z.of_nat n)) as [|p|p] eqn:E; try lia.
  apply of_Z_positive.
Qed.

End Rounding.


(* ===================================================================== *)
(** * The progress summary *)
(* ===================================================================== *)

Lemma world_with_ids_size (n : nat) : JsSet.size (collection (world_with_ids n)) = n.
Proof.
  unfold world_with_ids, JsSet.size. cbn [collection with_collection].
  rewrite length_map, length_seq. reflexivity.
Qed.

(** C2, refuted as stated: with 23 ids of 40 the percentage is 57 although
    100 * 23 / 40 is 57.5 and rounds to 58 (the quotient 23 / 40 is rounded
    to a double before it is multiplied by 100); and with 202 ids of 201
    the percentage is 100, not above. *)
Lemma getProgress_not_exact_round :
  Collection.percentage (Collection.getProgress (world_with_ids 23) (Some (JsNumber.of_Z 40)))
  = JsNumber.of_Z 57
  /\ round_half_up (100 * 23) 40 = 58
  /\ ~ progress_as_stated (world_with_ids 23) 40
  /\ Collection.percentage
       (Collection.getProgress (world_with_ids 202) (Some (JsNumber.of_Z 201)))
     = JsNumber.of_Z 100
  /\ ~ progress_as_stated (world_with_ids 202) 201.
Proof.
  split; [vm_compute; reflexivity|].
  split; [reflexivity|].
  split.
  { intros (_ & _ & H & _). vm_compute in H. discriminate H. }
  split; [vm_compute; reflexivity|].
  intros (_ & _ & _ & H).
  assert (Hlt : (201 < JsSet.size (collection (world_with_ids 202)))%nat)
    by (rewrite world_with_ids_size; lia).
  specialize (H Hlt). vm_compute in H. discriminate H.
Qed.

Lemma percentages_exact_below_40 :
  forallb (fun t => forallb (percentage_exact t) (seq 0 51)) (seq 1 39) = true.
Proof. vm_compute. reflexivity. Qed.

Lemma forallb_seq (f : nat -> bool) (start len : nat) :
  forallb f (seq start len) = true ->
  forall n : nat, (start <= n < start + len)%nat -> f n = true.
Proof.
  intros H n Hn. rewrite forallb_forall in H. apply H. apply in_seq. exact Hn.
Qed.

Lemma percentage_exact_in_range (total count : nat) :
  (1 <= total <= 39)%nat -> (count <= 50)%nat -> percentage_exact total count = true.
Proof.
  intros Ht Hc.
  apply (forallb_seq (percentage_exact total) 0 51); [|lia].
  apply (forallb_seq (fun t => forallb (percentage_exact t) (seq 0 51)) 1 39); [|lia].
  exact percentages_exact_below_40.
Qed.

(** C2, as the code has it: the summary holds the size of the set, the
    total supplied (20 when none is) and, as percentage, [Math.round] of
    the double [(size / total) * 100], each operation rounding to a double.
    For a whole total from 1 to 39 and up to 50 collected ids this is the
    exact rounding of 100 * size / total, and it is above 100 when the size
    is above the total. *)
Theorem getProgress_summary (w : world) (total : option jsnumber) :
  let t := match total with Some t => t | None => JsNumber.of_Z 20 end in
  let count := JsSet.size (collection w) in
  Collection.collected (Collection.getProgress w total) = JsNumber.of_nat count
  /\ Collection.total (Collection.getProgress w total) = t
  /\ Collection.percentage (Collection.getProgress w total)
     = JsNumber.round
         (JsNumber.mul (JsNumber.div (JsNumber.of_nat count) t) (JsNumber.of_Z 100))
  /\ (forall n : nat,
        (1 <= n <= 39)%nat -> (count <= 50)%nat ->
        total = Some (JsNumber.of_nat n) ->
        Collection.percentage (Collection.getProgress w total)
        = JsNumber.of_Z (round_half_up (100 * Z.of_nat count) (Z.of_nat n))
        /\ ((n < count)%nat ->
            SFltb (JsNumber.of_Z 100)
              (Collection.percentage (Collection.getProgress w total)) = true)).
Proof.
  cbn zeta. split; [reflexivity|]. split; [reflexivity|]. split; [reflexivity|].
  intros n Hn Hc ->.
  pose proof (percentage_exact_in_range n _ Hn Hc) as H.
  unfold percentage_exact in H. apply andb_true_iff in H. destruct H as [H1 H2].
  apply bool_decide_eq_true in H1.
  unfold Collection.getProgress. cbn [Collection.percentage].
  fold (percentage_of (JsSet.size (collection w)) n).
  split; [exact H1|].
  intros Hlt. apply orb_true_iff in H2. destruct H2 as [H2|H2]; [|exact H2].
  apply Nat.leb_le in H2. lia.
Qed.

Lemma getProgress_summary_witness :
  Collection.percentage
    (Collection.getProgress (world_with_ids 2) (Some (JsNumber.of_nat 3)))
  = JsNumber.of_Z 67
  /\ SFltb (JsNumber.of_Z 100)
       (Collection.percentage
          (Collection.getProgress (world_with_ids 4) (Some (JsNumber.of_nat 3)))) = true.
Proof.
  split.
  - apply (proj2 (proj2 (proj2
             (getProgress_summary (world_with_ids 2) (Some (JsNumber.of_nat 3)))))
             3%nat); [lia | vm_compute; lia | reflexivity].
  - apply (proj2 (proj2 (proj2
             (getProgress_summary (world_with_ids 4) (Some (JsNumber.of_nat 3)))))
             3%nat); [lia | vm_compute; lia | reflexivity | vm_compute; lia].
Defined.

(* ===================================================================== *)
(** * The catalog loader and the start-up sequence *)
(* ===================================================================== *)

Lemma fetch_eq (w : world) :
  AnimalData.fetch AnimalData.CATALOG_URL w = (Normal (next_outcome w), after_fetch w).
Proof.
  unfold AnimalData.fetch, next_outcome, after_fetch.
  destruct (network w); reflexivity.
Qed.

Lemma loadAnimals_cached (w : world) :
  loaded w = true -> AnimalData.loadAnimals w = (Normal (animals w), w).
Proof. intros H. unfold AnimalData.loadAnimals. run. rewrite H. reflexivity. Qed.

Lemma loadAnimals_failure (w : world) (e : error) :
  loaded w = false ->
  load_error (next_outcome w) = Some e ->
  AnimalData.loadAnimals w
  = (Normal (Json.JArr []),
     with_console (console (after_fetch w) ++ [LogErrorLoadingAnimalData e]) (after_fetch w)).
Proof.
  intros Hl He. unfold AnimalData.loadAnimals. run. rewrite Hl, fetch_eq.
  unfold load_error in He.
  destruct (next_outcome w) as [|[] status body].
  - injection He as <-. reflexivity.
  - unfold JSON_parse. cbn [negb].
    destruct (Json.parse body); [discriminate|]. injection He as <-. reflexivity.
  - injection He as <-. reflexivity.
Qed.

Lemma loadAnimals_success (w : world) (status : N) (body : jsstring) (v : Json.value) :
  loaded w = false ->
  next_outcome w = Response true status body ->
  Json.parse body = Some v ->
  v <> Json.JNull ->
  AnimalData.loadAnimals w
  = (Normal v,
     let w1 := with_loaded true (with_animals v (after_fetch w)) in
     with_console (console w1 ++ [LogLoadedAnimals]) w1).
Proof.
  intros Hl Ho Hp Hv. unfold AnimalData.loadAnimals. run. rewrite Hl, fetch_eq, Ho.
  cbn [negb]. unfold JSON_parse. rewrite Hp. unfold ret, AnimalData.read_length.
  destruct v; try reflexivity. contradiction Hv. reflexivity.
Qed.

Lemma repeatedly_cached (n : nat) (w : world) :
  loaded w = true ->
  repeatedly AnimalData.loadAnimals n w = (replicate n (animals w), w).
Proof.
  intros H. induction n as [|n IH]; [reflexivity|].
  cbn [repeatedly]. rewrite loadAnimals_cached by exact H. rewrite IH. reflexivity.
Qed.




(** ** Start-up *)

Lemma showError_eq (message : jsstring) (w : world) :
  App.showError message w
  = (Normal tt,
     match main w with
     | Some _ => with_main (Some (MainErrorMessage message)) w
     | None => w
     end).
Proof. reflexivity. Qed.

(** Whatever the collaborators, the store and the network do, [init]
    completes: every throw inside is caught. *)
Lemma App_init_completes (env : App.collaborators) (w : world) :
  exists w', App.init env w = (Normal tt, w').
Proof.
  unfold App.init, try_catch.
  match goal with |- context [match ?body w with _ => _ end] => destruct (body w) as [[[]|e] w1] end.
  - eexists. reflexivity.
  - eexists. reflexivity.
Qed.

Lemma after_load_frame (w : world) :
  loaded (after_load w) = loaded w
  /\ network (after_load w) = network w
  /\ requests (after_load w) = requests w
  /\ main (after_load w) = main w
  /\ progress_count (after_load w) = progress_count w.
Proof.
  unfold after_load.
  destruct (LocalStorage.getItem _ _) as [[[|c text]|]|e]; try (repeat split; reflexivity).
  destruct (restored (c :: text)); repeat split; reflexivity.
Qed.

Lemma Collection_init_frame (w : world) :
  exists w1,
    Collection.init w = (Normal tt, w1)
    /\ loaded w1 = loaded w
    /\ network w1 = network w
    /\ requests w1 = requests w
    /\ main w1 = main w.
Proof.
  rewrite init_eq. eexists. split; [reflexivity|]. cbn zeta.
  destruct (after_load_frame w) as (H1 & H2 & H3 & H4 & H5).
  unfold after_progress. rewrite H5.
  destruct (progress_count w); cbn; auto.
Qed.

(** C5, refuted as stated: with the source unreachable, or its body not
    JSON, the load does not fail: it completes with an empty array. *)
Lemma loadAnimals_does_not_fail :
  (AnimalData.loadAnimals (world_with_network [Unreachable])).1 = Normal (Json.JArr [])
  /\ (AnimalData.loadAnimals
        (world_with_network [Response true 200 (js "{oops")])).1 = Normal (Json.JArr [])
  /\ ~ (exists e : error,
          (AnimalData.loadAnimals (world_with_network [Unreachable])).1 = Throw e).
Proof.
  split; [reflexivity|]. split; [vm_compute; reflexivity|].
  intros [e H]. discriminate H.
Qed.

(** C5, as the code has it: when the source is unreachable, answers with a
    status that is not ok, or sends a body that is not JSON, the load
    catches the error, logs it and completes with an empty array, caching
    nothing. The start-up sequence always completes; when its collaborators
    complete and the load ends that way, it puts the message that the data
    could not be loaded in the main element and stops there. *)
Theorem load_failure_degrades (env : App.collaborators) (w : world) (e : error) :
  loaded w = false ->
  load_error (next_outcome w) = Some e ->
  (exists w1,
     AnimalData.loadAnimals w = (Normal (Json.JArr []), w1)
     /\ loaded w1 = false
     /\ console w1 = console w ++ [LogErrorLoadingAnimalData e])
  /\ (exists w2,
        App.init env w = (Normal tt, w2)
        /\ (App.Speech_init env = Normal tt ->
            App.Cards_init env = Normal tt ->
            App.GameMap_init env = Normal tt ->
            main w2 = match main w with
                      | Some _ => Some (MainErrorMessage could_not_load)
                      | None => None
                      end
            /\ loaded w2 = false
            /\ last (console w2) = Some (LogErrorLoadingAnimalData e))).
Proof.
  intros Hl He. split.
  - eexists. split; [apply (loadAnimals_failure w e Hl He)|].
    split; [exact Hl|]. reflexivity.
  - destruct (App_init_completes env w) as [w2 Hrun]. exists w2. split; [exact Hrun|].
    intros Hs Hc Hg. revert Hrun. unfold App.init. run. rewrite Hs, Hc.
    destruct (Collection_init_frame w) as (w1 & -> & Hl1 & Hn1 & Hr1 & Hm1).
    rewrite Hg.
    assert (He1 : load_error (next_outcome w1) = Some e).
    { unfold next_outcome in *. rewrite Hn1. exact He. }
    rewrite (loadAnimals_failure w1 e) by congruence.
    cbn [App.length_is_zero].
    rewrite bool_decide_eq_true_2 by reflexivity. run.
    rewrite showError_eq. intros [= <-].
    cbn [main with_console after_fetch with_network].
    rewrite <- Hm1. destruct (main w1) eqn:Hm; cbn; rewrite ?Hm, ?Hl1, ?Hl.
    + split; [reflexivity|]. split; [reflexivity|]. apply last_snoc.
    + split; [reflexivity|]. split; [reflexivity|]. apply last_snoc.
Qed.

Lemma load_failure_degrades_witness :
  (exists w1,
     AnimalData.loadAnimals (world_with_network [Unreachable]) = (Normal (Json.JArr []), w1)
     /\ loaded w1 = false
     /\ console w1 = [LogErrorLoadingAnimalData NetworkError])
  /\ (exists w2,
        App.init quiet_collaborators (world_with_network [Unreachable]) = (Normal tt, w2)
        /\ main w2 = Some (MainErrorMessage could_not_load)
        /\ loaded w2 = false
        /\ last (console w2) = Some (LogErrorLoadingAnimalData NetworkError)).
Proof.
  destruct (load_failure_degrades quiet_collaborators (world_with_network [Unreachable])
              NetworkError eq_refl eq_refl) as [H1 (w2 & Hrun & H2)].
  split; [exact H1|].
  exists w2. split; [exact Hrun|]. exact (H2 eq_refl eq_refl eq_refl).
Defined.

(* ===================================================================== *)
(** * The gallery entry *)
(* ===================================================================== *)

Lemma classList_toggle_class {H : Type} (tag : jsstring) (v : jsstring) (hs : list H)
    (cs : list (Dom.node H)) (tok : jsstring) (force : bool) :
  exists v',
    Dom.classList_toggle (Dom.Element tag [(js "class", v)] hs cs) tok force
    = Dom.Element tag [(js "class", v')] hs cs.
Proof.
  unfold Dom.classList_toggle.
  destruct (existsb _ _); destruct force; eexists; reflexivity.
Qed.

(** C7: the gallery entry of an animal that is not collected shows
    neither its name nor its image: it has no [img] element, its only text
    is the placeholder [???], it carries no listener, and it is the same
    entry for every uncollected animal of the same rarity, so nothing of
    the record but the rarity reaches it. For the rarities of the data
    model the class names are the fixed ones and that of the rarity. *)
Theorem gallery_redacts_unowned (w : world) (a : animal) :
  Collection.isCollected w (id a) = false ->
  (exists cls : jsstring,
     Collection.createGalleryItem w a
     = Dom.Element (js "div") [(js "class", cls)] []
         [Dom.Element (js "div") [(js "class", js "collection-item__silhouette")] [] [];
          Dom.Element (js "span") [(js "class", js "collection-item__name")] []
            [Dom.Text (js "???")]])
  /\ Dom.elements_by_tag (js "img") (Collection.createGalleryItem w a) = []
  /\ Dom.textContent (Collection.createGalleryItem w a) = js "???"
  /\ (forall b : animal,
        Collection.isCollected w (id b) = false ->
        rarity b = rarity a ->
        Collection.createGalleryItem w b = Collection.createGalleryItem w a)
  /\ (In (rarity a) rarities ->
      Dom.getAttribute (Collection.createGalleryItem w a) (js "class")
      = Some (js "collection-item collection-item--" ++ rarity a
              ++ js " collection-item--undiscovered")).
Proof.
  intros Ha. unfold Collection.isCollected in Ha.
  assert (Hshape : exists cls : jsstring,
    Collection.createGalleryItem w a
    = Dom.Element (js "div") [(js "class", cls)] []
        [Dom.Element (js "div") [(js "class", js "collection-item__silhouette")] [] [];
         Dom.Element (js "span") [(js "class", js "collection-item__name")] []
           [Dom.Text (js "???")]]).
  { unfold Collection.createGalleryItem. rewrite Ha. cbn [negb].
    unfold Dom.set_className at 1. unfold Dom.createElement at 1.
    cbn [Dom.setAttribute Dom.set_assoc].
    destruct (classList_toggle_class (H := Collection.listener) (js "div")
                (js "collection-item collection-item--" ++ rarity a) [] []
                (js "collection-item--collected") false) as [v1 ->].
    destruct (classList_toggle_class (H := Collection.listener) (js "div") v1 [] []
                (js "collection-item--undiscovered") true) as [v2 ->].
    exists v2. reflexivity. }
  split; [exact Hshape|].
  destruct Hshape as [cls Hitem].
  split; [rewrite Hitem; reflexivity|].
  split; [rewrite Hitem; reflexivity|].
  split.
  - intros b Hb Hr. unfold Collection.isCollected in Hb.
    unfold Collection.createGalleryItem. rewrite Ha, Hb, Hr. reflexivity.
  - intros Hin. unfold Collection.createGalleryItem. rewrite Ha.
    unfold rarities in Hin. cbn [In] in Hin.
    destruct Hin as [<-|[<-|[<-|[<-|[]]]]]; vm_compute; reflexivity.
Qed.

Lemma gallery_redacts_unowned_witness :
  Dom.elements_by_tag (js "img") (Collection.createGalleryItem empty_store_world quoll) = []
  /\ Dom.textContent (Collection.createGalleryItem empty_store_world quoll) = js "???"
  /\ Dom.getAttribute (Collection.createGalleryItem empty_store_world quoll) (js "class")
     = Some (js "collection-item collection-item--rare collection-item--undiscovered").
Proof.
  destruct (gallery_redacts_unowned empty_store_world quoll eq_refl)
    as (_ & Himg & Htext & _ & Hclass).
  split; [exact Himg|]. split; [exact Htext|].
  apply Hclass. vm_compute. auto.
Defined.

(* ===================================================================== *)
(** * The narration text *)
(* ===================================================================== *)

Lemma forEach_push {A : Type} (f : nat -> A -> jsstring) (arr : list A) :
  forall (k : nat) (parts : list jsstring),
    Speech.forEach (fun parts x i => Speech.push parts (f i x)) arr k parts
    = parts ++ imap (fun i => f (k + i)%nat) arr.
Proof.
  induction arr as [|x arr IH]; intros k parts.
  - cbn. rewrite app_nil_r. reflexivity.
  - cbn [Speech.forEach imap]. rewrite IH. unfold Speech.push.
    rewrite <- app_assoc. cbn [app]. rewrite Nat.add_0_r.
    f_equal. f_equal. apply imap_ext. intros i y _. cbn.
    f_equal. lia.
Qed.

Lemma fact_lines_lookup (fs : list jsstring) (i : nat) (fact : jsstring) :
  fs !! i = Some fact ->
  fact_lines fs !! i = Some (js "Fact " ++ JsString.of_nat (i + 1) ++ js ": " ++ fact).
Proof.
  intros H. unfold fact_lines. rewrite list_lookup_imap, H. cbn.
  rewrite Nat.add_1_r. reflexivity.
Qed.

(** C8: the narration text is a function of the record alone (and of the
    platform's upper-casing): its parts joined by a full stop and a space,
    the parts being the name, the framing sentence of the category, the
    facts announced and numbered from 1 in their order, and, exactly when
    pronunciation practice applies, the invitation to say the name and the
    prompt naming the target sound, which then ends the text; without
    practice the text ends with the facts. *)
Theorem buildSpeechText_assembles (toUpperCase : jsstring -> jsstring) (a : animal) :
  Speech.buildSpeechText toUpperCase a
  = JsString.join (js ". ") (narration_parts toUpperCase a)
  /\ (forall (fs : list jsstring) (i : nat) (fact : jsstring),
        facts a = Some fs -> fs !! i = Some fact ->
        facts_block a !! S i
        = Some (js "Fact " ++ JsString.of_nat (i + 1) ++ js ": " ++ fact))
  /\ (practice_applies a = false ->
      Speech.buildSpeechText toUpperCase a
      = JsString.join (js ". ") (name a :: framing (category a) :: facts_block a))
  /\ (forall sp : speech_practice,
        speechPractice a = Some sp -> hasGKSound sp = true ->
        last (narration_parts toUpperCase a)
        = Some (js "Listen for the " ++ toUpperCase (targetSound sp) ++ js " sound.")).
Proof.
  assert (Hparts : Speech.buildSpeechText toUpperCase a
                   = JsString.join (js ". ") (narration_parts toUpperCase a)).
  { unfold Speech.buildSpeechText, narration_parts, facts_block, prompt_block, framing.
    f_equal. unfold Speech.push at 1 2. cbn [app].
    destruct (facts a) as [[|fact fs]|].
    - destruct (speechPractice a) as [sp|]; [destruct (hasGKSound sp)|]; reflexivity.
    - rewrite forEach_push. unfold Speech.push. unfold fact_lines.
      rewrite (imap_ext _
                 (fun i x => js "Fact " ++ JsString.of_nat (S i) ++ js ": " ++ x)
                 (fact :: fs))
        by (intros i x _; cbn beta; rewrite Nat.add_0_l, Nat.add_1_r; reflexivity).
      destruct (speechPractice a) as [sp|]; [destruct (hasGKSound sp)|];
        cbn [app]; rewrite <- ?app_assoc; cbn [app]; rewrite ?app_nil_r; reflexivity.
    - destruct (speechPractice a) as [sp|]; [destruct (hasGKSound sp)|]; reflexivity. }
  split; [exact Hparts|]. split; [|split].
  - intros fs i fact Hf Hi. unfold facts_block. rewrite Hf.
    destruct fs as [|x fs]; [discriminate Hi|].
    cbn [lookup list_lookup]. apply fact_lines_lookup. exact Hi.
  - intros Hp. rewrite Hparts. unfold narration_parts, prompt_block.
    unfold practice_applies in Hp.
    destruct (speechPractice a) as [sp|]; [rewrite Hp|]; rewrite app_nil_r; reflexivity.
  - intros sp Hsp Hg. unfold narration_parts, prompt_block. rewrite Hsp, Hg.
    rewrite !app_comm_cons.
    change [js "Now let's practice saying " ++ name a ++ js "!";
            js "Listen for the " ++ toUpperCase (targetSound sp) ++ js " sound."]
      with ([js "Now let's practice saying " ++ name a ++ js "!"]
            ++ [js "Listen for the " ++ toUpperCase (targetSound sp) ++ js " sound."]).
    rewrite app_assoc. apply last_snoc.
Qed.

Lemma buildSpeechText_assembles_witness :
  Speech.buildSpeechText (fun s => s) quoll
  = js "Quoll. is one of Australia's deadly creatures. Here are some fun facts:. Fact 1: Fast. Fact 2: Loud"
  /\ last (narration_parts (fun s => s) kookaburra) = Some (js "Listen for the k sound.").
Proof.
  destruct (buildSpeechText_assembles (fun s => s) quoll) as (_ & _ & Hq & _).
  destruct (buildSpeechText_assembles (fun s => s) kookaburra) as (_ & _ & _ & Hk).
  split.
  - rewrite (Hq eq_refl). vm_compute. reflexivity.
  - exact (Hk _ eq_refl eq_refl).
Defined.

(* ===================================================================== *)
(** * Scenarios *)
(* ===================================================================== *)

(** A catalog of three records: collecting A gives true and 1 of 3 (33%),
    collecting A again gives false and changes nothing, collecting B gives
    true and 2 of 3 (67%). *)
Example scenario_collect_and_progress :
  let three := Some (JsNumber.of_Z 3) in
  let r1 := Collection.collect (js "A") empty_store_world in
  let r2 := Collection.collect (js "A") r1.2 in
  let r3 := Collection.collect (js "B") r2.2 in
  r1.1 = Normal true
  /\ Collection.getProgress r1.2 three = summary_of 1 3 33
  /\ r2 = (Normal false, r1.2)
  /\ r3.1 = Normal true
  /\ Collection.getProgress r3.2 three = summary_of 2 3 67.
Proof. vm_compute. repeat split. Qed.

(** A store that holds the ids A and B at start-up: A is collected, C is
    not. *)
Example scenario_restore_at_startup :
  let w := (Collection.init (world_storing stored_A_B)).2 in
  Collection.isCollected w (js "A") = true
  /\ Collection.isCollected w (js "B") = true
  /\ Collection.isCollected w (js "C") = false
  /\ progress_count w = Some (js "2").
Proof. vm_compute. repeat split. Qed.

(** A new discovery shows the celebration and schedules its dismissal. *)
Example scenario_celebration :
  let w := (Collection.collect (js "A") empty_store_world).2 in
  celebration_hidden w = Some false /\ timers w = [HideCelebration 1500].
Proof. vm_compute. repeat split. Qed.

(** An ok response whose body is the JSON text null: the catalog variable
    and the loaded flag are set before the log message reads the length of
    null, so the first call ends in the handler with an empty array and
    the calls after it return the cached null. *)
Example scenario_null_catalog :
  let w := world_with_network [Response true 200 (js "null")] in
  (repeatedly AnimalData.loadAnimals 2 w).1 = [Json.JArr []; Json.JNull]
  /\ loaded (AnimalData.loadAnimals w).2 = true
  /\ requests (repeatedly AnimalData.loadAnimals 2 w).2 = [AnimalData.CATALOG_URL].
Proof. vm_compute. repeat split. Qed.

(** A catalog that loads: the start-up goes on to the map and logs its
    success; the main element keeps the page. *)
Example scenario_startup :
  let w := (App.init quiet_collaborators
              (world_with_network [Response true 200 (js "[true]")])).2 in
  main w = Some MainPage
  /\ console w = [LogCollectionInitialized; LogLoadedAnimals; LogAppInitialized].
Proof. vm_compute. repeat split. Qed.
(* ===================================================================== *)
(** * More on the collection store *)
(* ===================================================================== *)

Lemma isCollected_after_collect (animalId other : jsstring) (w : world) :
  Collection.isCollected (Collection.collect animalId w).2 other
  = Collection.isCollected w other || bool_decide (other = animalId).
Proof.
  rewrite collect_eq. destruct (Collection.isCollected w animalId) eqn:E; cbn [snd].
  - destruct (decide (other = animalId)) as [->|Hne].
    + rewrite E. reflexivity.
    + rewrite (bool_decide_eq_false_2 _ Hne), orb_false_r. reflexivity.
  - unfold Collection.isCollected in *.
    rewrite after_celebration_collection, after_progress_collection, after_save_collection.
    cbn [collection with_collection]. rewrite add_absent by exact E.
    rewrite has_app. f_equal. unfold JsSet.has. cbn [existsb].
    rewrite same_value_zero_string, orb_false_r. reflexivity.
Qed.

Lemma size_after_collect (animalId : jsstring) (w : world) :
  JsSet.size (collection (Collection.collect animalId w).2)
  = (JsSet.size (collection w) + (if Collection.isCollected w animalId then 0 else 1))%nat.
Proof.
  rewrite collect_eq. destruct (Collection.isCollected w animalId) eqn:E; cbn [snd].
  - lia.
  - unfold Collection.isCollected in E.
    rewrite after_celebration_collection, after_progress_collection, after_save_collection.
    cbn [collection with_collection]. rewrite add_absent by exact E.
    unfold JsSet.size. rewrite length_app. reflexivity.
Qed.

Lemma collect_result (animalId : jsstring) (w : world) :
  (Collection.collect animalId w).1 = Normal (negb (Collection.isCollected w animalId)).
Proof. rewrite collect_eq. destruct (Collection.isCollected w animalId); reflexivity. Qed.

Lemma collect_each_cons (animalId : jsstring) (rest : list jsstring) (w : world) :
  collect_each (animalId :: rest) w
  = (negb (Collection.isCollected w animalId)
       :: (collect_each rest (Collection.collect animalId w).2).1,
     (collect_each rest (Collection.collect animalId w).2).2).
Proof.
  cbn [collect_each]. pose proof (collect_result animalId w) as H.
  destruct (Collection.collect animalId w) as [[b|e] w']; cbn [fst snd] in *.
  - injection H as ->. destruct (collect_each rest w'). reflexivity.
  - discriminate H.
Qed.

(** X1: [collect] changes the membership of its own id and of no other:
    afterwards an id is in the set exactly when it was before or is the
    id collected, and the size grows by one for a new id and not at all
    for a known one. Nothing is ever removed. *)
Theorem collect_adds_only_its_id (animalId other : jsstring) (w : world) :
  Collection.isCollected (Collection.collect animalId w).2 other
  = Collection.isCollected w other || bool_decide (other = animalId)
  /\ JsSet.size (collection (Collection.collect animalId w).2)
     = (JsSet.size (collection w)
        + (if Collection.isCollected w animalId then 0 else 1))%nat
  /\ (Collection.collect animalId w).1
     = Normal (negb (Collection.isCollected w animalId)).
Proof.
  split; [apply isCollected_after_collect|].
  split; [apply size_after_collect|apply collect_result].
Qed.

(** X2: a run of [collect] calls over any list of ids, from any state.
    The call for the i-th id returns true exactly when that id was not
    in the set at the start and does not occur earlier in the list; the
    size of the set grows by the number of calls that returned true; and
    at the end an id is in the set exactly when it was at the start or
    occurs in the list. *)
Theorem collect_each_results (ids : list jsstring) (w : world) :
  (collect_each ids w).1
  = imap (fun i animalId =>
            negb (Collection.isCollected w animalId || bool_decide (animalId ∈ take i ids)))
         ids
  /\ JsSet.size (collection (collect_each ids w).2)
     = (JsSet.size (collection w) + count_occ Bool.bool_dec (collect_each ids w).1 true)%nat
  /\ (forall other : jsstring,
        Collection.isCollected (collect_each ids w).2 other
        = Collection.isCollected w other || bool_decide (other ∈ ids)).
Proof.
  revert w. induction ids as [|a ids IH]; intros w.
  - cbn [collect_each fst snd imap count_occ]. split; [reflexivity|]. split; [lia|].
    intros other. rewrite bool_decide_eq_false_2 by apply not_elem_of_nil.
    rewrite orb_false_r. reflexivity.
  - rewrite collect_each_cons. cbn [fst snd].
    destruct (IH (Collection.collect a w).2) as (H1 & H2 & H3).
    split; [|split].
    + rewrite imap_cons. cbn [take].
      rewrite (bool_decide_eq_false_2 (a ∈ [])) by apply not_elem_of_nil.
      rewrite orb_false_r. f_equal. rewrite H1.
      apply imap_ext. intros i x _. unfold compose. cbn [take].
      rewrite isCollected_after_collect. f_equal.
      rewrite <- orb_assoc. f_equal.
      destruct (decide (x = a)) as [->|Hne].
      * rewrite (bool_decide_eq_true_2 (a = a)) by reflexivity.
        symmetry. apply bool_decide_eq_true_2. apply elem_of_cons. auto.
      * rewrite (bool_decide_eq_false_2 _ Hne). cbn [orb].
        apply bool_decide_ext. rewrite elem_of_cons. tauto.
    + rewrite H2, size_after_collect.
      destruct (Collection.isCollected w a); cbn [negb count_occ].
      * destruct (Bool.bool_dec false true); [discriminate|]. lia.
      * destruct (Bool.bool_dec true true); [|contradiction]. lia.
    + intros other. rewrite H3, isCollected_after_collect, <- orb_assoc. f_equal.
      destruct (decide (other = a)) as [->|Hne].
      * rewrite (bool_decide_eq_true_2 (a = a)) by reflexivity.
        symmetry. apply bool_decide_eq_true_2. apply elem_of_cons. auto.
      * rewrite (bool_decide_eq_false_2 _ Hne). cbn [orb].
        apply bool_decide_ext. rewrite elem_of_cons. tauto.
Qed.

(** ** The counter of the page header *)

Lemma after_progress_shows (w : world) : counter_shows_size (after_progress w).
Proof.
  unfold counter_shows_size, after_progress.
  destruct (progress_count w) eqn:E; cbn; [reflexivity|]. rewrite E. exact I.
Qed.

Lemma after_progress_present (w : world) :
  is_Some (progress_count (after_progress w)) <-> is_Some (progress_count w).
Proof.
  unfold after_progress. destruct (progress_count w) eqn:E; cbn.
  - split; intros _; eexists; reflexivity.
  - rewrite E. tauto.
Qed.

Lemma after_celebration_progress (w : world) :
  progress_count (after_celebration w) = progress_count w.
Proof. unfold after_celebration. destruct (celebration_hidden w); reflexivity. Qed.

Lemma after_save_progress (w : world) : progress_count (after_save w) = progress_count w.
Proof.
  unfold after_save. destruct (LocalStorage.setItem _ _ _) as [[[]|e] s]; reflexivity.
Qed.

Lemma after_load_progress (w : world) : progress_count (after_load w) = progress_count w.
Proof.
  unfold after_load.
  destruct (LocalStorage.getItem _ _) as [[[|ch text]|]|e]; try reflexivity.
  destruct (restored (ch :: text)); reflexivity.
Qed.

Lemma counter_after_collect (animalId : jsstring) (w : world) :
  counter_shows_size w -> counter_shows_size (Collection.collect animalId w).2.
Proof.
  intros H. rewrite collect_eq. destruct (Collection.isCollected w animalId); [exact H|].
  cbn [snd]. unfold counter_shows_size.
  rewrite after_celebration_progress, after_celebration_collection.
  apply after_progress_shows.
Qed.

Lemma counter_present_after_collect (animalId : jsstring) (w : world) :
  is_Some (progress_count (Collection.collect animalId w).2) <-> is_Some (progress_count w).
Proof.
  rewrite collect_eq. destruct (Collection.isCollected w animalId); [reflexivity|].
  cbn [snd]. rewrite after_celebration_progress, after_progress_present, after_save_progress.
  reflexivity.
Qed.

Lemma counter_after_collect_each (ids : list jsstring) (w : world) :
  counter_shows_size w -> counter_shows_size (collect_each ids w).2.
Proof.
  revert w. induction ids as [|a ids IH]; intros w H; [exact H|].
  rewrite collect_each_cons. cbn [snd]. apply IH, counter_after_collect, H.
Qed.

Lemma counter_present_after_collect_each (ids : list jsstring) (w : world) :
  is_Some (progress_count (collect_each ids w).2) <-> is_Some (progress_count w).
Proof.
  revert w. induction ids as [|a ids IH]; intros w; [reflexivity|].
  rewrite collect_each_cons. cbn [snd]. rewrite IH. apply counter_present_after_collect.
Qed.

(** X3: once [init] or [reset] has run, the counter of the page header
    shows the size of the set, and it still does after any run of
    [collect] calls that follows, whatever the store does with the writes;
    a page that has the counter keeps it. *)
Theorem counter_follows_the_set (ids : list jsstring) (w : world) :
  counter_shows_size (collect_each ids (Collection.init w).2).2
  /\ counter_shows_size (collect_each ids (Collection.reset w).2).2
  /\ (is_Some (progress_count (collect_each ids (Collection.init w).2).2)
      <-> is_Some (progress_count w))
  /\ (is_Some (progress_count (collect_each ids (Collection.reset w).2).2)
      <-> is_Some (progress_count w)).
Proof.
  rewrite init_eq, reset_eq. cbn [snd]. cbn zeta.
  split; [|split; [|split]].
  - apply counter_after_collect_each. unfold counter_shows_size.
    cbn [progress_count collection with_console]. apply after_progress_shows.
  - apply counter_after_collect_each, after_progress_shows.
  - rewrite counter_present_after_collect_each. cbn [progress_count with_console].
    rewrite after_progress_present, after_load_progress. reflexivity.
  - rewrite counter_present_after_collect_each, after_progress_present, after_save_progress.
    reflexivity.
Qed.

(** ** The store and the next visit *)

Lemma after_save_holds (w : world) :
  (LocalStorage.setItem (storage w) Collection.STORAGE_KEY
     (Json.stringify (Json.JArr (collection w)))).1 = Normal tt ->
  LocalStorage.denied (storage (after_save w)) = false /\ store_holds_set (after_save w).
Proof.
  unfold store_holds_set, after_save.
  destruct (LocalStorage.setItem _ _ _) as [[[]|e] s] eqn:Hs; [|discriminate].
  intros _. apply setItem_normal in Hs. cbn [storage collection with_storage]. exact Hs.
Qed.

(** What a new visit restores from a store that holds the serialisation
    of a set of distinct string ids *)
Lemma next_visit_restores (ids : list jsstring) (w : world) :
  NoDup ids ->
  collection w = map Json.JStr ids ->
  LocalStorage.denied (storage w) = false ->
  store_holds_set w ->
  collection (Collection.init (next_visit w)).2 = collection w.
Proof.
  intros Hnd Hc Hden Hhold. rewrite init_eq. cbn [snd]. cbn zeta.
  cbn [collection with_console]. rewrite after_progress_collection.
  unfold after_load, LocalStorage.getItem, next_visit. cbn [storage boot page_world].
  unfold store_holds_set in Hhold. rewrite Hden, Hhold, Hc.
  destruct (Json.stringify (Json.JArr (map Json.JStr ids))) as [|ch text] eqn:Htext.
  - rewrite stringify_strings in Htext. discriminate Htext.
  - rewrite <- Htext. unfold restored.
    rewrite parse_stringify_strings, construct_strings by exact Hnd. reflexivity.
Qed.

(** X4: [reset] forgets every id, whatever the store does: afterwards no
    id is collected and [collect] of any id returns true again. When the
    write of the empty set succeeds, the next visit of the page starts
    from the empty collection too. *)
Theorem reset_forgets_every_id (animalId : jsstring) (w : world) :
  (Collection.reset w).1 = Normal tt
  /\ Collection.isCollected (Collection.reset w).2 animalId = false
  /\ (Collection.collect animalId (Collection.reset w).2).1 = Normal true
  /\ ((LocalStorage.setItem (storage w) Collection.STORAGE_KEY
         (Json.stringify (Json.JArr []))).1 = Normal tt ->
      collection (Collection.init (next_visit (Collection.reset w).2)).2 = []
      /\ Collection.isCollected (Collection.init (next_visit (Collection.reset w).2)).2 animalId
         = false).
Proof.
  rewrite reset_eq. cbn [fst snd].
  assert (Hempty : collection (after_progress (after_save (with_collection [] w))) = []).
  { rewrite after_progress_collection, after_save_collection. reflexivity. }
  assert (Hout : Collection.isCollected (after_progress (after_save (with_collection [] w)))
                   animalId = false).
  { unfold Collection.isCollected. rewrite Hempty. reflexivity. }
  split; [reflexivity|]. split; [exact Hout|].
  split; [rewrite collect_result, Hout; reflexivity|].
  intros Hset.
  assert (Hrestored :
            collection (Collection.init (next_visit
                          (after_progress (after_save (with_collection [] w))))).2 = []).
  { destruct (after_save_holds (with_collection [] w) Hset) as [Hden Hhold].
    rewrite <- Hempty at 2. apply (next_visit_restores []).
    - constructor.
    - exact Hempty.
    - rewrite after_progress_storage. exact Hden.
    - unfold store_holds_set in *.
      rewrite after_progress_storage, after_progress_collection. exact Hhold. }
  split; [exact Hrestored|].
  unfold Collection.isCollected. rewrite Hrestored. reflexivity.
Qed.

Lemma reset_forgets_every_id_witness :
  collection (Collection.init (next_visit (Collection.reset (world_with_ids 3)).2)).2 = []
  /\ Collection.isCollected
       (Collection.init (next_visit (Collection.reset (world_with_ids 3)).2)).2 (js "1")
     = false.
Proof.
  destruct (reset_forgets_every_id (js "1") (world_with_ids 3)) as (_ & _ & _ & H).
  apply H. vm_compute. reflexivity.
Defined.

(** X5: an id collected by a write that succeeds is still collected on
    the next visit. From a set of distinct string ids, [collect] of a new
    id leaves the store holding the serialisation of the new set, and the
    scripts evaluated again over that store restore exactly that set: the
    ids of before and the new one, in order. *)
Theorem collected_id_survives_reload (ids : list jsstring) (animalId : jsstring) (w : world) :
  NoDup ids ->
  collection w = map Json.JStr ids ->
  animalId ∉ ids ->
  (LocalStorage.setItem (storage w) Collection.STORAGE_KEY
     (Json.stringify (Json.JArr (map Json.JStr (ids ++ [animalId]))))).1 = Normal tt ->
  let w' := (Collection.collect animalId w).2 in
  store_holds_set w'
  /\ collection (Collection.init (next_visit w')).2 = map Json.JStr (ids ++ [animalId])
  /\ (forall other : jsstring,
        Collection.isCollected (Collection.init (next_visit w')).2 other
        = Collection.isCollected w other || bool_decide (other = animalId)).
Proof.
  intros Hnd Hc Hnew Hset. cbn zeta.
  assert (Hout : Collection.isCollected w animalId = false).
  { unfold Collection.isCollected. rewrite Hc, has_strings.
    apply bool_decide_eq_false_2, Hnew. }
  rewrite collect_eq, Hout. cbn [snd].
  set (w1 := with_collection (JsSet.add (collection w) (Json.JStr animalId)) w) in *.
  assert (Hc1 : collection w1 = map Json.JStr (ids ++ [animalId])).
  { unfold w1. cbn [collection with_collection].
    rewrite add_absent by exact Hout. rewrite Hc, map_app. reflexivity. }
  assert (Hset1 : (LocalStorage.setItem (storage w1) Collection.STORAGE_KEY
                     (Json.stringify (Json.JArr (collection w1)))).1 = Normal tt).
  { rewrite Hc1. exact Hset. }
  destruct (after_save_holds w1 Hset1) as [Hden Hhold].
  set (w' := after_celebration (after_progress (after_save w1))) in *.
  assert (Hc' : collection w' = map Json.JStr (ids ++ [animalId])).
  { unfold w'. rewrite after_celebration_collection, after_progress_collection,
      after_save_collection. exact Hc1. }
  assert (Hs' : storage w' = storage (after_save w1)).
  { unfold w'. rewrite after_celebration_storage, after_progress_storage. reflexivity. }
  assert (Hhold' : store_holds_set w').
  { unfold store_holds_set in *. rewrite Hs', Hc', <- Hc1, <- (after_save_collection w1).
    exact Hhold. }
  assert (Hrestored : collection (Collection.init (next_visit w')).2 = collection w').
  { apply (next_visit_restores (ids ++ [animalId])).
    - apply NoDup_app. split; [exact Hnd|]. split; [|apply NoDup_singleton].
      intros x Hx Hx'. apply list_elem_of_singleton in Hx'. subst. contradiction.
    - exact Hc'.
    - rewrite Hs'. exact Hden.
    - exact Hhold'. }
  split; [exact Hhold'|]. split; [rewrite Hrestored; exact Hc'|].
  intros other. unfold Collection.isCollected at 1. rewrite Hrestored.
  pose proof (isCollected_after_collect animalId other w) as Hmem.
  rewrite collect_eq, Hout in Hmem. exact Hmem.
Qed.

Lemma collected_id_survives_reload_witness :
  let w' := (Collection.collect (js "emu") (world_with_ids 2)).2 in
  store_holds_set w'
  /\ collection (Collection.init (next_visit w')).2
     = map Json.JStr ([js "0"; js "1"] ++ [js "emu"])
  /\ (forall other : jsstring,
        Collection.isCollected (Collection.init (next_visit w')).2 other
        = Collection.isCollected (world_with_ids 2) other || bool_decide (other = js "emu")).
Proof.
  apply (collected_id_survives_reload [js "0"; js "1"] (js "emu") (world_with_ids 2)).
  - apply (bool_decide_unpack _). vm_compute. exact I.
  - reflexivity.
  - apply (bool_decide_unpack _). vm_compute. exact I.
  - vm_compute. reflexivity.
Defined.

(** ** The gallery entry of a collected animal *)

Lemma gallery_entry_unowned (w : world) (a : animal) :
  Collection.isCollected w (id a) = false ->
  exists cls : jsstring,
    Collection.createGalleryItem w a
    = Dom.Element (js "div") [(js "class", cls)] []
        [Dom.Element (js "div") [(js "class", js "collection-item__silhouette")] [] [];
         Dom.Element (js "span") [(js "class", js "collection-item__name")] []
           [Dom.Text (js "???")]].
Proof.
  intros Ha. unfold Collection.isCollected in Ha.
  unfold Collection.createGalleryItem. rewrite Ha. cbn [negb].
  unfold Dom.set_className at 1. unfold Dom.createElement at 1.
  cbn [Dom.setAttribute Dom.set_assoc].
  destruct (classList_toggle_class (H := Collection.listener) (js "div")
              (js "collection-item collection-item--" ++ rarity a) [] []
              (js "collection-item--collected") false) as [v1 ->].
  destruct (classList_toggle_class (H := Collection.listener) (js "div") v1 [] []
              (js "collection-item--undiscovered") true) as [v2 ->].
  exists v2. reflexivity.
Qed.

Lemma gallery_entry_owned (w : world) (a : animal) :
  Collection.isCollected w (id a) = true ->
  exists cls : jsstring,
    Collection.createGalleryItem w a
    = Dom.Element (js "div") [(js "class", cls)] [Collection.ViewCard a]
        [Dom.Element (js "img")
           [(js "class", js "collection-item__image"); (js "src", image a);
            (js "alt", name a)] [] [];
         Dom.Element (js "span") [(js "class", js "collection-item__name")] []
           (match name a with [] => [] | _ => [Dom.Text (name a)] end)].
Proof.
  intros Ha. unfold Collection.isCollected in Ha.
  unfold Collection.createGalleryItem. rewrite Ha. cbn [negb].
  unfold Dom.set_className at 1. unfold Dom.createElement at 1.
  cbn [Dom.setAttribute Dom.set_assoc].
  destruct (classList_toggle_class (H := Collection.listener) (js "div")
              (js "collection-item collection-item--" ++ rarity a) [] []
              (js "collection-item--collected") true) as [v1 ->].
  destruct (classList_toggle_class (H := Collection.listener) (js "div") v1 [] []
              (js "collection-item--undiscovered") false) as [v2 ->].
  exists v2. reflexivity.
Qed.

Lemma shows_image_owned (w : world) (a : animal) :
  shows_image (Collection.createGalleryItem w a) = Collection.isCollected w (id a).
Proof.
  unfold shows_image. destruct (Collection.isCollected w (id a)) eqn:Ha.
  - destruct (gallery_entry_owned w a Ha) as [cls ->]. destruct (name a); reflexivity.
  - destruct (gallery_entry_unowned w a Ha) as [cls ->]. reflexivity.
Qed.

(** X6: the gallery entry of a collected animal shows it: one [img] with
    the record's image as source and its name as alternative text, the
    name as the only text, and one click listener, which opens the card
    of that animal. So an entry carries an image, and a listener, exactly
    when its animal is collected. *)
Theorem gallery_reveals_owned (w : world) (a : animal) :
  (Collection.isCollected w (id a) = true ->
   Dom.elements_by_tag (js "img") (Collection.createGalleryItem w a)
   = [Dom.Element (js "img")
        [(js "class", js "collection-item__image"); (js "src", image a); (js "alt", name a)]
        [] []]
   /\ Dom.textContent (Collection.createGalleryItem w a) = name a
   /\ exists cls children,
        Collection.createGalleryItem w a
        = Dom.Element (js "div") [(js "class", cls)] [Collection.ViewCard a] children)
  /\ (Dom.elements_by_tag (js "img") (Collection.createGalleryItem w a) <> []
      <-> Collection.isCollected w (id a) = true).
Proof.
  pose proof (gallery_entry_owned w a) as Hshape.
  split.
  - intros Ha. destruct (Hshape Ha) as [cls Hitem]. rewrite Hitem.
    split; [destruct (name a); reflexivity|]. split.
    + destruct (name a); [reflexivity|].
      cbn [Dom.textContent flat_map app]. rewrite !app_nil_r. reflexivity.
    + eexists. eexists. reflexivity.
  - destruct (Collection.isCollected w (id a)) eqn:Ha.
    + destruct (Hshape eq_refl) as [cls Hitem]. rewrite Hitem. split; [reflexivity|].
      intros _. destruct (name a); discriminate.
    + destruct (gallery_entry_unowned w a Ha) as [cls Hitem]. rewrite Hitem.
      split; [|discriminate]. intros H. contradiction H. reflexivity.
Qed.

Lemma gallery_reveals_owned_witness :
  Dom.textContent
    (Collection.createGalleryItem (Collection.collect (js "quoll") empty_store_world).2 quoll)
  = js "Quoll"
  /\ Dom.elements_by_tag (js "img")
       (Collection.createGalleryItem (Collection.collect (js "quoll") empty_store_world).2 quoll)
     <> [].
Proof.
  destruct (gallery_reveals_owned (Collection.collect (js "quoll") empty_store_world).2 quoll)
    as [Hown Hiff].
  split.
  - apply Hown. vm_compute. reflexivity.
  - apply Hiff. vm_compute. reflexivity.
Defined.
(* ===================================================================== *)
(** * The class attribute: parsing what was serialised *)
(* ===================================================================== *)

Lemma existsb_eqb (tok : jsstring) (set : list jsstring) :
  existsb (JsString.eqb tok) set = bool_decide (tok ∈ set).
Proof.
  induction set as [|t set IH].
  - cbn. symmetry. apply bool_decide_eq_false_2, not_elem_of_nil.
  - cbn [existsb]. rewrite IH. unfold JsString.eqb.
    destruct (decide (tok = t)) as [->|Hne].
    + rewrite (bool_decide_eq_true_2 (t = t)) by reflexivity.
      symmetry. apply bool_decide_eq_true_2, elem_of_cons. auto.
    + rewrite (bool_decide_eq_false_2 _ Hne). cbn [orb].
      apply bool_decide_ext. rewrite elem_of_cons. tauto.
Qed.

Lemma split_tokens_token (t rest cur : jsstring) :
  Forall (fun c => Dom.is_ascii_whitespace c = false) t ->
  Dom.split_tokens (t ++ rest) cur = Dom.split_tokens rest (rev t ++ cur).
Proof.
  revert cur. induction t as [|c t IH]; intros cur Ht; [reflexivity|].
  apply Forall_cons in Ht. destruct Ht as [Hc Ht].
  cbn [app Dom.split_tokens]. rewrite Hc, IH by exact Ht.
  cbn [rev]. rewrite <- app_assoc. reflexivity.
Qed.

Lemma split_tokens_serialized (set : list jsstring) :
  Forall valid_token set ->
  Dom.split_tokens (Dom.serialize_tokens set) [] = set.
Proof.
  unfold Dom.serialize_tokens.
  induction set as [|p set IH]; intros Hv; [reflexivity|].
  apply Forall_cons in Hv. destruct Hv as [[Hne Hp] Hv].
  assert (Hrev : rev p <> []).
  { intros H. apply Hne. rewrite <- (rev_involutive p), H. reflexivity. }
  destruct set as [|q set].
  - cbn [JsString.join]. rewrite <- (app_nil_r p) at 1.
    rewrite split_tokens_token by exact Hp. rewrite app_nil_r.
    cbn [Dom.split_tokens]. destruct (rev p) eqn:E; [contradiction|].
    rewrite <- E, rev_involutive. reflexivity.
  - change (JsString.join [32%N] (p :: q :: set))
      with (p ++ [32%N] ++ JsString.join [32%N] (q :: set)).
    rewrite split_tokens_token by exact Hp. rewrite app_nil_r.
    cbn [app Dom.split_tokens].
    change (Dom.is_ascii_whitespace 32) with true. cbn match.
    destruct (rev p) eqn:E; [contradiction|].
    rewrite <- E, rev_involutive. f_equal. apply IH, Hv.
Qed.

Lemma split_tokens_valid (s : jsstring) :
  forall cur : jsstring,
    Forall (fun c => Dom.is_ascii_whitespace c = false) cur ->
    Forall valid_token (Dom.split_tokens s cur).
Proof.
  assert (Htok : forall cur,
            cur <> [] ->
            Forall (fun c => Dom.is_ascii_whitespace c = false) cur ->
            valid_token (rev cur)).
  { intros cur Hne Hc. split.
    - intros H. apply Hne. rewrite <- (rev_involutive cur), H. reflexivity.
    - apply Forall_rev. exact Hc. }
  induction s as [|c s IH]; intros cur Hc.
  - cbn [Dom.split_tokens]. destruct cur as [|x cur]; [constructor|].
    constructor; [|constructor]. apply Htok; [discriminate|exact Hc].
  - cbn [Dom.split_tokens]. destruct (Dom.is_ascii_whitespace c) eqn:E.
    + destruct cur as [|x cur]; [apply IH; constructor|].
      constructor; [apply Htok; [discriminate|exact Hc]|apply IH; constructor].
    + apply IH. constructor; assumption.
Qed.

Lemma add_token_list (set : list jsstring) (tok : jsstring) :
  token_list set -> valid_token tok -> token_list (Dom.add_token set tok).
Proof.
  intros [Hv Hnd] Ht. unfold Dom.add_token. rewrite existsb_eqb.
  destruct (decide (tok ∈ set)) as [Hin|Hout].
  - rewrite bool_decide_eq_true_2 by exact Hin. split; assumption.
  - rewrite bool_decide_eq_false_2 by exact Hout. split.
    + apply Forall_app. split; [exact Hv|]. constructor; [exact Ht|constructor].
    + apply NoDup_app. split; [exact Hnd|]. split.
      * intros x Hx Hx'. apply list_elem_of_singleton in Hx'. subst. contradiction.
      * apply NoDup_singleton.
Qed.

Lemma fold_add_token_list (toks : list jsstring) :
  forall set : list jsstring,
    token_list set -> Forall valid_token toks ->
    token_list (fold_left Dom.add_token toks set).
Proof.
  induction toks as [|t toks IH]; intros set Hs Ht; [exact Hs|].
  apply Forall_cons in Ht. destruct Ht as [Ht Hts].
  cbn [fold_left]. apply IH; [|exact Hts]. apply add_token_list; assumption.
Qed.

Lemma token_set_list (attr : option jsstring) : token_list (Dom.token_set attr).
Proof.
  destruct attr as [v|]; cbn [Dom.token_set].
  - apply fold_add_token_list.
    + split; constructor.
    + apply split_tokens_valid. constructor.
  - split; constructor.
Qed.

Lemma fold_add_token_distinct (toks : list jsstring) :
  forall set : list jsstring,
    NoDup (set ++ toks) -> fold_left Dom.add_token toks set = set ++ toks.
Proof.
  induction toks as [|t toks IH]; intros set Hnd.
  - rewrite app_nil_r. reflexivity.
  - cbn [fold_left]. unfold Dom.add_token at 2. rewrite existsb_eqb.
    apply NoDup_app in Hnd. destruct Hnd as (Hs & Hdis & Ht).
    rewrite bool_decide_eq_false_2.
    + rewrite IH; [rewrite <- app_assoc; reflexivity|].
      rewrite <- app_assoc. cbn [app]. apply NoDup_app. auto.
    + intros Hin. apply (Hdis t Hin). apply elem_of_cons. auto.
Qed.

(** Reading back a class attribute that was written from an ordered set
    of tokens gives that set. *)
Lemma token_set_serialized (set : list jsstring) :
  token_list set -> Dom.token_set (Some (Dom.serialize_tokens set)) = set.
Proof.
  intros [Hv Hnd]. cbn [Dom.token_set].
  rewrite split_tokens_serialized by exact Hv.
  apply (fold_add_token_distinct set []). exact Hnd.
Qed.

Lemma without_list (tok : jsstring) (set : list jsstring) :
  token_list set -> token_list (ClassList.without tok set).
Proof.
  intros [Hv Hnd]. unfold ClassList.without. split.
  - apply Forall_forall. intros x Hx. apply list_elem_of_In, filter_In in Hx.
    destruct Hx as [Hx _]. apply list_elem_of_In in Hx.
    exact (proj1 (Forall_forall _ _) Hv x Hx).
  - apply NoDup_ListNoDup. apply List.NoDup_filter. apply NoDup_ListNoDup. exact Hnd.
Qed.

Lemma elem_of_without (tok x : jsstring) (set : list jsstring) :
  x ∈ ClassList.without tok set <-> x ∈ set /\ x <> tok.
Proof.
  unfold ClassList.without. rewrite list_elem_of_In, filter_In, <- list_elem_of_In.
  unfold JsString.eqb. rewrite negb_true_iff, bool_decide_eq_false.
  split; intros [H1 H2]; (split; [exact H1|]); intros ->; apply H2; reflexivity.
Qed.

Lemma token_set_add (attr : option jsstring) (tok : jsstring) :
  valid_token tok ->
  Dom.token_set (ClassList.add attr tok) = Dom.add_token (Dom.token_set attr) tok.
Proof.
  intros Ht. unfold ClassList.add. apply token_set_serialized.
  apply add_token_list; [apply token_set_list|exact Ht].
Qed.

Lemma token_set_remove (attr : option jsstring) (tok : jsstring) :
  Dom.token_set (ClassList.remove attr tok) = ClassList.without tok (Dom.token_set attr).
Proof.
  destruct attr as [v|]; [|reflexivity]. unfold ClassList.remove.
  apply token_set_serialized, without_list, token_set_list.
Qed.

Lemma without_absent (tok : jsstring) (set : list jsstring) :
  tok ∉ set -> ClassList.without tok set = set.
Proof.
  intros Hout. unfold ClassList.without. induction set as [|t set IH]; [reflexivity|].
  cbn [List.filter]. unfold JsString.eqb.
  rewrite bool_decide_eq_false_2.
  - cbn [negb]. f_equal. apply IH. intros H. apply Hout, elem_of_cons. auto.
  - intros ->. apply Hout, elem_of_cons. auto.
Qed.

Lemma token_set_toggle (attr : option jsstring) (tok : jsstring) (force : bool) :
  valid_token tok ->
  Dom.token_set (ClassList.toggle attr tok force)
  = if force then Dom.add_token (Dom.token_set attr) tok
    else ClassList.without tok (Dom.token_set attr).
Proof.
  intros Ht. unfold ClassList.toggle. cbn zeta. unfold Dom.add_token.
  rewrite existsb_eqb.
  destruct (decide (tok ∈ Dom.token_set attr)) as [Hin|Hout].
  - rewrite bool_decide_eq_true_2 by exact Hin. destruct force; [reflexivity|].
    apply token_set_serialized, without_list, token_set_list.
  - rewrite bool_decide_eq_false_2 by exact Hout. destruct force.
    + apply token_set_serialized.
      pose proof (add_token_list (Dom.token_set attr) tok (token_set_list attr) Ht) as H.
      unfold Dom.add_token in H. rewrite existsb_eqb, bool_decide_eq_false_2 in H by exact Hout.
      exact H.
    + symmetry. apply without_absent, Hout.
Qed.

Lemma contains_elem (attr : option jsstring) (tok : jsstring) :
  ClassList.contains attr tok = bool_decide (tok ∈ Dom.token_set attr).
Proof. unfold ClassList.contains. apply existsb_eqb. Qed.

Lemma elem_of_add_token (set : list jsstring) (tok x : jsstring) :
  x ∈ Dom.add_token set tok <-> x ∈ set \/ x = tok.
Proof.
  unfold Dom.add_token. rewrite existsb_eqb.
  destruct (decide (tok ∈ set)) as [Hin|Hout].
  - rewrite bool_decide_eq_true_2 by exact Hin. split; [auto|].
    intros [H| ->]; assumption.
  - rewrite bool_decide_eq_false_2 by exact Hout.
    rewrite elem_of_app, list_elem_of_singleton. reflexivity.
Qed.

(** After [toggle(tok, force)] the element has the token exactly when
    [force] holds, and has any other token exactly when it had it. *)
Lemma contains_toggle (attr : option jsstring) (tok other : jsstring) (force : bool) :
  valid_token tok ->
  ClassList.contains (ClassList.toggle attr tok force) other
  = if bool_decide (other = tok) then force else ClassList.contains attr other.
Proof.
  intros Ht. rewrite !contains_elem, token_set_toggle by exact Ht.
  destruct (decide (other = tok)) as [->|Hne].
  - rewrite (bool_decide_eq_true_2 (tok = tok)) by reflexivity. destruct force.
    + apply bool_decide_eq_true_2, elem_of_add_token. auto.
    + apply bool_decide_eq_false_2. rewrite elem_of_without. tauto.
  - rewrite (bool_decide_eq_false_2 _ Hne). apply bool_decide_ext. destruct force.
    + rewrite elem_of_add_token. tauto.
    + rewrite elem_of_without. tauto.
Qed.

Lemma contains_add (attr : option jsstring) (tok other : jsstring) :
  valid_token tok ->
  ClassList.contains (ClassList.add attr tok) other
  = bool_decide (other = tok) || ClassList.contains attr other.
Proof.
  intros Ht. rewrite !contains_elem, token_set_add by exact Ht.
  destruct (decide (other = tok)) as [->|Hne].
  - rewrite (bool_decide_eq_true_2 (tok = tok)) by reflexivity.
    apply bool_decide_eq_true_2, elem_of_add_token. auto.
  - rewrite (bool_decide_eq_false_2 _ Hne). apply bool_decide_ext.
    rewrite elem_of_add_token. tauto.
Qed.

Lemma contains_remove (attr : option jsstring) (tok other : jsstring) :
  ClassList.contains (ClassList.remove attr tok) other
  = negb (bool_decide (other = tok)) && ClassList.contains attr other.
Proof.
  rewrite !contains_elem, token_set_remove.
  destruct (decide (other = tok)) as [->|Hne].
  - rewrite (bool_decide_eq_true_2 (tok = tok)) by reflexivity.
    apply bool_decide_eq_false_2. rewrite elem_of_without. tauto.
  - rewrite (bool_decide_eq_false_2 _ Hne). apply bool_decide_ext.
    rewrite elem_of_without. tauto.
Qed.

(** Toggling to the state the element is in writes nothing. *)
Lemma toggle_settled (attr : option jsstring) (tok : jsstring) (force : bool) :
  ClassList.contains attr tok = force -> ClassList.toggle attr tok force = attr.
Proof.
  unfold ClassList.contains, ClassList.toggle. cbn zeta. intros ->.
  destruct force; reflexivity.
Qed.

Lemma toggle_twice (attr : option jsstring) (tok : jsstring) (force : bool) :
  valid_token tok ->
  ClassList.toggle (ClassList.toggle attr tok force) tok force
  = ClassList.toggle attr tok force.
Proof.
  intros Ht. apply toggle_settled. rewrite contains_toggle by exact Ht.
  rewrite bool_decide_eq_true_2 by reflexivity. reflexivity.
Qed.

Ltac valid_token_literal :=
  split; [discriminate | repeat constructor].
(* ===================================================================== *)
(** * Computations on the page: what they leave alone *)
(* ===================================================================== *)

Lemma P_bind_eq {A B : Type} (m : P A) (k : A -> P B) (p : page) :
  (m ≫= k) p = match m p with
               | (Normal a, p') => k a p'
               | (Throw e, p') => (Throw e, p')
               end.
Proof. reflexivity. Qed.

Section Preserves.

Context {X : Type} (f : page -> X).

Lemma preserves_ret {A : Type} (a : A) : preserves f (mret a : P A).
Proof. intros p. reflexivity. Qed.

Lemma preserves_bind {A B : Type} (m : P A) (k : A -> P B) :
  preserves f m -> (forall a, preserves f (k a)) -> preserves f (m ≫= k).
Proof.
  intros Hm Hk p. rewrite P_bind_eq. specialize (Hm p).
  destruct (m p) as [[a|e] p']; cbn [snd] in *.
  - rewrite Hk. exact Hm.
  - exact Hm.
Qed.

Lemma preserves_read {A : Type} (g : page -> A) : preserves f (read g).
Proof. intros p. reflexivity. Qed.

Lemma preserves_raise {A : Type} (e : error) : preserves f (raise e : P A).
Proof. intros p. reflexivity. Qed.

Lemma preserves_of_completion {A : Type} (c : completion A) :
  preserves f (of_completion c).
Proof. intros p. reflexivity. Qed.

Lemma preserves_update (g : page -> page) :
  (forall p, f (g p) = f p) -> preserves f (update g).
Proof. intros H p. apply H. Qed.

Lemma preserves_update_doc (g : document -> document) :
  (forall p d, f (set_doc d p) = f p) -> preserves f (update_doc g).
Proof. intros H p. apply H. Qed.

Lemma preserves_for_each {A : Type} (body : A -> P unit) (arr : list A) :
  (forall x, preserves f (body x)) -> preserves f (for_each body arr).
Proof.
  intros H. induction arr as [|x arr IH]; cbn [for_each].
  - apply preserves_ret.
  - apply preserves_bind; [apply H|intros _; exact IH].
Qed.

End Preserves.

(** The projections of the page and of the document, computed *)
Ltac simpl_page :=
  cbn [world_of synth speaking supported voices cards_modal currentAnimal mapContainer
       markers gallery_modal gallery_grid doc page_console page_timers
       set_world_of set_synth set_speaking set_supported set_voices set_cards_modal
       set_currentAnimal set_mapContainer set_markers set_gallery_modal set_gallery_grid
       set_doc set_page_console set_page_timers
       speechSynthesis btn_speak btn_collect animal_modal map_element collection_modal
       collection_grid filter_buttons
       set_speechSynthesis set_btn_speak set_btn_collect set_animal_modal set_map_element
       set_collection_modal set_collection_grid set_filter_buttons].

(** The definitions of the views, unfolded *)
Ltac unfold_views :=
  unfold Handlers.listener, Handlers.escape_key, Handlers.gallery_item_click,
    Handlers.filter_click, Handlers.handleAnimalClick, Handlers.collect_click,
    Handlers.marker_click, GameMap.updateMarkerState, GameMap.updateAllMarkerStates,
    Gallery.showGallery, Gallery.renderGallery, Gallery.hideGallery, Gallery.write_modal,
    Cards.hide, Cards.show, Cards.setCollected, Cards.setStatBar, Cards.focus_speak_button,
    Cards.write_collect_button, Cards.write_property, Cards.write_card, Cards.the_card,
    Cards.getCurrentAnimal, Cards_getCurrentAnimal,
    SpeechControl.handleSpeakClick, SpeechControl.speakName, SpeechControl.speak,
    SpeechControl.onstart, SpeechControl.onend, SpeechControl.onerror,
    SpeechControl.stop, SpeechControl.loadVoices, SpeechControl.the_synth,
    SpeechControl.isSpeaking, SpeechControl.isSupported,
    SpeechControl.hideSpeak, SpeechControl.updateSpeakButton,
    setTimeout, page_log_line.

(** Steps through a computation of the page, leaving the updates to
    check *)
Ltac preserves_step :=
  lazymatch goal with
  | |- preserves _ (mret _) => apply preserves_ret
  | |- preserves _ (read _) => apply preserves_read
  | |- preserves _ (raise _) => apply preserves_raise
  | |- preserves _ (of_completion _) => apply preserves_of_completion
  | |- preserves _ (mbind _ _) => apply preserves_bind; [|intros ?]
  | |- preserves _ (for_each _ _) => apply preserves_for_each; intros ?
  | |- preserves _ (update_doc _) => apply preserves_update_doc; intros ? ?; reflexivity
  | |- preserves _ (update _) => apply preserves_update; intros ?; reflexivity
  | |- preserves _ (match ?x with _ => _ end) => destruct x
  | |- preserves _ (if ?b then _ else _) => destruct b
  | |- preserves _ _ => progress unfold_views
  end.

Ltac preserves_auto := repeat preserves_step.



Section ViewsLeaveTheMap.

Variable toUpperCase : jsstring -> jsstring.
Variable regexp_replace :
  forall (pattern flags subject replacement : jsstring), completion jsstring.
Variable catalog : list animal.

Lemma show_preserves_markers (a : animal) (c : bool) :
  preserves markers (Cards.show toUpperCase regexp_replace a c).
Proof. unfold_views. preserves_auto. Qed.

Lemma show_preserves_world (a : animal) (c : bool) :
  preserves world_of (Cards.show toUpperCase regexp_replace a c).
Proof. unfold_views. preserves_auto. Qed.

End ViewsLeaveTheMap.

(* ===================================================================== *)
(** * The markers of the map *)
(* ===================================================================== *)

Lemma valid_marker_collected : valid_token (js "marker--collected").
Proof. valid_token_literal. Qed.

Lemma valid_marker_undiscovered : valid_token (js "marker--undiscovered").
Proof. valid_token_literal. Qed.

Lemma valid_marker_active : valid_token (js "marker--active").
Proof. valid_token_literal. Qed.

Lemma restyled_toggle (tok : jsstring) (force : bool) (m : marker) :
  valid_token tok ->
  restyled tok m (with_marker_class (ClassList.toggle (marker_class m) tok force) m).
Proof.
  intros Ht. split; [reflexivity|]. intros other Hne. cbn [marker_class with_marker_class].
  rewrite contains_toggle by exact Ht. rewrite bool_decide_eq_false_2 by exact Hne.
  reflexivity.
Qed.

Lemma set_markers_same (p : page) : set_markers (markers p) p = p.
Proof. destruct p. reflexivity. Qed.

Lemma set_markers_twice (a b : list marker) (p : page) :
  set_markers a (set_markers b p) = set_markers a p.
Proof. reflexivity. Qed.

Lemma with_marker_class_same (m : marker) : with_marker_class (marker_class m) m = m.
Proof. destruct m. reflexivity. Qed.

(** X7: [updateAllMarkerStates(collectedIds)] keeps every marker in its
    place and gives it the collected look exactly when its animal id is
    in [collectedIds]; nothing else of a marker changes, no other class
    token comes or goes, the rest of the page is untouched, and a second
    call with the same ids changes nothing. *)
Theorem updateAllMarkerStates_marks (collectedIds : list Json.value) (p : page) :
  exists ms' : list marker,
    GameMap.updateAllMarkerStates collectedIds p = (Normal tt, set_markers ms' p)
    /\ Forall2 (fun m m' =>
                  restyled (js "marker--collected") m m'
                  /\ collected_look m'
                     = GameMap.includes collectedIds (Json.JStr (animalId m)))
               (markers p) ms'
    /\ GameMap.updateAllMarkerStates collectedIds (set_markers ms' p)
       = (Normal tt, set_markers ms' p).
Proof.
  eexists. split; [reflexivity|]. split.
  - apply Forall2_fmap_r, Forall_Forall2_diag, Forall_forall. intros m _. split.
    + apply restyled_toggle, valid_marker_collected.
    + unfold collected_look. cbn [marker_class with_marker_class animalId].
      rewrite contains_toggle by apply valid_marker_collected.
      rewrite bool_decide_eq_true_2 by reflexivity. reflexivity.
  - unfold GameMap.updateAllMarkerStates, update.
    rewrite set_markers_twice. cbn [markers set_markers].
    apply (f_equal (fun ms => (Normal tt, set_markers ms p))).
    rewrite <- list_fmap_compose. apply list_fmap_ext. intros i m _. unfold compose.
    cbn [marker_class with_marker_class animalId].
    rewrite toggle_twice by apply valid_marker_collected. reflexivity.
Qed.

(** ** Properties a computation keeps *)

Section Keeps.

Context (I : page -> Prop).

Lemma keeps_ret {A : Type} (a : A) : keeps I (mret a : P A).
Proof. intros p H. exact H. Qed.

Lemma keeps_bind {A B : Type} (m : P A) (k : A -> P B) :
  keeps I m -> (forall a, keeps I (k a)) -> keeps I (m ≫= k).
Proof.
  intros Hm Hk p H. rewrite P_bind_eq. specialize (Hm p H).
  destruct (m p) as [[a|e] p']; cbn [snd] in *.
  - apply Hk, Hm.
  - exact Hm.
Qed.

Lemma keeps_read {A : Type} (g : page -> A) : keeps I (read g).
Proof. intros p H. exact H. Qed.

Lemma keeps_raise {A : Type} (e : error) : keeps I (raise e : P A).
Proof. intros p H. exact H. Qed.

Lemma keeps_of_completion {A : Type} (c : completion A) : keeps I (of_completion c).
Proof. intros p H. exact H. Qed.

Lemma keeps_update (g : page -> page) : (forall p, I p -> I (g p)) -> keeps I (update g).
Proof. intros H p Hp. apply H, Hp. Qed.

Lemma keeps_update_doc (g : document -> document) :
  (forall p, I p -> I (set_doc (g (doc p)) p)) -> keeps I (update_doc g).
Proof. intros H p Hp. apply H, Hp. Qed.

Lemma keeps_on_world {A : Type} (m : M A) :
  (forall p w, I p -> I (set_world_of w p)) -> keeps I (on_world m).
Proof.
  intros H p Hp. unfold on_world. destruct (m (world_of p)) as [c w]. apply H, Hp.
Qed.

Lemma keeps_for_each {A : Type} (body : A -> P unit) (arr : list A) :
  (forall x, keeps I (body x)) -> keeps I (for_each body arr).
Proof.
  intros H. induction arr as [|x arr IH]; cbn [for_each].
  - apply keeps_ret.
  - apply keeps_bind; [apply H|intros _; exact IH].
Qed.

End Keeps.

Lemma preserves_keeps {X A : Type} (f : page -> X) (m : P A) (Q : X -> Prop) :
  preserves f m -> keeps (fun p => Q (f p)) m.
Proof. intros H p Hp. rewrite H. exact Hp. Qed.

Lemma keeps_and {A : Type} (I J : page -> Prop) (m : P A) :
  keeps I m -> keeps J m -> keeps (fun p => I p /\ J p) m.
Proof. intros HI HJ p [H1 H2]. split; [apply HI, H1|apply HJ, H2]. Qed.

(** Steps through a computation; [side] closes what an update leaves *)
Ltac keeps_step side :=
  lazymatch goal with
  | |- keeps _ (mret _) => apply keeps_ret
  | |- keeps _ (read _) => apply keeps_read
  | |- keeps _ (raise _) => apply keeps_raise
  | |- keeps _ (of_completion _) => apply keeps_of_completion
  | |- keeps _ (mbind _ _) => apply keeps_bind; [|intros ?]
  | |- keeps _ (for_each _ _) => apply keeps_for_each; intros ?
  | |- keeps _ (update_doc _) => apply keeps_update_doc; intros ? ?; side
  | |- keeps _ (update _) => apply keeps_update; intros ? ?; side
  | |- keeps _ (on_world _) => apply keeps_on_world; intros ? ? ?; side
  | |- keeps _ (match ?x with _ => _ end) => destruct x
  | |- keeps _ (if ?b then _ else _) => destruct b
  | |- keeps _ _ => progress unfold_views
  end.

Ltac keeps_auto side := repeat keeps_step side.

(** The side condition of [card_ready]: an update of the document that
    takes no element away *)
Ltac card_ready_side :=
  idtac;
  match goal with
  | H : card_ready _ |- card_ready _ =>
      destruct H as (? & ? & ?); unfold card_ready in *; cbn in *;
      repeat match goal with
             | |- context [match ?x with _ => _ end] => destruct x eqn:?
             end;
      cbn in *; repeat split; try assumption; try (eexists; reflexivity)
  end.

(** ** One marker *)

Lemma updateMarkerState_eq (animalId' : jsstring) (collected : bool) (p : page) :
  GameMap.updateMarkerState animalId' collected p
  = (Normal tt,
     set_markers
       (GameMap.change_first (fun m => JsString.eqb (animalId m) animalId')
          (marked collected) (markers p)) p).
Proof. reflexivity. Qed.

Lemma change_first_none (test : marker -> bool) (change : marker -> marker)
    (ms : list marker) :
  Forall (fun m => test m = false) ms -> GameMap.change_first test change ms = ms.
Proof.
  induction ms as [|m ms IH]; intros H; [reflexivity|].
  apply Forall_cons in H. destruct H as [Hm H].
  cbn [GameMap.change_first]. rewrite Hm, IH by exact H. reflexivity.
Qed.

Lemma change_first_found (test : marker -> bool) (change : marker -> marker)
    (pre post : list marker) (m : marker) :
  Forall (fun x => test x = false) pre -> test m = true ->
  GameMap.change_first test change (pre ++ m :: post) = pre ++ change m :: post.
Proof.
  intros Hpre Hm. induction pre as [|x pre IH]; cbn [app GameMap.change_first].
  - rewrite Hm. reflexivity.
  - apply Forall_cons in Hpre. destruct Hpre as [Hx Hpre].
    rewrite Hx, IH by exact Hpre. reflexivity.
Qed.

Lemma marked_looks (collected : bool) (m : marker) :
  marked collected m = with_marker_class (marker_class (marked collected m)) m
  /\ collected_look (marked collected m) = collected
  /\ undiscovered_look (marked collected m) = negb collected
  /\ (forall other : jsstring,
        other <> js "marker--collected" -> other <> js "marker--undiscovered" ->
        ClassList.contains (marker_class (marked collected m)) other
        = ClassList.contains (marker_class m) other).
Proof.
  unfold marked, collected_look, undiscovered_look.
  cbn [marker_class with_marker_class].
  split; [reflexivity|]. split; [|split].
  - rewrite !contains_toggle
      by first [apply valid_marker_collected|apply valid_marker_undiscovered].
    rewrite bool_decide_eq_false_2 by discriminate.
    rewrite bool_decide_eq_true_2 by reflexivity. reflexivity.
  - rewrite contains_toggle by apply valid_marker_undiscovered.
    rewrite bool_decide_eq_true_2 by reflexivity. reflexivity.
  - intros other H1 H2.
    rewrite !contains_toggle
      by first [apply valid_marker_collected|apply valid_marker_undiscovered].
    rewrite !bool_decide_eq_false_2 by assumption. reflexivity.
Qed.

Lemma marked_animalId (collected : bool) (m : marker) :
  animalId (marked collected m) = animalId m.
Proof. reflexivity. Qed.

(** X8: [updateMarkerState(id, collected)] changes the first marker of
    that animal id and no other marker: afterwards that marker has the
    collected look exactly when [collected] holds and the undiscovered
    look exactly when it does not, with its other class tokens and the
    rest of it as before. A later marker of the same id is not touched,
    and with no marker of that id the page stays as it is. *)
Theorem updateMarkerState_first_match (animalId' : jsstring) (collected : bool) (p : page) :
  (Forall (fun m => animalId m <> animalId') (markers p) ->
   GameMap.updateMarkerState animalId' collected p = (Normal tt, p))
  /\ (forall (pre post : list marker) (m : marker),
        markers p = pre ++ m :: post ->
        Forall (fun x => animalId x <> animalId') pre ->
        animalId m = animalId' ->
        exists m' : marker,
          GameMap.updateMarkerState animalId' collected p
          = (Normal tt, set_markers (pre ++ m' :: post) p)
          /\ m' = with_marker_class (marker_class m') m
          /\ collected_look m' = collected
          /\ undiscovered_look m' = negb collected
          /\ (forall other : jsstring,
                other <> js "marker--collected" -> other <> js "marker--undiscovered" ->
                ClassList.contains (marker_class m') other
                = ClassList.contains (marker_class m) other)).
Proof.
  assert (Hno : forall ms : list marker,
            Forall (fun m => animalId m <> animalId') ms ->
            Forall (fun m => JsString.eqb (animalId m) animalId' = false) ms).
  { intros ms H. eapply Forall_impl; [exact H|].
    intros m Hm. apply bool_decide_eq_false_2, Hm. }
  rewrite updateMarkerState_eq. split.
  - intros H. rewrite change_first_none by apply Hno, H.
    rewrite set_markers_same. reflexivity.
  - intros pre post m Hms Hpre Hm. exists (marked collected m).
    rewrite Hms, change_first_found; [|apply Hno, Hpre|apply bool_decide_eq_true_2, Hm].
    split; [reflexivity|]. apply marked_looks.
Qed.

Lemma updateMarkerState_first_match_witness :
  GameMap.updateMarkerState (js "emu") true started_page = (Normal tt, started_page)
  /\ exists m' : marker,
       GameMap.updateMarkerState (js "kookaburra") true started_page
       = (Normal tt,
          set_markers
            ([GameMap.createMarker (fun s => s) (fun s => s) quoll (Some HandleAnimalClick)]
             ++ m' :: [])
            started_page)
       /\ collected_look m' = true
       /\ undiscovered_look m' = false.
Proof.
  destruct (updateMarkerState_first_match (js "emu") true started_page) as [Hnone _].
  destruct (updateMarkerState_first_match (js "kookaburra") true started_page) as [_ Hone].
  split.
  - apply Hnone. vm_compute. repeat constructor; discriminate.
  - destruct (Hone [GameMap.createMarker (fun s => s) (fun s => s) quoll (Some HandleAnimalClick)]
                [] (GameMap.createMarker (fun s => s) (fun s => s) kookaburra (Some HandleAnimalClick)))
      as (m' & H1 & _ & H3 & H4 & _).
    + vm_compute. reflexivity.
    + vm_compute. repeat constructor; discriminate.
    + reflexivity.
    + exists m'. auto.
Defined.

(** ** Running a computation of the page *)

Lemma read_bind {A B : Type} (g : page -> A) (k : A -> P B) (p : page) :
  (read g ≫= k) p = k (g p) p.
Proof. reflexivity. Qed.

Lemma update_bind {B : Type} (g : page -> page) (k : unit -> P B) (p : page) :
  (update g ≫= k) p = k tt (g p).
Proof. reflexivity. Qed.

Lemma update_doc_bind {B : Type} (g : document -> document) (k : unit -> P B) (p : page) :
  (update_doc g ≫= k) p = k tt (set_doc (g (doc p)) p).
Proof. reflexivity. Qed.

Lemma raise_bind {A B : Type} (e : error) (k : A -> P B) (p : page) :
  ((raise e : P A) ≫= k) p = (Throw e, p).
Proof. reflexivity. Qed.

Lemma ret_bind {A B : Type} (a : A) (k : A -> P B) (p : page) :
  ((mret a : P A) ≫= k) p = k a p.
Proof. reflexivity. Qed.

Lemma bind_assoc {A B C : Type} (m : P A) (k : A -> P B) (k' : B -> P C) (p : page) :
  ((m ≫= k) ≫= k') p = (m ≫= fun a => k a ≫= k') p.
Proof. rewrite !P_bind_eq. destruct (m p) as [[a|e] p']; reflexivity. Qed.

Lemma bind_normal {A B : Type} (m : P A) (k : A -> P B) (p p' : page) (a : A) :
  m p = (Normal a, p') -> (m ≫= k) p = k a p'.
Proof. intros H. rewrite P_bind_eq, H. reflexivity. Qed.

Lemma bind_throw {A B : Type} (m : P A) (k : A -> P B) (p p' : page) (e : error) :
  m p = (Throw e, p') -> (m ≫= k) p = (Throw e, p').
Proof. intros H. rewrite P_bind_eq, H. reflexivity. Qed.

(** ** Placing the markers *)

Section PlaceMarkers.

Variable toLowerCase : jsstring -> jsstring.
Variable toUpperCase : jsstring -> jsstring.

Lemma place_each (onClick : option click_handler) (animals : list animal) :
  forall q : page,
    mapContainer q = true ->
    for_each (fun animal =>
                let marker := GameMap.createMarker toLowerCase toUpperCase animal onClick in
                container ← read mapContainer;
                if (container : bool)
                then update (fun p => set_markers (markers p ++ [marker]) p)
                else raise TypeError)
             animals q
    = (Normal tt,
       set_markers
         (markers q
          ++ map (fun a => GameMap.createMarker toLowerCase toUpperCase a onClick) animals)
         q).
Proof.
  induction animals as [|a animals IH]; intros q Hq.
  - cbn [for_each map]. rewrite app_nil_r, set_markers_same. reflexivity.
  - cbn [for_each map]. cbn zeta.
    erewrite bind_normal; [|rewrite read_bind, Hq; reflexivity].
    rewrite IH by exact Hq. cbn [markers set_markers].
    rewrite <- app_assoc. reflexivity.
Qed.

Lemma placeMarkers_eq (animals : list animal) (onClick : option click_handler) (p : page) :
  mapContainer p = true ->
  GameMap.placeMarkers toLowerCase toUpperCase animals onClick p
  = (Normal tt,
     set_page_console (page_console p ++ [LogPlacedMarkers (length animals)])
       (set_markers
          (map (fun a => GameMap.createMarker toLowerCase toUpperCase a onClick) animals) p)).
Proof.
  intros Hp. unfold GameMap.placeMarkers.
  rewrite update_bind.
  erewrite bind_normal; [|apply place_each; exact Hp].
  rewrite read_bind. cbn [markers set_markers app]. rewrite length_map. reflexivity.
Qed.

(** X9: with the map container in the page, [placeMarkers(animals,
    onClick)] leaves exactly one marker per animal, in the order of the
    animals and carrying the id of its animal; the markers that were
    there before are gone, so placing again replaces the markers and
    never piles them up. Without the container the call throws at the
    first animal, after the old markers were dropped, and completes only
    for an empty list. *)
Theorem placeMarkers_replaces (animals : list animal) (onClick : option click_handler)
    (p : page) :
  let p' := (GameMap.placeMarkers toLowerCase toUpperCase animals onClick p).2 in
  (mapContainer p = true ->
   (GameMap.placeMarkers toLowerCase toUpperCase animals onClick p).1 = Normal tt
   /\ markers p'
      = map (fun a => GameMap.createMarker toLowerCase toUpperCase a onClick) animals
   /\ map animalId (markers p') = map id animals
   /\ map opens (markers p') = animals
   /\ (forall more : list animal,
         markers (GameMap.placeMarkers toLowerCase toUpperCase more onClick p').2
         = map (fun a => GameMap.createMarker toLowerCase toUpperCase a onClick) more))
  /\ (mapContainer p = false ->
      markers p' = []
      /\ ((GameMap.placeMarkers toLowerCase toUpperCase animals onClick p).1 = Normal tt
          <-> animals = [])
      /\ (animals <> [] ->
          (GameMap.placeMarkers toLowerCase toUpperCase animals onClick p).1
          = Throw TypeError)).
Proof.
  cbn zeta. split.
  - intros Hp. rewrite placeMarkers_eq by exact Hp. cbn [fst snd markers set_markers set_page_console].
    split; [reflexivity|]. split; [reflexivity|].
    split; [rewrite <- list_fmap_compose; reflexivity|].
    split.
    + rewrite <- list_fmap_compose. apply list_fmap_id.
    + intros more. rewrite placeMarkers_eq by exact Hp. reflexivity.
  - intros Hp. unfold GameMap.placeMarkers. rewrite update_bind.
    destruct animals as [|a animals].
    + cbn. split; [reflexivity|]. split; [tauto|]. intros H. contradiction H. reflexivity.
    + cbn [for_each]. cbn zeta.
      erewrite bind_throw.
      2:{ erewrite bind_throw; [reflexivity|].
          rewrite read_bind. cbn [mapContainer set_markers]. rewrite Hp. reflexivity. }
      cbn. split; [reflexivity|]. split; [|reflexivity].
      split; discriminate.
Qed.

End PlaceMarkers.

Lemma placeMarkers_replaces_witness :
  map animalId
    (markers (GameMap.placeMarkers (fun s => s) (fun s => s) [quoll] None started_page).2)
  = [js "quoll"]
  /\ (GameMap.placeMarkers (fun s => s) (fun s => s) [quoll] None
        (fresh_page empty_store_world bare_document)).1
     = Throw TypeError.
Proof.
  pose proof (placeMarkers_replaces (fun s => s) (fun s => s) [quoll] None started_page) as H1.
  pose proof (placeMarkers_replaces (fun s => s) (fun s => s) [quoll] None
                (fresh_page empty_store_world bare_document)) as H2.
  cbn zeta in H1, H2. destruct H1 as [H1 _]. destruct H2 as [_ H2].
  split.
  - destruct H1 as (_ & _ & H & _); [vm_compute; reflexivity|exact H].
  - destruct H2 as (_ & _ & H); [reflexivity|]. apply H. discriminate.
Defined.

(* ===================================================================== *)
(** * The markers and the collection, event after event *)
(* ===================================================================== *)

Section MarkersFollow.

Variable toLowerCase : jsstring -> jsstring.
Variable toUpperCase : jsstring -> jsstring.
Variable regexp_replace :
  forall (pattern flags subject replacement : jsstring), completion jsstring.
Variable catalog : list animal.

Lemma listener_keeps_card_ready (ev : Handlers.event) :
  keeps card_ready (Handlers.listener toUpperCase regexp_replace catalog ev).
Proof. destruct ev; keeps_auto card_ready_side. Qed.

(** Every listener but those of a marker and of the collect button
    leaves the markers and the collection store as they are. *)
Lemma listener_leaves_map (ev : Handlers.event) :
  match ev with
  | Handlers.MarkerClick _ | Handlers.CollectClick => True
  | _ =>
      preserves markers (Handlers.listener toUpperCase regexp_replace catalog ev)
      /\ preserves world_of (Handlers.listener toUpperCase regexp_replace catalog ev)
  end.
Proof. destruct ev; try exact I; split; preserves_auto. Qed.

End MarkersFollow.

Section MarkersInSync.

Variable toLowerCase : jsstring -> jsstring.
Variable toUpperCase : jsstring -> jsstring.
Variable regexp_replace :
  forall (pattern flags subject replacement : jsstring), completion jsstring.
Variable catalog : list animal.

Lemma marker_click_effect (index : nat) (p : page) :
  world_of (Handlers.marker_click toUpperCase regexp_replace index p).2 = world_of p
  /\ markers (Handlers.marker_click toUpperCase regexp_replace index p).2
     = match markers p !! index with
       | Some m =>
           <[index := with_marker_class
                        (ClassList.add (marker_class m) (js "marker--active")) m]>
             (markers p)
       | None => markers p
       end.
Proof.
  unfold Handlers.marker_click. rewrite read_bind.
  destruct (markers p !! index) as [m|]; [|split; reflexivity].
  rewrite update_bind. unfold setTimeout. rewrite update_bind.
  destruct (onClick m) as [[]|]; [|split; reflexivity].
  unfold Handlers.handleAnimalClick. rewrite read_bind.
  rewrite show_preserves_world, show_preserves_markers. split; reflexivity.
Qed.

Lemma write_collect_button_ready (b : collect_button) (p : page) :
  card_ready p ->
  Cards.write_collect_button b p = (Normal tt, set_doc (set_btn_collect (Some b) (doc p)) p).
Proof.
  intros (Hm & _ & [btn Hb]). unfold Cards.write_collect_button.
  rewrite !read_bind, Hb, Hm. reflexivity.
Qed.

Lemma collect_click_effect (p : page) :
  card_ready p ->
  match currentAnimal p with
  | None => Handlers.collect_click p = (Normal tt, p)
  | Some a =>
      (Handlers.collect_click p).1 = Normal tt
      /\ world_of (Handlers.collect_click p).2
         = (Collection.collect (id a) (world_of p)).2
      /\ markers (Handlers.collect_click p).2
         = if Collection.isCollected (world_of p) (id a) then markers p
           else GameMap.change_first (fun m => JsString.eqb (animalId m) (id a))
                  (marked true) (markers p)
  end.
Proof.
  intros Hready. unfold Handlers.collect_click, Cards.getCurrentAnimal, Cards_getCurrentAnimal.
  rewrite read_bind. destruct (currentAnimal p) as [a|]; [|reflexivity].
  rewrite P_bind_eq. unfold on_world. rewrite collect_eq.
  destruct (Collection.isCollected (world_of p) (id a)).
  - cbn. split; [reflexivity|]. split; reflexivity.
  - cbn [snd]. unfold Cards.setCollected.
    erewrite bind_normal.
    2:{ apply write_collect_button_ready. exact Hready. }
    rewrite updateMarkerState_eq. cbn. split; [reflexivity|]. split; reflexivity.
Qed.

Lemma in_sync_after_collect (w w' : world) (a : jsstring) (ms : list marker) :
  NoDup (map animalId ms) ->
  (forall x, Collection.isCollected w' x = Collection.isCollected w x || bool_decide (x = a)) ->
  Forall (fun m => collected_look m = Collection.isCollected w (animalId m)) ms ->
  Forall (fun m => collected_look m = Collection.isCollected w' (animalId m))
    (GameMap.change_first (fun m => JsString.eqb (animalId m) a) (marked true) ms).
Proof.
  intros Hnd Hw. induction ms as [|m ms IH]; intros Hs; [constructor|].
  cbn [map] in Hnd. apply NoDup_cons in Hnd. destruct Hnd as [Hm Hnd].
  apply Forall_cons in Hs. destruct Hs as [Hlook Hs].
  cbn [GameMap.change_first]. unfold JsString.eqb.
  destruct (decide (animalId m = a)) as [Ha|Ha].
  - rewrite bool_decide_eq_true_2 by exact Ha. constructor.
    + rewrite (proj1 (proj2 (marked_looks true m))), marked_animalId, Hw, Ha.
      rewrite (bool_decide_eq_true_2 (a = a)) by reflexivity. rewrite orb_true_r. reflexivity.
    + apply Forall_forall. intros x Hx.
      pose proof (proj1 (Forall_forall _ _) Hs x Hx) as Hlx. cbn beta in Hlx.
      rewrite Hlx, Hw.
      rewrite bool_decide_eq_false_2; [rewrite orb_false_r; reflexivity|].
      intros Hxa. apply Hm. rewrite Ha, <- Hxa. apply list_elem_of_fmap_2, Hx.
  - rewrite bool_decide_eq_false_2 by exact Ha. constructor.
    + rewrite Hlook, Hw, bool_decide_eq_false_2 by exact Ha.
      rewrite orb_false_r. reflexivity.
    + apply IH; assumption.
Qed.

Lemma change_first_ids (a : jsstring) (ms : list marker) :
  map animalId (GameMap.change_first (fun m => JsString.eqb (animalId m) a) (marked true) ms)
  = map animalId ms.
Proof.
  induction ms as [|m ms IH]; [reflexivity|]. cbn [GameMap.change_first].
  destruct (JsString.eqb (animalId m) a); cbn [map]; [reflexivity|].
  rewrite IH. reflexivity.
Qed.

(** What stays true of the markers from one event to the next *)
Lemma listener_keeps_sync (ids : list jsstring) (ev : Handlers.event) :
  NoDup ids ->
  keeps (fun p => card_ready p /\ map animalId (markers p) = ids /\ markers_in_sync p)
        (Handlers.listener toUpperCase regexp_replace catalog ev).
Proof.
  intros Hnd p (Hready & Hids & Hsync).
  split; [apply listener_keeps_card_ready, Hready|].
  pose proof (listener_leaves_map toUpperCase regexp_replace catalog ev) as Hleave.
  unfold markers_in_sync in *.
  destruct ev;
    try (rewrite (proj1 Hleave), (proj2 Hleave); split; assumption).
  - (* a marker *)
    cbn [Handlers.listener].
    destruct (marker_click_effect index p) as [Hw Hm]. rewrite Hw, Hm.
    destruct (markers p !! index) as [m|] eqn:Hlook; [|split; assumption].
    split.
    + rewrite list_fmap_insert. cbn [animalId with_marker_class].
      rewrite list_insert_id; [exact Hids|].
      rewrite list_lookup_fmap, Hlook. reflexivity.
    + apply Forall_insert; [exact Hsync|].
      pose proof (proj1 (Forall_lookup _ _) Hsync index m Hlook) as Hl.
      cbn beta in Hl. unfold collected_look in *. cbn [marker_class animalId with_marker_class].
      rewrite contains_add by apply valid_marker_active.
      rewrite bool_decide_eq_false_2 by discriminate. exact Hl.
  - (* the collect button *)
    cbn [Handlers.listener].
    pose proof (collect_click_effect p Hready) as Heff.
    destruct (currentAnimal p) as [a|]; [|rewrite Heff; split; assumption].
    destruct Heff as (_ & Hw & Hm). rewrite Hw, Hm.
    destruct (Collection.isCollected (world_of p) (id a)) eqn:Hknown.
    + rewrite collect_known by exact Hknown. split; assumption.
    + split; [rewrite change_first_ids; exact Hids|].
      apply (in_sync_after_collect (world_of p)).
      * rewrite Hids. exact Hnd.
      * intros x. apply isCollected_after_collect.
      * exact Hsync.
Qed.

Lemma place_and_mark_eq (animals : list animal) (p : page) :
  mapContainer p = true ->
  place_and_mark toLowerCase toUpperCase animals p
  = (Normal tt,
     set_markers
       (map (fun a =>
               marker_with_look
                 (GameMap.createMarker toLowerCase toUpperCase a (Some HandleAnimalClick))
                 (Collection.isCollected (world_of p) (id a)))
            animals)
       (set_page_console (page_console p ++ [LogPlacedMarkers (length animals)]) p)).
Proof.
  intros Hp. unfold place_and_mark.
  erewrite bind_normal; [|apply placeMarkers_eq; exact Hp].
  rewrite read_bind. unfold GameMap.updateAllMarkerStates, update.
  cbn [markers set_markers set_page_console world_of].
  rewrite <- list_fmap_compose. reflexivity.
Qed.

Lemma after_events_keeps (I : page -> Prop) (evs : list Handlers.event) :
  (forall ev, keeps I (Handlers.listener toUpperCase regexp_replace catalog ev)) ->
  forall p : page,
    I p -> I (Handlers.after_events toUpperCase regexp_replace catalog evs p).
Proof.
  intros Hkeep. unfold Handlers.after_events.
  induction evs as [|ev evs IH]; intros p Hp; [exact Hp|].
  cbn [fold_left]. apply IH, Hkeep, Hp.
Qed.

(** X10: from start-up on, the markers follow the collection. On a page
    with the card modal and the collect button, once the markers are
    placed for animals of distinct ids and given their looks from the
    collected ids, every marker has the collected look exactly when its
    animal is collected, and this stays so after any run of events:
    marker clicks, collect clicks, closing the card, the gallery, the
    filters, narration. The markers stay those of the animals, in
    order. *)
Theorem markers_follow_collection (animals : list animal) (evs : list Handlers.event)
    (p : page) :
  card_ready p ->
  mapContainer p = true ->
  NoDup (map id animals) ->
  let p' :=
    Handlers.after_events toUpperCase regexp_replace catalog evs
      (place_and_mark toLowerCase toUpperCase animals p).2 in
  markers_in_sync p'
  /\ map animalId (markers p') = map id animals
  /\ card_ready p'.
Proof.
  intros Hready Hp Hnd. cbn zeta. rewrite place_and_mark_eq by exact Hp. cbn [snd].
  match goal with
  | |- context [Handlers.after_events _ _ _ _ ?q] => set (p0 := q)
  end.
  assert (H0 : card_ready p0 /\ map animalId (markers p0) = map id animals
               /\ markers_in_sync p0).
  { split; [exact Hready|]. split.
    - unfold p0. cbn [markers set_markers]. rewrite <- list_fmap_compose. reflexivity.
    - unfold markers_in_sync, p0. cbn [markers set_markers world_of set_page_console].
      apply Forall_fmap, Forall_forall. intros a _. unfold compose, collected_look, marker_with_look.
      cbn [marker_class with_marker_class animalId GameMap.createMarker].
      rewrite contains_toggle by apply valid_marker_collected.
      rewrite bool_decide_eq_true_2 by reflexivity. reflexivity. }
  pose proof (after_events_keeps _ evs
                (fun ev => listener_keeps_sync (map id animals) ev Hnd) p0 H0)
    as (H1 & H2 & H3).
  auto.
Qed.

(** X11: no marker ever takes the undiscovered look. [updateMarkerState]
    is the one function that writes the class, and its one caller passes
    [true]; so for animals of the rarities of the data model, after
    start-up and any run of events no marker has the class
    [marker--undiscovered]. *)
Theorem markers_never_undiscovered (animals : list animal) (evs : list Handlers.event)
    (p : page) :
  card_ready p ->
  mapContainer p = true ->
  Forall (fun a => In (rarity a) rarities) animals ->
  Forall (fun m => undiscovered_look m = false)
    (markers (Handlers.after_events toUpperCase regexp_replace catalog evs
                (place_and_mark toLowerCase toUpperCase animals p).2)).
Proof.
  intros Hready Hp Hr. rewrite place_and_mark_eq by exact Hp. cbn [snd].
  match goal with
  | |- context [Handlers.after_events _ _ _ _ ?q] => set (p0 := q)
  end.
  assert (H0 : card_ready p0 /\ Forall (fun m => undiscovered_look m = false) (markers p0)).
  { split; [exact Hready|]. unfold p0. cbn [markers set_markers].
    apply Forall_fmap. eapply Forall_impl; [exact Hr|]. intros a Ha.
    unfold compose, undiscovered_look, marker_with_look.
    cbn [marker_class with_marker_class GameMap.createMarker].
    rewrite contains_toggle by apply valid_marker_collected.
    rewrite bool_decide_eq_false_2 by discriminate.
    unfold rarities in Ha. cbn [In] in Ha.
    destruct Ha as [<-|[<-|[<-|[<-|[]]]]]; vm_compute; reflexivity. }
  refine (proj2 (after_events_keeps
                   (fun q => card_ready q
                             /\ Forall (fun m => undiscovered_look m = false) (markers q))
                   evs _ p0 H0)).
  intros ev q [Hq Hu]. split; [apply listener_keeps_card_ready, Hq|].
  pose proof (listener_leaves_map toUpperCase regexp_replace catalog ev) as Hleave.
  destruct ev; try (rewrite (proj1 Hleave); exact Hu).
  - cbn [Handlers.listener]. rewrite (proj2 (marker_click_effect index q)).
    destruct (markers q !! index) as [m|] eqn:Hlook; [|exact Hu].
    apply Forall_insert; [exact Hu|].
    pose proof (proj1 (Forall_lookup _ _) Hu index m Hlook) as Hl. cbn beta in Hl.
    unfold undiscovered_look in *. cbn [marker_class with_marker_class].
    rewrite contains_add by apply valid_marker_active.
    rewrite bool_decide_eq_false_2 by discriminate. exact Hl.
  - cbn [Handlers.listener]. pose proof (collect_click_effect q Hq) as Heff.
    destruct (currentAnimal q) as [a|]; [|rewrite Heff; exact Hu].
    destruct Heff as (_ & _ & Hm). rewrite Hm.
    destruct (Collection.isCollected (world_of q) (id a)); [exact Hu|].
    clear Hm. induction Hu as [|m ms Hm Hms IH]; [constructor|].
    cbn [GameMap.change_first]. destruct (JsString.eqb (animalId m) (id a)).
    + constructor; [|exact Hms]. apply (proj1 (proj2 (proj2 (marked_looks true m)))).
    + constructor; [exact Hm|exact IH].
Qed.

End MarkersInSync.

Lemma markers_follow_collection_witness :
  let p' :=
    Handlers.after_events (fun s => s) no_regexp [quoll; kookaburra]
      [Handlers.MarkerClick 0; Handlers.CollectClick; Handlers.CardCloseClick]
      (place_and_mark (fun s => s) (fun s => s) [quoll; kookaburra] initialised_page).2 in
  markers_in_sync p'
  /\ map animalId (markers p') = [js "quoll"; js "kookaburra"]
  /\ card_ready p'.
Proof.
  apply (markers_follow_collection (fun s => s) (fun s => s) no_regexp [quoll; kookaburra]
           [quoll; kookaburra]
           [Handlers.MarkerClick 0; Handlers.CollectClick; Handlers.CardCloseClick]
           initialised_page).
  - vm_compute. repeat split; eexists; reflexivity.
  - reflexivity.
  - apply (bool_decide_unpack _). vm_compute. exact I.
Defined.

Lemma markers_never_undiscovered_witness :
  Forall (fun m => undiscovered_look m = false)
    (markers (Handlers.after_events (fun s => s) no_regexp [quoll; kookaburra]
                [Handlers.MarkerClick 1; Handlers.CollectClick]
                (place_and_mark (fun s => s) (fun s => s) [quoll; kookaburra]
                   initialised_page).2)).
Proof.
  apply (markers_never_undiscovered (fun s => s) (fun s => s) no_regexp [quoll; kookaburra]
           [quoll; kookaburra] [Handlers.MarkerClick 1; Handlers.CollectClick]
           initialised_page).
  - vm_compute. repeat split; eexists; reflexivity.
  - reflexivity.
  - constructor; [right; right; left; reflexivity|].
    constructor; [left; reflexivity|constructor].
Defined.
(* ===================================================================== *)
(** * The queries of the catalog *)
(* ===================================================================== *)

Section Queries.

Import AnimalQueries.

Lemma property_is_record (key wanted : jsstring) (v : Json.value) :
  property_is key wanted v
  = match v with
    | Json.JNull => Throw TypeError
    | _ => Normal (record_has key wanted v)
    end.
Proof. destruct v; reflexivity. Qed.

Lemma array_find_passed (key wanted : jsstring) (pre rest : list Json.value) :
  Forall (passed_over key wanted) pre ->
  array_find (property_is key wanted) (pre ++ rest)
  = array_find (property_is key wanted) rest.
Proof.
  induction pre as [|x pre IH]; intros H; [reflexivity|].
  apply Forall_cons in H. destruct H as [[Hx Hno] H].
  cbn [app array_find]. rewrite property_is_record.
  destruct x; try contradiction; rewrite Hno; apply IH, H.
Qed.

(** Every list of elements ends the search in one of three ways. *)
Lemma find_cases (key wanted : jsstring) (elems : list Json.value) :
  Forall (passed_over key wanted) elems
  \/ (exists pre r post,
        elems = pre ++ r :: post /\ Forall (passed_over key wanted) pre
        /\ record_has key wanted r = true)
  \/ (exists pre post,
        elems = pre ++ Json.JNull :: post /\ Forall (passed_over key wanted) pre).
Proof.
  induction elems as [|x elems IH]; [left; constructor|].
  assert (Hnull : x = Json.JNull \/ x <> Json.JNull).
  { destruct x; [left; reflexivity|right; discriminate..]. }
  destruct Hnull as [->|Hx].
  { right. right. exists [], elems. split; [reflexivity|constructor]. }
  destruct (record_has key wanted x) eqn:Hr.
  { right. left. exists [], x, elems. split; [reflexivity|]. split; [constructor|exact Hr]. }
  assert (Hp : passed_over key wanted x) by (split; assumption).
  destruct IH as [H|[(pre & r & post & -> & H & Hr')|(pre & post & -> & H)]].
  - left. constructor; assumption.
  - right. left. exists (x :: pre), r, post. split; [reflexivity|].
    split; [constructor; assumption|exact Hr'].
  - right. right. exists (x :: pre), post. split; [reflexivity|constructor; assumption].
Qed.

Lemma record_has_truthy (key wanted : jsstring) (r : Json.value) :
  record_has key wanted r = true -> to_boolean (Some r) = true /\ r <> Json.JNull.
Proof. destruct r; try discriminate. intros _. split; [reflexivity|discriminate]. Qed.

Lemma getById_found (w : world) (pre post : list Json.value) (r : Json.value)
    (wanted : jsstring) :
  Forall (passed_over (js "id") wanted) pre ->
  record_has (js "id") wanted r = true ->
  getById (with_animals (Json.JArr (pre ++ r :: post)) w) wanted = Normal r.
Proof.
  intros Hpre Hr. unfold getById. cbn [animals with_animals array_of].
  rewrite array_find_passed by exact Hpre. cbn [array_find].
  rewrite property_is_record.
  destruct (record_has_truthy _ _ _ Hr) as [Ht Hn].
  destruct r; try contradiction; rewrite Hr; try rewrite Ht; reflexivity.
Qed.

Lemma getById_none (w : world) (elems : list Json.value) (wanted : jsstring) :
  Forall (passed_over (js "id") wanted) elems ->
  getById (with_animals (Json.JArr elems) w) wanted = Normal Json.JNull.
Proof.
  intros H. unfold getById. cbn [animals with_animals array_of].
  rewrite <- (app_nil_r elems), array_find_passed by exact H. reflexivity.
Qed.

Lemma getById_null (w : world) (pre post : list Json.value) (wanted : jsstring) :
  Forall (passed_over (js "id") wanted) pre ->
  getById (with_animals (Json.JArr (pre ++ Json.JNull :: post)) w) wanted = Throw TypeError.
Proof.
  intros H. unfold getById. cbn [animals with_animals array_of].
  rewrite array_find_passed by exact H. reflexivity.
Qed.

(** X12: [getById(id)] over a catalog that is an array returns the first
    element that is an object whose [id] is that string, whatever comes
    after it; it returns null when no element is such an object and none
    is null; and it throws a TypeError when a null element comes before
    any match. A value it returns is null or an element of the catalog
    with that id: it makes up no record. *)
Theorem getById_first_match (w : world) (elems : list Json.value) (wanted : jsstring) :
  (forall (pre post : list Json.value) (r : Json.value),
     elems = pre ++ r :: post ->
     Forall (passed_over (js "id") wanted) pre ->
     record_has (js "id") wanted r = true ->
     getById (with_animals (Json.JArr elems) w) wanted = Normal r)
  /\ (Forall (passed_over (js "id") wanted) elems ->
      getById (with_animals (Json.JArr elems) w) wanted = Normal Json.JNull)
  /\ (forall pre post : list Json.value,
        elems = pre ++ Json.JNull :: post ->
        Forall (passed_over (js "id") wanted) pre ->
        getById (with_animals (Json.JArr elems) w) wanted = Throw TypeError)
  /\ (forall r : Json.value,
        getById (with_animals (Json.JArr elems) w) wanted = Normal r ->
        r = Json.JNull \/ (r ∈ elems /\ record_has (js "id") wanted r = true)).
Proof.
  split; [|split; [|split]].
  - intros pre post r -> Hpre Hr. apply getById_found; assumption.
  - apply getById_none.
  - intros pre post -> Hpre. apply getById_null, Hpre.
  - intros r Hres.
    destruct (find_cases (js "id") wanted elems)
      as [H|[(pre & r' & post & -> & H & Hr')|(pre & post & -> & H)]].
    + rewrite getById_none in Hres by exact H. injection Hres as <-. left. reflexivity.
    + rewrite getById_found in Hres by assumption. injection Hres as <-.
      right. split; [|exact Hr']. apply elem_of_app. right. apply list_elem_of_here.
    + rewrite getById_null in Hres by exact H. discriminate Hres.
Qed.

Lemma array_filter_records (key wanted : jsstring) (elems : list Json.value) :
  Forall (fun r => r <> Json.JNull) elems ->
  array_filter (property_is key wanted) elems
  = Normal (List.filter (record_has key wanted) elems).
Proof.
  induction elems as [|x elems IH]; intros H; [reflexivity|].
  apply Forall_cons in H. destruct H as [Hx H].
  cbn [array_filter List.filter]. rewrite property_is_record, IH by exact H.
  destruct x; try contradiction; reflexivity.
Qed.

Lemma array_filter_null (key wanted : jsstring) (elems : list Json.value) :
  Json.JNull ∈ elems -> array_filter (property_is key wanted) elems = Throw TypeError.
Proof.
  induction elems as [|x elems IH]; intros H; [apply not_elem_of_nil in H; contradiction|].
  apply elem_of_cons in H. cbn [array_filter]. rewrite property_is_record.
  destruct H as [<-|H]; [reflexivity|].
  rewrite (IH H). destruct x; reflexivity.
Qed.

Lemma filter_sublist {A : Type} (f : A -> bool) (l : list A) : sublist (List.filter f l) l.
Proof.
  induction l as [|x l IH]; [constructor|]. cbn [List.filter].
  destruct (f x); [apply sublist_skip|apply sublist_cons]; exact IH.
Qed.

(** X13: [getByCategory], [getByHabitat] and [getByRarity] over a catalog
    that is an array without null elements return the elements that are
    objects with the wanted string under the key, all of them and no
    other, in catalog order; an element that lacks the key or holds
    something else under it is left out. With a null element anywhere in
    the catalog the three throw a TypeError, and so do they, with
    [getById] and [getGKSoundAnimals], when the catalog is no array. *)
Theorem filters_select_in_order (w : world) (elems : list Json.value) (wanted : jsstring) :
  (Forall (fun r => r <> Json.JNull) elems ->
   getByCategory (with_animals (Json.JArr elems) w) wanted
   = Normal (List.filter (record_has (js "category") wanted) elems)
   /\ getByHabitat (with_animals (Json.JArr elems) w) wanted
      = Normal (List.filter (record_has (js "habitat") wanted) elems)
   /\ getByRarity (with_animals (Json.JArr elems) w) wanted
      = Normal (List.filter (record_has (js "rarity") wanted) elems))
  /\ (forall out : list Json.value,
        getByCategory (with_animals (Json.JArr elems) w) wanted = Normal out ->
        sublist out elems
        /\ forall r, r ∈ out <-> r ∈ elems /\ record_has (js "category") wanted r = true)
  /\ (Json.JNull ∈ elems ->
      getByCategory (with_animals (Json.JArr elems) w) wanted = Throw TypeError
      /\ getByHabitat (with_animals (Json.JArr elems) w) wanted = Throw TypeError
      /\ getByRarity (with_animals (Json.JArr elems) w) wanted = Throw TypeError)
  /\ (forall v : Json.value,
        (forall xs, v <> Json.JArr xs) ->
        getByCategory (with_animals v w) wanted = Throw TypeError
        /\ getByHabitat (with_animals v w) wanted = Throw TypeError
        /\ getByRarity (with_animals v w) wanted = Throw TypeError
        /\ getById (with_animals v w) wanted = Throw TypeError
        /\ getGKSoundAnimals (with_animals v w) = Throw TypeError).
Proof.
  split; [|split; [|split]].
  - intros H. unfold getByCategory, getByHabitat, getByRarity.
    cbn [animals with_animals array_of]. rewrite !array_filter_records by exact H.
    repeat split.
  - intros out Hout. unfold getByCategory in Hout. cbn [animals with_animals array_of] in Hout.
    assert (Hnn : Forall (fun r => r <> Json.JNull) elems).
    { apply Forall_forall. intros r Hr ->.
      rewrite array_filter_null in Hout by exact Hr. discriminate Hout. }
    rewrite array_filter_records in Hout by exact Hnn. injection Hout as <-.
    split; [apply filter_sublist|].
    intros r. rewrite list_elem_of_In, filter_In, <- list_elem_of_In. reflexivity.
  - intros H. unfold getByCategory, getByHabitat, getByRarity.
    cbn [animals with_animals array_of]. rewrite !array_filter_null by exact H.
    repeat split.
  - intros v Hv. unfold getByCategory, getByHabitat, getByRarity, getById, getGKSoundAnimals.
    cbn [animals with_animals].
    destruct v; try (repeat split; reflexivity). contradiction (Hv elems0). reflexivity.
Qed.

Lemma getById_first_match_witness :
  getById (with_animals (Json.JArr catalog_with_null) empty_store_world) (js "a")
  = Normal record_a
  /\ getById (with_animals (Json.JArr catalog_with_null) empty_store_world) (js "b")
     = Throw TypeError
  /\ getById (with_animals (Json.JArr [record_a]) empty_store_world) (js "b")
     = Normal Json.JNull.
Proof.
  destruct (getById_first_match empty_store_world catalog_with_null (js "a"))
    as (Hfound & _).
  destruct (getById_first_match empty_store_world catalog_with_null (js "b"))
    as (_ & _ & Hnull & _).
  destruct (getById_first_match empty_store_world [record_a] (js "b")) as (_ & Hnone & _).
  split; [|split].
  - apply (Hfound [] [Json.JNull; record_b] record_a); [reflexivity|constructor|reflexivity].
  - apply (Hnull [record_a] [record_b]); [reflexivity|].
    constructor; [|constructor]. split; [discriminate|reflexivity].
  - apply Hnone. constructor; [|constructor]. split; [discriminate|reflexivity].
Defined.

Lemma filters_select_in_order_witness :
  getByCategory (with_animals (Json.JArr [record_a; record_b]) empty_store_world) (js "deadly")
  = Normal [record_a]
  /\ getByCategory (with_animals (Json.JArr catalog_with_null) empty_store_world) (js "deadly")
     = Throw TypeError
  /\ getById (with_animals (Json.JObj []) empty_store_world) (js "a") = Throw TypeError.
Proof.
  destruct (filters_select_in_order empty_store_world [record_a; record_b] (js "deadly"))
    as (Hsel & _).
  destruct (filters_select_in_order empty_store_world catalog_with_null (js "deadly"))
    as (_ & _ & Hnull & _).
  destruct (filters_select_in_order empty_store_world [] (js "a")) as (_ & _ & _ & Hobj).
  split; [|split].
  - destruct Hsel as (H & _); [|exact H].
    constructor; [discriminate|]. constructor; [discriminate|constructor].
  - destruct Hnull as (H & _); [|exact H].
    apply elem_of_cons. right. apply list_elem_of_here.
  - destruct (Hobj (Json.JObj [])) as (_ & _ & _ & H & _); [discriminate|exact H].
Defined.

(** X14: the queries answer from what [loadAnimals] cached. After a load
    that failed (source unreachable, status not ok, body not JSON) the
    catalog is still the empty array of the start: [getAll] and the
    filters return the empty list and [getById] null, with no error. After
    a load that brought an array, [getAll] returns the elements of that
    array and [getById] searches them. *)
Theorem queries_follow_the_load (w : world) (wanted : jsstring) :
  loaded w = false ->
  animals w = Json.JArr [] ->
  (forall e : error,
     load_error (next_outcome w) = Some e ->
     getAll (AnimalData.loadAnimals w).2 = Normal []
     /\ getById (AnimalData.loadAnimals w).2 wanted = Normal Json.JNull
     /\ getByCategory (AnimalData.loadAnimals w).2 wanted = Normal []
     /\ getByHabitat (AnimalData.loadAnimals w).2 wanted = Normal []
     /\ getByRarity (AnimalData.loadAnimals w).2 wanted = Normal []
     /\ getGKSoundAnimals (AnimalData.loadAnimals w).2 = Normal [])
  /\ (forall (status : N) (body : jsstring) (elems : list Json.value),
        next_outcome w = Response true status body ->
        Json.parse body = Some (Json.JArr elems) ->
        (AnimalData.loadAnimals w).1 = Normal (Json.JArr elems)
        /\ getAll (AnimalData.loadAnimals w).2 = Normal elems
        /\ getById (AnimalData.loadAnimals w).2 wanted
           = getById (with_animals (Json.JArr elems) w) wanted).
Proof.
  intros Hl Ha. split.
  - intros e He. rewrite (loadAnimals_failure w e Hl He). cbn [snd].
    unfold getAll, getById, getByCategory, getByHabitat, getByRarity, getGKSoundAnimals.
    cbn [animals with_console after_fetch with_network]. rewrite Ha.
    repeat split.
  - intros status body elems Ho Hp.
    rewrite (loadAnimals_success w status body (Json.JArr elems) Hl Ho Hp) by discriminate.
    cbn [fst snd]. repeat split.
Qed.

Lemma queries_follow_the_load_witness :
  getById (AnimalData.loadAnimals (world_with_network [Unreachable])).2 (js "a")
  = Normal Json.JNull
  /\ getAll (AnimalData.loadAnimals (world_with_network [Response true 200 (js "[true]")])).2
     = Normal [Json.JBool true].
Proof.
  destruct (queries_follow_the_load (world_with_network [Unreachable]) (js "a")
              eq_refl eq_refl) as [Hfail _].
  destruct (queries_follow_the_load (world_with_network [Response true 200 (js "[true]")])
              (js "a") eq_refl eq_refl) as [_ Hok].
  split.
  - destruct (Hfail NetworkError eq_refl) as (_ & H & _). exact H.
  - destruct (Hok 200%N (js "[true]") [Json.JBool true] eq_refl) as (_ & H & _).
    + vm_compute. reflexivity.
    + exact H.
Defined.

End Queries.
(* ===================================================================== *)
(** * The voice *)
(* ===================================================================== *)

Section Voices.

Import SpeechSynthesis.

Lemma find_passes {A : Type} (f : A -> bool) (pre rest : list A) :
  Forall (fun x => f x = false) pre -> find f (pre ++ rest) = find f rest.
Proof.
  induction pre as [|x pre IH]; intros H; [reflexivity|].
  apply Forall_cons in H. destruct H as [Hx H].
  cbn [app find]. rewrite Hx. apply IH, H.
Qed.

Lemma find_none {A : Type} (f : A -> bool) (l : list A) :
  Forall (fun x => f x = false) l -> find f l = None.
Proof. intros H. rewrite <- (app_nil_r l), find_passes by exact H. reflexivity. Qed.

Lemma find_elem {A : Type} (f : A -> bool) (l : list A) (x : A) :
  find f l = Some x -> x ∈ l /\ f x = true.
Proof.
  intros H. apply find_some in H. destruct H as [H1 H2].
  split; [apply list_elem_of_In, H1|exact H2].
Qed.

(** X15: [getBestVoice] returns null exactly when there is no voice;
    otherwise one of the voices: the first whose language is en-AU when
    there is one, else the first whose language starts with en, else the
    first voice of the list. *)
Theorem getBestVoice_prefers_australian (voices : list voice) :
  (SpeechControl.getBestVoice voices = None <-> voices = [])
  /\ (forall v, SpeechControl.getBestVoice voices = Some v -> v ∈ voices)
  /\ (forall pre v post,
        voices = pre ++ v :: post ->
        Forall (fun x => lang x <> js "en-AU") pre ->
        lang v = js "en-AU" ->
        SpeechControl.getBestVoice voices = Some v)
  /\ (forall pre v post,
        voices = pre ++ v :: post ->
        Forall (fun x => lang x <> js "en-AU") voices ->
        Forall (fun x => StringMethods.startsWith (lang x) (js "en") = false) pre ->
        StringMethods.startsWith (lang v) (js "en") = true ->
        SpeechControl.getBestVoice voices = Some v)
  /\ (Forall (fun x => StringMethods.startsWith (lang x) (js "en") = false) voices ->
      SpeechControl.getBestVoice voices = head voices).
Proof.
  assert (Hau : forall l : list voice,
            Forall (fun x => lang x <> js "en-AU") l ->
            Forall (fun x => JsString.eqb (lang x) (js "en-AU") = false) l).
  { intros l H. eapply Forall_impl; [exact H|].
    intros x Hx. apply bool_decide_eq_false_2, Hx. }
  split; [|split; [|split; [|split]]].
  - split.
    + destruct voices as [|first rest]; [reflexivity|].
      unfold SpeechControl.getBestVoice.
      destruct (find (fun v => JsString.eqb (lang v) (js "en-AU")) (first :: rest));
        [discriminate|].
      destruct (find (fun v => StringMethods.startsWith (lang v) (js "en")) (first :: rest));
        discriminate.
    + intros ->. reflexivity.
  - intros v. destruct voices as [|first rest]; [discriminate|].
    unfold SpeechControl.getBestVoice.
    destruct (find (fun v => JsString.eqb (lang v) (js "en-AU")) (first :: rest))
      as [aussie|] eqn:Ha.
    { intros Hv. injection Hv as <-. apply (find_elem _ _ _ Ha). }
    destruct (find (fun v => StringMethods.startsWith (lang v) (js "en")) (first :: rest))
      as [english|] eqn:He.
    { intros Hv. injection Hv as <-. apply (find_elem _ _ _ He). }
    intros Hv. injection Hv as <-. apply list_elem_of_here.
  - intros pre v post -> Hpre Hv.
    assert (Hfind : find (fun x => JsString.eqb (lang x) (js "en-AU")) (pre ++ v :: post)
                    = Some v).
    { rewrite find_passes by apply Hau, Hpre. cbn [find].
      unfold JsString.eqb. rewrite bool_decide_eq_true_2 by exact Hv. reflexivity. }
    unfold SpeechControl.getBestVoice. rewrite Hfind.
    destruct (pre ++ v :: post) eqn:E; [|reflexivity].
    destruct pre; discriminate E.
  - intros pre v post -> Hnone Hpre Hv.
    unfold SpeechControl.getBestVoice.
    rewrite (find_none _ _ (Hau _ Hnone)).
    rewrite find_passes by exact Hpre. cbn [find]. rewrite Hv.
    destruct (pre ++ v :: post) eqn:E; [|reflexivity].
    destruct pre; discriminate E.
  - intros Hnone. destruct voices as [|first rest]; [reflexivity|].
    unfold SpeechControl.getBestVoice.
    rewrite (find_none (fun x => StringMethods.startsWith (lang x) (js "en")) _ Hnone).
    rewrite find_none; [reflexivity|].
    eapply Forall_impl; [exact Hnone|]. intros x Hx.
    apply bool_decide_eq_false_2. intros Hl. cbn beta in Hx. rewrite Hl in Hx.
    discriminate Hx.
Qed.

Lemma getBestVoice_prefers_australian_witness :
  SpeechControl.getBestVoice
    [ {| lang := js "fr-FR"; voiceURI := js "Amelie" |};
      {| lang := js "en-GB"; voiceURI := js "Daniel" |};
      {| lang := js "en-AU"; voiceURI := js "Karen" |} ]
  = Some {| lang := js "en-AU"; voiceURI := js "Karen" |}
  /\ SpeechControl.getBestVoice
       [ {| lang := js "fr-FR"; voiceURI := js "Amelie" |};
         {| lang := js "en-GB"; voiceURI := js "Daniel" |} ]
     = Some {| lang := js "en-GB"; voiceURI := js "Daniel" |}.
Proof.
  split.
  - apply (proj1 (proj2 (proj2 (getBestVoice_prefers_australian _)))
             [ {| lang := js "fr-FR"; voiceURI := js "Amelie" |};
               {| lang := js "en-GB"; voiceURI := js "Daniel" |} ]
             {| lang := js "en-AU"; voiceURI := js "Karen" |} []).
    + reflexivity.
    + repeat constructor; discriminate.
    + reflexivity.
  - apply (proj1 (proj2 (proj2 (proj2 (getBestVoice_prefers_australian _))))
             [ {| lang := js "fr-FR"; voiceURI := js "Amelie" |} ]
             {| lang := js "en-GB"; voiceURI := js "Daniel" |} []).
    + reflexivity.
    + repeat constructor; discriminate.
    + repeat constructor.
    + reflexivity.
Defined.

End Voices.

(* ===================================================================== *)
(** * Speaking and stopping *)
(* ===================================================================== *)

Lemma of_completion_bind {A B : Type} (c : completion A) (k : A -> P B) (p : page) :
  (of_completion c ≫= k) p
  = match c with
    | Normal a => k a p
    | Throw e => (Throw e, p)
    end.
Proof. destruct c; reflexivity. Qed.

Lemma updateSpeakButton_eq (b : bool) (p : page) :
  SpeechControl.updateSpeakButton b p = (Normal tt, (SpeechControl.updateSpeakButton b p).2).
Proof. reflexivity. Qed.

Lemma stop_eq (p : page) :
  synth p = true -> SpeechControl.stop p = (Normal tt, silenced p).
Proof.
  intros H. unfold SpeechControl.stop, silenced. rewrite read_bind, H.
  rewrite update_doc_bind, update_bind. reflexivity.
Qed.

Lemma silenced_synthesiser (p : page) :
  speechSynthesis (doc (silenced p)) = SpeechSynthesis.cancel <$> speechSynthesis (doc p).
Proof.
  unfold silenced, SpeechControl.updateSpeakButton, update_doc, update. cbn.
  destruct (btn_speak (doc p)); reflexivity.
Qed.

Lemma silenced_variables (p : page) :
  synth (silenced p) = synth p /\ supported (silenced p) = supported p
  /\ voices (silenced p) = voices p /\ speaking (silenced p) = false
  /\ currentAnimal (silenced p) = currentAnimal p
  /\ world_of (silenced p) = world_of p /\ markers (silenced p) = markers p.
Proof. repeat split. Qed.

Lemma silenced_pending (p : page) : pending_utterances (silenced p) = [].
Proof.
  unfold pending_utterances. rewrite silenced_synthesiser.
  destruct (speechSynthesis (doc p)); reflexivity.
Qed.

Lemma speak_eq (text : jsstring) (opts : SpeechControl.options) (p : page)
    (s : SpeechSynthesis.t) :
  speech_ready s p ->
  SpeechControl.speak text opts p
  = match SpeechSynthesis.to_float
            (SpeechControl.or_default (SpeechControl.opt_rate opts)
               (JsNumber.of_decimal false 9 (-1))),
          SpeechSynthesis.to_float
            (SpeechControl.or_default (SpeechControl.opt_pitch opts) (JsNumber.of_Z 1)),
          SpeechSynthesis.to_float
            (SpeechControl.or_default (SpeechControl.opt_volume opts) (JsNumber.of_Z 1))
    with
    | Normal rate, Normal pitch, Normal volume =>
        (Normal tt,
         set_doc
           (set_speechSynthesis
              (Some {| SpeechSynthesis.pending :=
                         [ {| SpeechSynthesis.text := text;
                              SpeechSynthesis.voice_set :=
                                SpeechControl.getBestVoice (voices p);
                              SpeechSynthesis.rate := rate;
                              SpeechSynthesis.pitch := pitch;
                              SpeechSynthesis.volume := volume |} ];
                       SpeechSynthesis.installed := SpeechSynthesis.installed s |})
              (doc (silenced p)))
           (silenced p))
    | Throw e, _, _ | Normal _, Throw e, _ | Normal _, Normal _, Throw e =>
        (Throw e, silenced p)
    end.
Proof.
  intros (Hok & Hset & Hs). unfold SpeechControl.speak.
  rewrite !read_bind, Hok, Hset. cbn [negb orb].
  erewrite bind_normal; [|apply stop_eq, Hset].
  rewrite read_bind, !of_completion_bind.
  destruct (SpeechSynthesis.to_float _) as [rate|e]; [|reflexivity].
  rewrite of_completion_bind.
  destruct (SpeechSynthesis.to_float _) as [pitch|e]; [|reflexivity].
  rewrite of_completion_bind.
  destruct (SpeechSynthesis.to_float _) as [volume|e]; [|reflexivity].
  erewrite bind_normal.
  2:{ unfold SpeechControl.the_synth. rewrite !read_bind.
      rewrite silenced_synthesiser, Hs. cbn [fmap option_fmap option_map].
      change (synth (silenced p)) with (synth p). rewrite Hset. reflexivity. }
  reflexivity.
Qed.

(** X16: [speak] never adds to what is being said. With the synthesiser
    found by [init], a call whose options convert cancels whatever was
    pending and hands over exactly one utterance: the given text, the
    best voice, and the rate, pitch and volume asked for or 0.9, 1 and 1;
    the module is not speaking until the utterance starts. Nothing of the
    page but the synthesiser, the flag and the speak button changes. *)
Theorem speak_replaces_what_is_pending (text : jsstring) (opts : SpeechControl.options)
    (p : page) (s : SpeechSynthesis.t) (rate pitch volume : spec_float) :
  speech_ready s p ->
  SpeechSynthesis.to_float
    (SpeechControl.or_default (SpeechControl.opt_rate opts) (JsNumber.of_decimal false 9 (-1)))
  = Normal rate ->
  SpeechSynthesis.to_float
    (SpeechControl.or_default (SpeechControl.opt_pitch opts) (JsNumber.of_Z 1))
  = Normal pitch ->
  SpeechSynthesis.to_float
    (SpeechControl.or_default (SpeechControl.opt_volume opts) (JsNumber.of_Z 1))
  = Normal volume ->
  let p' := (SpeechControl.speak text opts p).2 in
  (SpeechControl.speak text opts p).1 = Normal tt
  /\ pending_utterances p'
     = [ {| SpeechSynthesis.text := text;
            SpeechSynthesis.voice_set := SpeechControl.getBestVoice (voices p);
            SpeechSynthesis.rate := rate;
            SpeechSynthesis.pitch := pitch;
            SpeechSynthesis.volume := volume |} ]
  /\ speaking p' = false
  /\ world_of p' = world_of p /\ markers p' = markers p
  /\ currentAnimal p' = currentAnimal p
  /\ animal_modal (doc p') = animal_modal (doc p)
  /\ btn_collect (doc p') = btn_collect (doc p).
Proof.
  intros Hready Hr Hp Hv. cbn zeta. rewrite (speak_eq text opts p s Hready), Hr, Hp, Hv.
  cbn [fst snd]. unfold pending_utterances.
  cbn [doc set_doc speechSynthesis set_speechSynthesis SpeechSynthesis.pending
       animal_modal btn_collect].
  split; [reflexivity|]. split; [reflexivity|].
  repeat (split; [reflexivity|]).
  unfold silenced, SpeechControl.updateSpeakButton, update_doc, update. cbn.
  destruct (btn_speak (doc p)); split; reflexivity.
Qed.

Lemma speak_replaces_what_is_pending_witness :
  pending_utterances
    (SpeechControl.speak (js "Quoll") SpeechControl.no_options
       (SpeechControl.speak (js "Emu") SpeechControl.no_options initialised_page).2).2
  = [ default_utterance (js "Quoll")
        (Some {| SpeechSynthesis.lang := js "en-AU"; SpeechSynthesis.voiceURI := js "Karen" |}) ].
Proof.
  destruct (speak_replaces_what_is_pending (js "Quoll") SpeechControl.no_options
              (SpeechControl.speak (js "Emu") SpeechControl.no_options initialised_page).2
              {| SpeechSynthesis.pending :=
                   [ default_utterance (js "Emu")
                       (Some {| SpeechSynthesis.lang := js "en-AU";
                                SpeechSynthesis.voiceURI := js "Karen" |}) ];
                 SpeechSynthesis.installed :=
                   [ {| SpeechSynthesis.lang := js "en-GB"; SpeechSynthesis.voiceURI := js "Daniel" |};
                     {| SpeechSynthesis.lang := js "en-AU"; SpeechSynthesis.voiceURI := js "Karen" |} ] |}
              single_0_9 single_1 single_1) as (_ & H & _).
  - vm_compute. repeat split.
  - vm_compute. reflexivity.
  - vm_compute. reflexivity.
  - vm_compute. reflexivity.
  - rewrite H. vm_compute. reflexivity.
Defined.

Lemma or_default_truthy (x : option jsnumber) (d : jsnumber) :
  SpeechControl.or_default (truthy_option x) d = SpeechControl.or_default x d.
Proof. destruct x as [[]|]; reflexivity. Qed.

(** X17: an option of zero or NaN is no option. [speak] reads each option
    through [||], so a rate, pitch or volume of 0 (or NaN) gives the same
    call as leaving the option out: the default 0.9, 1 or 1 is used, and
    a volume of 0 cannot be asked for. An infinite rate is passed on and
    refused by the utterance: the call throws a TypeError after it has
    cancelled what was pending, and nothing is said. *)
Theorem speak_takes_zero_for_missing (text : jsstring) (opts : SpeechControl.options)
    (p : page) :
  SpeechControl.speak text opts p = SpeechControl.speak text (truthy_options opts) p
  /\ (forall (s : SpeechSynthesis.t) (negative : bool),
        speech_ready s p ->
        SpeechControl.opt_rate opts = Some (S754_infinity negative) ->
        (SpeechControl.speak text opts p).1 = Throw TypeError
        /\ pending_utterances (SpeechControl.speak text opts p).2 = []
        /\ speaking (SpeechControl.speak text opts p).2 = false).
Proof.
  split.
  - unfold SpeechControl.speak, truthy_options.
    cbn [SpeechControl.opt_rate SpeechControl.opt_pitch SpeechControl.opt_volume].
    rewrite !or_default_truthy. reflexivity.
  - intros s negative Hready Hrate. rewrite (speak_eq text opts p s Hready), Hrate.
    cbn [SpeechControl.or_default SpeechSynthesis.to_float fst snd].
    split; [reflexivity|]. split; [apply silenced_pending|reflexivity].
Qed.

Lemma speak_takes_zero_for_missing_witness :
  pending_utterances
    (SpeechControl.speak (js "Emu")
       {| SpeechControl.opt_rate := Some (JsNumber.of_Z 0);
          SpeechControl.opt_pitch := None;
          SpeechControl.opt_volume := Some (JsNumber.of_Z 0) |} initialised_page).2
  = pending_utterances (SpeechControl.speak (js "Emu") SpeechControl.no_options initialised_page).2
  /\ (SpeechControl.speak (js "Emu")
        {| SpeechControl.opt_rate := Some (S754_infinity false);
           SpeechControl.opt_pitch := None;
           SpeechControl.opt_volume := None |} initialised_page).1
     = Throw TypeError.
Proof.
  split.
  - rewrite (proj1 (speak_takes_zero_for_missing (js "Emu")
                      {| SpeechControl.opt_rate := Some (JsNumber.of_Z 0);
                         SpeechControl.opt_pitch := None;
                         SpeechControl.opt_volume := Some (JsNumber.of_Z 0) |}
                      initialised_page)).
    reflexivity.
  - refine (proj1 (proj2 (speak_takes_zero_for_missing (js "Emu")
                            {| SpeechControl.opt_rate := Some (S754_infinity false);
                               SpeechControl.opt_pitch := None;
                               SpeechControl.opt_volume := None |}
                            initialised_page)
                     {| SpeechSynthesis.pending := [];
                        SpeechSynthesis.installed :=
                          [ {| SpeechSynthesis.lang := js "en-GB";
                               SpeechSynthesis.voiceURI := js "Daniel" |};
                            {| SpeechSynthesis.lang := js "en-AU";
                               SpeechSynthesis.voiceURI := js "Karen" |} ] |}
                     false _ eq_refl)).
    vm_compute. repeat split.
Defined.

(** ** The speak button *)

Section SpeakClick.

Variable toUpperCase : jsstring -> jsstring.

(** X18: the speak button toggles. While the module is speaking, a click
    stops: nothing is pending afterwards and the flag is down, whether a
    card is open or not. While it is not speaking, a click with no card
    open changes nothing, and a click with a card open hands over one
    utterance, the narration text of the animal at rate 0.9, pitch 1 and
    volume 1 in the best voice, in place of whatever was pending. *)
Theorem speak_click_toggles (p : page) (s : SpeechSynthesis.t) :
  speech_ready s p ->
  (speaking p = true ->
   SpeechControl.handleSpeakClick toUpperCase p = (Normal tt, silenced p)
   /\ pending_utterances (silenced p) = []
   /\ speaking (silenced p) = false)
  /\ (speaking p = false -> currentAnimal p = None ->
      SpeechControl.handleSpeakClick toUpperCase p = (Normal tt, p))
  /\ (forall a : animal,
        speaking p = false -> currentAnimal p = Some a ->
        (SpeechControl.handleSpeakClick toUpperCase p).1 = Normal tt
        /\ pending_utterances (SpeechControl.handleSpeakClick toUpperCase p).2
           = [ default_utterance (Speech.buildSpeechText toUpperCase a)
                 (SpeechControl.getBestVoice (voices p)) ]).
Proof.
  intros Hready. unfold SpeechControl.handleSpeakClick.
  split; [|split].
  - intros Hs. rewrite read_bind, Hs.
    rewrite (stop_eq p (proj1 (proj2 Hready))).
    split; [reflexivity|]. split; [apply silenced_pending|reflexivity].
  - intros Hs Hc. rewrite read_bind, Hs. unfold Cards_getCurrentAnimal.
    rewrite read_bind, Hc. reflexivity.
  - intros a Hs Hc. rewrite read_bind, Hs. unfold Cards_getCurrentAnimal.
    rewrite read_bind, Hc. rewrite (speak_eq _ _ p s Hready).
    change (SpeechSynthesis.to_float
              (SpeechControl.or_default (SpeechControl.opt_rate SpeechControl.no_options)
                 (JsNumber.of_decimal false 9 (-1))))
      with (@Normal spec_float single_0_9).
    change (SpeechSynthesis.to_float
              (SpeechControl.or_default (SpeechControl.opt_pitch SpeechControl.no_options)
                 (JsNumber.of_Z 1)))
      with (@Normal spec_float single_1).
    change (SpeechSynthesis.to_float
              (SpeechControl.or_default (SpeechControl.opt_volume SpeechControl.no_options)
                 (JsNumber.of_Z 1)))
      with (@Normal spec_float single_1).
    cbn [fst snd]. split; reflexivity.
Qed.

End SpeakClick.

Lemma speak_click_toggles_witness :
  pending_utterances
    (SpeechControl.handleSpeakClick (fun s => s)
       (set_currentAnimal (Some quoll) initialised_page)).2
  = [ default_utterance (Speech.buildSpeechText (fun s => s) quoll)
        (Some {| SpeechSynthesis.lang := js "en-AU"; SpeechSynthesis.voiceURI := js "Karen" |}) ]
  /\ SpeechControl.handleSpeakClick (fun s => s) initialised_page
     = (Normal tt, initialised_page).
Proof.
  destruct (speak_click_toggles (fun s => s) (set_currentAnimal (Some quoll) initialised_page)
              {| SpeechSynthesis.pending := [];
                 SpeechSynthesis.installed :=
                   [ {| SpeechSynthesis.lang := js "en-GB"; SpeechSynthesis.voiceURI := js "Daniel" |};
                     {| SpeechSynthesis.lang := js "en-AU"; SpeechSynthesis.voiceURI := js "Karen" |} ] |})
    as (_ & _ & Hcard); [vm_compute; repeat split|].
  destruct (speak_click_toggles (fun s => s) initialised_page
              {| SpeechSynthesis.pending := [];
                 SpeechSynthesis.installed :=
                   [ {| SpeechSynthesis.lang := js "en-GB"; SpeechSynthesis.voiceURI := js "Daniel" |};
                     {| SpeechSynthesis.lang := js "en-AU"; SpeechSynthesis.voiceURI := js "Karen" |} ] |})
    as (_ & Hnone & _); [vm_compute; repeat split|].
  split.
  - destruct (Hcard quoll eq_refl eq_refl) as [_ H]. rewrite H. vm_compute. reflexivity.
  - apply Hnone; reflexivity.
Defined.

(** ** One utterance at most *)

Ltac pending_side :=
  idtac;
  match goal with
  | H : at_most_one_pending _ |- at_most_one_pending _ =>
      revert H;
      unfold at_most_one_pending, pending_utterances, fmap, option_fmap, option_map;
      simpl_page;
      try match goal with
          | |- context [btn_speak (doc ?q)] => destruct (btn_speak (doc q)) eqn:?; simpl_page
          end;
      repeat match goal with
             | |- context [match ?x with _ => _ end] =>
                 lazymatch x with
                 | context [match _ with _ => _ end] => fail
                 | _ => destruct x eqn:?; simpl_page
                 end
             end;
      cbn [length SpeechSynthesis.pending SpeechSynthesis.cancel];
      intros; first [assumption | lia]
  end.

Lemma speak_keeps_one (text : jsstring) (opts : SpeechControl.options) :
  keeps at_most_one_pending (SpeechControl.speak text opts).
Proof.
  intros p H. unfold SpeechControl.speak. rewrite !read_bind.
  destruct (supported p) eqn:Hok; [|exact H].
  destruct (synth p) eqn:Hset; [|exact H].
  cbn [negb orb]. erewrite bind_normal; [|apply stop_eq, Hset].
  assert (Hquiet : at_most_one_pending (silenced p)).
  { unfold at_most_one_pending. rewrite silenced_pending. cbn. lia. }
  rewrite read_bind, !of_completion_bind.
  destruct (SpeechSynthesis.to_float _) as [rate|e]; [|exact Hquiet].
  rewrite of_completion_bind.
  destruct (SpeechSynthesis.to_float _) as [pitch|e]; [|exact Hquiet].
  rewrite of_completion_bind.
  destruct (SpeechSynthesis.to_float _) as [volume|e]; [|exact Hquiet].
  unfold SpeechControl.the_synth. rewrite P_bind_eq, !read_bind.
  rewrite silenced_synthesiser. change (synth (silenced p)) with (synth p). rewrite Hset.
  destruct (speechSynthesis (doc p)) as [s|]; [|exact Hquiet].
  cbn. unfold at_most_one_pending, pending_utterances. cbn. lia.
Qed.

Section NeverQueues.

Variable toUpperCase : jsstring -> jsstring.
Variable regexp_replace :
  forall (pattern flags subject replacement : jsstring), completion jsstring.
Variable catalog : list animal.

Lemma listener_keeps_one (ev : Handlers.event) :
  keeps at_most_one_pending (Handlers.listener toUpperCase regexp_replace catalog ev).
Proof.
  destruct ev; try (keeps_auto pending_side; fail).
  cbn [Handlers.listener]. unfold SpeechControl.handleSpeakClick.
  apply keeps_bind; [apply keeps_read|]. intros busy. destruct busy.
  - keeps_auto pending_side.
  - apply keeps_bind; [apply keeps_read|]. intros [a|]; [|apply keeps_ret].
    apply speak_keeps_one.
Qed.

(** X19: the module never lets narration pile up. Whatever the user and
    the synthesiser do, in any order (clicks on the speak button, on
    markers, on the collect button, closing the card, the gallery, the
    filters, utterances starting, ending or failing), a synthesiser that
    held one utterance at most still holds one at most; and so after any
    direct call of [speak], [speakName] or [stop]. *)
Theorem narration_never_queues (evs : list Handlers.event) (p : page) :
  at_most_one_pending p ->
  at_most_one_pending (Handlers.after_events toUpperCase regexp_replace catalog evs p)
  /\ (forall text opts, at_most_one_pending (SpeechControl.speak text opts p).2)
  /\ (forall name, at_most_one_pending (SpeechControl.speakName name p).2)
  /\ at_most_one_pending (SpeechControl.stop p).2.
Proof.
  intros H. split; [|split; [|split]].
  - revert p H. unfold Handlers.after_events.
    induction evs as [|ev evs IH]; intros p H; [exact H|].
    cbn [fold_left]. apply IH, listener_keeps_one, H.
  - intros text opts. apply speak_keeps_one, H.
  - intros name. unfold SpeechControl.speakName. apply speak_keeps_one, H.
  - revert p H. change (keeps at_most_one_pending SpeechControl.stop).
    keeps_auto pending_side.
Qed.

End NeverQueues.

Lemma narration_never_queues_witness :
  at_most_one_pending
    (Handlers.after_events (fun s => s) no_regexp [quoll; kookaburra]
       [Handlers.MarkerClick 0; Handlers.SpeakClick; Handlers.SpeakClick;
        Handlers.UtteranceStart; Handlers.MarkerClick 1; Handlers.SpeakClick]
       started_page).
Proof.
  refine (proj1 (narration_never_queues (fun s => s) no_regexp [quoll; kookaburra]
                   [Handlers.MarkerClick 0; Handlers.SpeakClick; Handlers.SpeakClick;
                    Handlers.UtteranceStart; Handlers.MarkerClick 1; Handlers.SpeakClick]
                   started_page _)).
  vm_compute. lia.
Defined.
(* ===================================================================== *)
(** * The card *)
(* ===================================================================== *)

Lemma write_card_eq (f : card_view -> card_view) (p : page) (card : card_view) :
  cards_modal p = true ->
  animal_modal (doc p) = Some card ->
  Cards.write_card f p = (Normal tt, set_doc (set_animal_modal (Some (f card)) (doc p)) p).
Proof.
  intros Hm Hc. unfold Cards.write_card, Cards.the_card.
  erewrite bind_normal; [reflexivity|]. rewrite !read_bind, Hc, Hm. reflexivity.
Qed.

Lemma write_card_missing (f : card_view -> card_view) (p : page) :
  cards_modal p = false -> Cards.write_card f p = (Throw TypeError, p).
Proof.
  intros Hm. unfold Cards.write_card, Cards.the_card.
  erewrite bind_throw; [reflexivity|]. rewrite !read_bind, Hm.
  destruct (animal_modal (doc p)); reflexivity.
Qed.

Lemma write_property_eq (k : card_property) (v : jsstring) (p : page) (card : card_view) :
  cards_modal p = true ->
  animal_modal (doc p) = Some card ->
  Cards.write_property k v p
  = (Normal tt,
     set_doc (set_animal_modal (Some (card_props (<[k := v]> (props card)) card)) (doc p)) p).
Proof.
  intros Hm Hc. unfold Cards.write_property.
  exact (write_card_eq (fun c => card_props (<[k := v]> (props c)) c) p card Hm Hc).
Qed.

Lemma facts_appended (fs : list jsstring) :
  forall (q : page) (card : card_view),
    cards_modal q = true ->
    animal_modal (doc q) = Some card ->
    for_each (fun fact =>
                Cards.write_card (fun card => card_factsList (factsList card ++ [fact]) card))
             fs q
    = (Normal tt,
       set_doc (set_animal_modal (Some (card_factsList (factsList card ++ fs) card)) (doc q)) q).
Proof.
  induction fs as [|fact fs IH]; intros q card Hm Hc.
  - cbn [for_each]. rewrite app_nil_r. destruct q as [? ? ? ? ? ? ? ? ? ? ? d ? ?].
    cbn in Hc. destruct d. cbn in Hc. subst. destruct card. reflexivity.
  - cbn [for_each]. erewrite bind_normal; [|apply (write_card_eq _ q card Hm Hc)].
    erewrite IH; [|exact Hm|reflexivity].
    cbn [factsList card_factsList]. rewrite <- app_assoc. reflexivity.
Qed.

Lemma focus_speak_button_eq (p : page) (b : speak_button) :
  cards_modal p = true ->
  btn_speak (doc p) = Some b ->
  Cards.focus_speak_button p
  = (Normal tt,
     set_doc (set_btn_speak
                (Some {| speak_class := speak_class b; speak_innerHTML := speak_innerHTML b;
                         speak_display := speak_display b;
                         speak_focus_calls := S (speak_focus_calls b) |}) (doc p)) p).
Proof.
  intros Hm Hb. unfold Cards.focus_speak_button. rewrite !read_bind, Hb, Hm. reflexivity.
Qed.

Lemma write_collect_button_eq (b : collect_button) (p : page) :
  cards_modal p = true ->
  is_Some (btn_collect (doc p)) ->
  Cards.write_collect_button b p = (Normal tt, set_doc (set_btn_collect (Some b) (doc p)) p).
Proof.
  intros Hm [old Hb]. unfold Cards.write_collect_button. rewrite !read_bind, Hb, Hm.
  reflexivity.
Qed.

Lemma collect_button_shown (c : bool) (p : page) :
  cards_modal p = true ->
  is_Some (btn_collect (doc p)) ->
  (if c
   then Cards.write_collect_button
          {| collect_disabled := true; collect_innerHTML := Cards.COLLECTED_HTML |}
   else Cards.write_collect_button
          {| collect_disabled := false; collect_innerHTML := Cards.COLLECT_HTML |}) p
  = (Normal tt,
     set_doc
       (set_btn_collect
          (Some {| collect_disabled := c;
                   collect_innerHTML :=
                     if c then Cards.COLLECTED_HTML else Cards.COLLECT_HTML |})
          (doc p)) p).
Proof. intros Hm Hb. destruct c; apply write_collect_button_eq; assumption. Qed.

(** One write of [show] that succeeds *)
Ltac card_step :=
  cbn beta;
  erewrite bind_normal;
  [| first [ apply write_property_eq | apply write_card_eq ];
     simpl_page; first [ eassumption | reflexivity ] ];
  cbn beta.

Ltac card_lookup :=
  repeat (rewrite lookup_insert_ne by discriminate); apply lookup_insert_eq.

Section ShowCard.

Variable toUpperCase : jsstring -> jsstring.
Variable regexp_replace :
  forall (pattern flags subject replacement : jsstring), completion jsstring.

(** [show] up to the list of facts: the current animal is set and the
    texts, classes and widths are written. *)
Lemma show_prefix (a : animal) (p : page) (card : card_view) :
  cards_modal p = true ->
  animal_modal (doc p) = Some card ->
  exists card1 : card_view,
    let p1 := set_doc (set_animal_modal (Some card1) (doc p))
                (set_currentAnimal (Some a) p) in
    (forall (c : bool),
       Cards.show toUpperCase regexp_replace a c p
       = (match facts a with
          | None => raise TypeError
          | Some fs =>
              for_each (fun fact =>
                          Cards.write_card
                            (fun card => card_factsList (factsList card ++ [fact]) card))
                       fs
          end ≫= fun _ => show_rest toUpperCase regexp_replace a c) p1)
    /\ factsList card1 = []
    /\ speechPractice_hidden card1 = speechPractice_hidden card
    /\ modal_class card1 = modal_class card
    /\ modal_aria_hidden card1 = modal_aria_hidden card
    /\ props card1 !! Name_textContent = Some (name a)
    /\ props card1 !! Image_src = Some (image a)
    /\ props card1 !! Image_alt = Some (name a)
    /\ props card1 !! Habitat_textContent = Some (habitat a)
    /\ props card1 !! Rarity_textContent = Some (Cards.capitalize toUpperCase (rarity a))
    /\ props card1 !! Rarity_className = Some (js "card__rarity card__rarity--" ++ rarity a)
    /\ props card1 !! Type_textContent
       = Some (if JsString.eqb (category a) (js "dinosaur") then js "Dinosaur" else js "Deadly")
    /\ props card1 !! Card_className = Some (js "modal__content card card--" ++ rarity a)
    /\ props card1 !! StatSize_width = Some (stat_width (stats a).1.1)
    /\ props card1 !! StatSpeed_width = Some (stat_width (stats a).1.2)
    /\ props card1 !! StatDanger_width = Some (stat_width (stats a).2)
    /\ props card1 !! Phonetic_innerHTML = props card !! Phonetic_innerHTML
    /\ props card1 !! SpeechTip_textContent = props card !! SpeechTip_textContent.
Proof.
  intros Hm Hc. eexists. cbn zeta. split.
  - intros c. unfold Cards.show, Cards.setStatBar. rewrite update_bind.
    match goal with |- _ = ?r => set (rhs := r) end.
    do 12 (card_step; simpl_page).
    subst rhs. reflexivity.
  - cbn [props factsList speechPractice_hidden modal_class modal_aria_hidden
         card_props card_factsList].
    unfold stat_width.
    repeat (split; [first [reflexivity | card_lookup]|]).
    split; repeat (rewrite lookup_insert_ne by discriminate); reflexivity.
Qed.

(** What a call of [show] that completes leaves *)
Lemma show_completes (a : animal) (isCollected : bool) (p : page)
    (card : card_view) (speak : speak_button) (fs : list jsstring) :
  cards_modal p = true ->
  animal_modal (doc p) = Some card ->
  is_Some (btn_collect (doc p)) ->
  btn_speak (doc p) = Some speak ->
  facts a = Some fs ->
  (forall sp, speechPractice a = Some sp -> hasGKSound sp = true ->
     exists html, Cards.formatPhonetic regexp_replace (phonetic sp) (targetSound sp)
                  = Normal html) ->
  exists card' : card_view,
    Cards.show toUpperCase regexp_replace a isCollected p
    = (Normal tt,
       set_doc
         (set_btn_speak
            (Some {| speak_class := speak_class speak;
                     speak_innerHTML := speak_innerHTML speak;
                     speak_display := speak_display speak;
                     speak_focus_calls := S (speak_focus_calls speak) |})
            (set_btn_collect
               (Some {| collect_disabled := isCollected;
                        collect_innerHTML :=
                          if isCollected then Cards.COLLECTED_HTML else Cards.COLLECT_HTML |})
               (set_animal_modal (Some card') (doc p))))
         (set_currentAnimal (Some a) p))
    /\ props card' !! Name_textContent = Some (name a)
    /\ props card' !! Image_src = Some (image a)
    /\ props card' !! Image_alt = Some (name a)
    /\ props card' !! Habitat_textContent = Some (habitat a)
    /\ props card' !! Rarity_textContent = Some (Cards.capitalize toUpperCase (rarity a))
    /\ props card' !! Type_textContent
       = Some (if JsString.eqb (category a) (js "dinosaur") then js "Dinosaur" else js "Deadly")
    /\ props card' !! StatSize_width = Some (stat_width (stats a).1.1)
    /\ props card' !! StatSpeed_width = Some (stat_width (stats a).1.2)
    /\ props card' !! StatDanger_width = Some (stat_width (stats a).2)
    /\ factsList card' = fs
    /\ speechPractice_hidden card' = negb (practice_applies a)
    /\ (forall sp html,
          speechPractice a = Some sp -> hasGKSound sp = true ->
          Cards.formatPhonetic regexp_replace (phonetic sp) (targetSound sp) = Normal html ->
          props card' !! Phonetic_innerHTML = Some html
          /\ props card' !! SpeechTip_textContent = Some (tip sp))
    /\ ClassList.contains (modal_class card') (js "active") = true
    /\ modal_aria_hidden card' = Some (js "false").
Proof.
  intros Hm Hc Hbtn Hspeak Hfacts Hregexp.
  destruct (show_prefix a p card Hm Hc)
    as (card1 & Hshow & Hf1 & Hh1 & Hmc1 & Hma1 & Hname & Hsrc & Halt & Hhab & Hrar & _
        & Htype & _ & Hsize & Hspeed & Hdanger & _ & _).
  cbn zeta in Hshow. rewrite Hshow, Hfacts. clear Hshow.
  erewrite bind_normal; [|apply facts_appended; simpl_page; [exact Hm|reflexivity]].
  rewrite Hf1. cbn [app]. unfold show_rest, practice_applies.
  assert (Hactive : forall attr, ClassList.contains (ClassList.add attr (js "active"))
                                   (js "active") = true).
  { intros attr. rewrite contains_add by valid_token_literal.
    rewrite bool_decide_eq_true_2 by reflexivity. reflexivity. }
  destruct (speechPractice a) as [sp|] eqn:Hsp; [destruct (hasGKSound sp) eqn:Hgk|].
  - destruct (Hregexp sp eq_refl Hgk) as [html Hhtml].
    cbn beta. rewrite !bind_assoc.
    card_step; simpl_page.
    rewrite !bind_assoc, of_completion_bind, Hhtml.
    cbn beta. rewrite ?bind_assoc. card_step; simpl_page.
    rewrite ?bind_assoc. card_step; simpl_page.
    erewrite bind_normal; [|apply collect_button_shown; simpl_page; assumption].
    simpl_page. do 2 (card_step; simpl_page).
    erewrite focus_speak_button_eq; [|simpl_page; exact Hm|simpl_page; exact Hspeak].
    simpl_page. eexists. split; [reflexivity|].
    cbn [props factsList speechPractice_hidden modal_class modal_aria_hidden
         card_props card_factsList card_speechPractice_hidden card_modal_class
         card_modal_aria_hidden negb].
    repeat (rewrite lookup_insert_ne by discriminate).
    repeat (split; [first [assumption | reflexivity | apply Hactive]|]).
    split; [|split; [apply Hactive|reflexivity]].
    intros sp' html' Hsp' _ Hhtml'. injection Hsp' as <-.
    rewrite Hhtml in Hhtml'. injection Hhtml' as <-.
    split; apply lookup_insert_eq.
  - card_step; simpl_page.
    erewrite bind_normal; [|apply collect_button_shown; simpl_page; assumption].
    simpl_page. do 2 (card_step; simpl_page).
    erewrite focus_speak_button_eq; [|simpl_page; exact Hm|simpl_page; exact Hspeak].
    simpl_page. eexists. split; [reflexivity|].
    cbn [props factsList speechPractice_hidden modal_class modal_aria_hidden
         card_props card_factsList card_speechPractice_hidden card_modal_class
         card_modal_aria_hidden negb].
    repeat (split; [first [assumption | reflexivity | apply Hactive]|]).
    split; [|split; [apply Hactive|reflexivity]].
    intros sp' html' Hsp' Hgk'. injection Hsp' as <-. rewrite Hgk in Hgk'. discriminate Hgk'.
  - card_step; simpl_page.
    erewrite bind_normal; [|apply collect_button_shown; simpl_page; assumption].
    simpl_page. do 2 (card_step; simpl_page).
    erewrite focus_speak_button_eq; [|simpl_page; exact Hm|simpl_page; exact Hspeak].
    simpl_page. eexists. split; [reflexivity|].
    cbn [props factsList speechPractice_hidden modal_class modal_aria_hidden
         card_props card_factsList card_speechPractice_hidden card_modal_class
         card_modal_aria_hidden negb].
    repeat (split; [first [assumption | reflexivity | apply Hactive]|]).
    split; [|split; [apply Hactive|reflexivity]].
    intros sp' html' Hsp'. discriminate Hsp'.
Qed.

(** X20: [show] opens the card of the animal. On a page with the card,
    the collect button and the speak button, for a record with a list of
    facts and a pronunciation pattern the platform accepts (when it has
    practice at all), [show(animal, isCollected)] completes; the card then
    carries the name, image, habitat, capitalised rarity, type and stat
    widths of the record and its facts in order, whatever it showed
    before; the practice section is hidden exactly when the record has no
    practice; the collect button is disabled exactly when [isCollected]
    holds; the modal is active and the speak button was given the focus.
    Nothing else of the page changes. *)
Theorem show_opens_the_card (a : animal) (isCollected : bool) (p : page)
    (card : card_view) (speak : speak_button) (fs : list jsstring) :
  cards_modal p = true ->
  animal_modal (doc p) = Some card ->
  is_Some (btn_collect (doc p)) ->
  btn_speak (doc p) = Some speak ->
  facts a = Some fs ->
  (forall sp, speechPractice a = Some sp -> hasGKSound sp = true ->
     exists html, Cards.formatPhonetic regexp_replace (phonetic sp) (targetSound sp)
                  = Normal html) ->
  exists card' : card_view,
    Cards.show toUpperCase regexp_replace a isCollected p
    = (Normal tt,
       set_doc
         (set_btn_speak
            (Some {| speak_class := speak_class speak;
                     speak_innerHTML := speak_innerHTML speak;
                     speak_display := speak_display speak;
                     speak_focus_calls := S (speak_focus_calls speak) |})
            (set_btn_collect
               (Some {| collect_disabled := isCollected;
                        collect_innerHTML :=
                          if isCollected then Cards.COLLECTED_HTML else Cards.COLLECT_HTML |})
               (set_animal_modal (Some card') (doc p))))
         (set_currentAnimal (Some a) p))
    /\ props card' !! Name_textContent = Some (name a)
    /\ props card' !! Image_src = Some (image a)
    /\ props card' !! Image_alt = Some (name a)
    /\ props card' !! Habitat_textContent = Some (habitat a)
    /\ props card' !! Rarity_textContent = Some (Cards.capitalize toUpperCase (rarity a))
    /\ props card' !! Type_textContent
       = Some (if JsString.eqb (category a) (js "dinosaur") then js "Dinosaur" else js "Deadly")
    /\ props card' !! StatSize_width = Some (stat_width (stats a).1.1)
    /\ props card' !! StatSpeed_width = Some (stat_width (stats a).1.2)
    /\ props card' !! StatDanger_width = Some (stat_width (stats a).2)
    /\ factsList card' = fs
    /\ speechPractice_hidden card' = negb (practice_applies a)
    /\ (forall sp html,
          speechPractice a = Some sp -> hasGKSound sp = true ->
          Cards.formatPhonetic regexp_replace (phonetic sp) (targetSound sp) = Normal html ->
          props card' !! Phonetic_innerHTML = Some html
          /\ props card' !! SpeechTip_textContent = Some (tip sp))
    /\ ClassList.contains (modal_class card') (js "active") = true
    /\ modal_aria_hidden card' = Some (js "false").
Proof. apply show_completes. Qed.

End ShowCard.

Lemma show_opens_the_card_witness :
  (Cards.show (fun s => s) no_regexp quoll false initialised_page).1 = Normal tt
  /\ currentAnimal (Cards.show (fun s => s) no_regexp quoll false initialised_page).2
     = Some quoll
  /\ btn_collect (doc (Cards.show (fun s => s) no_regexp quoll false initialised_page).2)
     = Some {| collect_disabled := false; collect_innerHTML := Cards.COLLECT_HTML |}.
Proof.
  destruct (show_opens_the_card (fun s => s) no_regexp quoll false initialised_page
              {| props := ∅; factsList := []; speechPractice_hidden := true;
                 modal_class := Some (js "modal"); modal_aria_hidden := Some (js "true") |}
              {| speak_class := Some (js "btn"); speak_innerHTML := js "Read to Me";
                 speak_display := None; speak_focus_calls := 0 |}
              [js "Fast"; js "Loud"]) as (card' & Hshow & _).
  - reflexivity.
  - reflexivity.
  - eexists. reflexivity.
  - reflexivity.
  - reflexivity.
  - intros sp Hsp. discriminate Hsp.
  - rewrite Hshow. repeat split.
Defined.

Section CardEdges.

Variable toUpperCase : jsstring -> jsstring.
Variable regexp_replace :
  forall (pattern flags subject replacement : jsstring), completion jsstring.

Lemma show_sets_current (a : animal) (c : bool) (p : page) :
  currentAnimal (Cards.show toUpperCase regexp_replace a c p).2 = Some a.
Proof.
  unfold Cards.show. rewrite update_bind.
  match goal with
  | |- currentAnimal (?rest ?q).2 = _ =>
      assert (H : preserves currentAnimal rest) by preserves_auto;
      rewrite (H q)
  end.
  reflexivity.
Qed.

Lemma show_without_card (a : animal) (c : bool) (p : page) :
  cards_modal p = false ->
  Cards.show toUpperCase regexp_replace a c p
  = (Throw TypeError, set_currentAnimal (Some a) p).
Proof.
  intros Hm. unfold Cards.show. rewrite update_bind. cbn beta.
  erewrite bind_throw; [reflexivity|].
  unfold Cards.write_property. apply write_card_missing. exact Hm.
Qed.

(** X21: [show] records the animal before it touches the page, so the
    animal is current even when the call fails. Without the card in the
    page the call throws at its first write; for a record without a list
    of facts it throws after the texts of the card were replaced and the
    facts emptied, before the modal is opened: the modal keeps its class,
    the collect button is as it was, and the animal is current all the
    same. *)
Theorem show_fails_after_setting_the_animal (a : animal) (c : bool) (p : page) :
  currentAnimal (Cards.show toUpperCase regexp_replace a c p).2 = Some a
  /\ (cards_modal p = false ->
      Cards.show toUpperCase regexp_replace a c p
      = (Throw TypeError, set_currentAnimal (Some a) p))
  /\ (forall card : card_view,
        cards_modal p = true ->
        animal_modal (doc p) = Some card ->
        facts a = None ->
        exists card1 : card_view,
          Cards.show toUpperCase regexp_replace a c p
          = (Throw TypeError,
             set_doc (set_animal_modal (Some card1) (doc p)) (set_currentAnimal (Some a) p))
          /\ props card1 !! Name_textContent = Some (name a)
          /\ factsList card1 = []
          /\ modal_class card1 = modal_class card
          /\ modal_aria_hidden card1 = modal_aria_hidden card).
Proof.
  split; [apply show_sets_current|]. split; [apply show_without_card|].
  intros card Hm Hc Hfacts.
  destruct (show_prefix toUpperCase regexp_replace a p card Hm Hc)
    as (card1 & Hshow & Hf1 & _ & Hmc1 & Hma1 & Hname & _).
  exists card1. cbn zeta in Hshow. rewrite Hshow, Hfacts.
  split; [reflexivity|]. auto.
Qed.


End CardEdges.

Lemma show_fails_after_setting_the_animal_witness :
  Cards.show (fun s => s) no_regexp quoll true (fresh_page empty_store_world bare_document)
  = (Throw TypeError,
     set_currentAnimal (Some quoll) (fresh_page empty_store_world bare_document)).
Proof.
  apply (proj1 (proj2 (show_fails_after_setting_the_animal (fun s => s) no_regexp quoll true
                         (fresh_page empty_store_world bare_document)))).
  reflexivity.
Defined.


(** ** Closing the card *)

(** X23: [hide] closes the card: the modal loses the class [active] and
    is marked hidden, no animal is current, and the card keeps what it
    showed. Narration is stopped only when the module is speaking: then
    nothing is pending afterwards; an utterance that was handed over but
    has not started yet is left with the synthesiser, and is spoken after
    the card is closed. Before [init] has found the modal, [hide] throws
    at its first line and the current animal stays. *)
Theorem hide_closes_the_card (p : page) (card : card_view) :
  (cards_modal p = false -> Cards.hide p = (Throw TypeError, p))
  /\ (cards_modal p = true ->
      animal_modal (doc p) = Some card ->
      let p' := (Cards.hide p).2 in
      (Cards.hide p).1 = Normal tt
      /\ currentAnimal p' = None
      /\ (exists card' : card_view,
            animal_modal (doc p') = Some card'
            /\ ClassList.contains (modal_class card') (js "active") = false
            /\ modal_aria_hidden card' = Some (js "true")
            /\ props card' = props card
            /\ factsList card' = factsList card)
      /\ (speaking p = true -> synth p = true ->
          pending_utterances p' = [] /\ speaking p' = false)
      /\ (speaking p = false ->
          pending_utterances p' = pending_utterances p
          /\ btn_speak (doc p') = btn_speak (doc p))).
Proof.
  split.
  - intros Hm. unfold Cards.hide. erewrite bind_throw; [reflexivity|].
    apply write_card_missing, Hm.
  - intros Hm Hc. cbn zeta. unfold Cards.hide.
    do 2 (card_step; simpl_page).
    unfold SpeechControl.isSpeaking. rewrite read_bind. simpl_page.
    assert (Hclosed : forall attr,
              ClassList.contains (ClassList.remove attr (js "active")) (js "active") = false).
    { intros attr. rewrite contains_remove.
      rewrite bool_decide_eq_true_2 by reflexivity. reflexivity. }
    destruct (speaking p) eqn:Hs.
    + destruct (synth p) eqn:Hsynth.
      * erewrite bind_normal; [|apply stop_eq; simpl_page; exact Hsynth].
        cbn beta. unfold update. cbn [fst snd]. simpl_page.
        split; [reflexivity|]. split; [reflexivity|]. split.
        { unfold silenced, SpeechControl.updateSpeakButton, update_doc, update.
          cbn [snd]. simpl_page. destruct (btn_speak (doc p)); simpl_page;
            (eexists; split; [reflexivity|]); cbn; repeat split; apply Hclosed. }
        split; [|discriminate].
        intros _ _. split; [|reflexivity].
        unfold pending_utterances. simpl_page.
        rewrite silenced_synthesiser. simpl_page.
        destruct (speechSynthesis (doc p)); reflexivity.
      * erewrite bind_normal.
        2:{ unfold SpeechControl.stop. rewrite read_bind. simpl_page. rewrite Hsynth.
            rewrite ret_bind, update_bind. apply updateSpeakButton_eq. }
        cbn beta. unfold update. cbn [fst snd].
        unfold SpeechControl.updateSpeakButton, update_doc, update. cbn [snd]. simpl_page.
        split; [reflexivity|].
        destruct (btn_speak (doc p)); simpl_page;
          (split; [reflexivity|]);
          (split; [eexists; split; [reflexivity|]; cbn; repeat split; apply Hclosed|]);
          (split; [intros _ H; discriminate H|discriminate]).
    + rewrite ret_bind. unfold update. cbn [fst snd]. simpl_page.
      split; [reflexivity|]. split; [reflexivity|]. split.
      { eexists. split; [reflexivity|]. cbn. repeat split. apply Hclosed. }
      split; [discriminate|]. intros _. split; reflexivity.
Qed.

Lemma hide_closes_the_card_witness :
  currentAnimal
    (Cards.hide (Cards.show (fun s => s) no_regexp quoll false initialised_page).2).2 = None
  /\ Cards.hide (fresh_page empty_store_world bare_document)
     = (Throw TypeError, fresh_page empty_store_world bare_document).
Proof.
  split.
  - destruct (hide_closes_the_card
                (Cards.show (fun s => s) no_regexp quoll false initialised_page).2
                (default (Build_card_view ∅ [] true None None)
                   (animal_modal
                      (doc (Cards.show (fun s => s) no_regexp quoll false
                              initialised_page).2)))) as [_ H].
    destruct H as (_ & H & _); [vm_compute; reflexivity|vm_compute; reflexivity|exact H].
  - apply (proj1 (hide_closes_the_card (fresh_page empty_store_world bare_document)
                    (Build_card_view ∅ [] true None None))).
    reflexivity.
Defined.

(** ** Opening a card and collecting *)

Lemma collect_click_new (a : animal) (p : page) :
  card_ready p ->
  currentAnimal p = Some a ->
  Collection.isCollected (world_of p) (id a) = false ->
  Handlers.collect_click p
  = (Normal tt,
     set_markers
       (GameMap.change_first (fun m => JsString.eqb (animalId m) (id a)) (marked true)
          (markers p))
       (set_doc
          (set_btn_collect
             (Some {| collect_disabled := true; collect_innerHTML := Cards.COLLECTED_HTML |})
             (doc p))
          (set_world_of (Collection.collect (id a) (world_of p)).2 p))).
Proof.
  intros Hready Hcur Hnew.
  unfold Handlers.collect_click, Cards.getCurrentAnimal, Cards_getCurrentAnimal.
  rewrite read_bind, Hcur. rewrite P_bind_eq. unfold on_world.
  rewrite collect_eq, Hnew. cbn [snd]. unfold Cards.setCollected.
  erewrite bind_normal; [|apply write_collect_button_ready; exact Hready].
  rewrite updateMarkerState_eq. reflexivity.
Qed.

Lemma collect_click_known (a : animal) (p : page) :
  currentAnimal p = Some a ->
  Collection.isCollected (world_of p) (id a) = true ->
  Handlers.collect_click p = (Normal tt, p).
Proof.
  intros Hcur Hknown.
  unfold Handlers.collect_click, Cards.getCurrentAnimal, Cards_getCurrentAnimal.
  rewrite read_bind, Hcur. rewrite P_bind_eq. unfold on_world.
  rewrite collect_known by exact Hknown. destruct p. reflexivity.
Qed.

Section OpenAndCollect.

Variable toUpperCase : jsstring -> jsstring.
Variable regexp_replace :
  forall (pattern flags subject replacement : jsstring), completion jsstring.

(** X24: opening a card and collecting. On a whole page, a click on the
    marker of an uncollected animal opens its card with the collect
    button enabled; the collect click adds the animal to the collection,
    disables the button, labels it Collected! and gives the first marker
    of that animal the collected look; a second collect click changes
    nothing at all; and when the card of the animal is opened again the
    button is disabled from the start. *)
Theorem open_collect_reopen (a : animal) (p : page) (card : card_view)
    (speak : speak_button) (fs : list jsstring) :
  cards_modal p = true ->
  animal_modal (doc p) = Some card ->
  is_Some (btn_collect (doc p)) ->
  btn_speak (doc p) = Some speak ->
  facts a = Some fs ->
  (forall sp, speechPractice a = Some sp -> hasGKSound sp = true ->
     exists html, Cards.formatPhonetic regexp_replace (phonetic sp) (targetSound sp)
                  = Normal html) ->
  Collection.isCollected (world_of p) (id a) = false ->
  let p1 := (Handlers.handleAnimalClick toUpperCase regexp_replace a p).2 in
  let p2 := (Handlers.collect_click p1).2 in
  let p3 := (Handlers.handleAnimalClick toUpperCase regexp_replace a p2).2 in
  btn_collect (doc p1)
  = Some {| collect_disabled := false; collect_innerHTML := Cards.COLLECT_HTML |}
  /\ (Handlers.collect_click p1).1 = Normal tt
  /\ Collection.isCollected (world_of p2) (id a) = true
  /\ btn_collect (doc p2)
     = Some {| collect_disabled := true; collect_innerHTML := Cards.COLLECTED_HTML |}
  /\ markers p2
     = GameMap.change_first (fun m => JsString.eqb (animalId m) (id a)) (marked true)
         (markers p)
  /\ Handlers.collect_click p2 = (Normal tt, p2)
  /\ btn_collect (doc p3)
     = Some {| collect_disabled := true; collect_innerHTML := Cards.COLLECTED_HTML |}.
Proof.
  intros Hm Hc Hbtn Hspeak Hfacts Hregexp Hnew. cbn zeta.
  destruct (show_completes toUpperCase regexp_replace a false p card speak fs
              Hm Hc Hbtn Hspeak Hfacts Hregexp) as (card1 & Hshow & _).
  assert (H1 : Handlers.handleAnimalClick toUpperCase regexp_replace a p
               = Cards.show toUpperCase regexp_replace a false p).
  { unfold Handlers.handleAnimalClick. rewrite read_bind, Hnew. reflexivity. }
  rewrite !H1, !Hshow. cbn [snd]. clear H1 Hshow.
  match goal with
  | |- context [Handlers.collect_click ?q] => set (p1 := q)
  end.
  assert (Hin : Collection.isCollected (Collection.collect (id a) (world_of p)).2 (id a) = true).
  { rewrite isCollected_after_collect, bool_decide_eq_true_2 by reflexivity.
    apply orb_true_r. }
  assert (H2 : Handlers.collect_click p1
               = (Normal tt,
                  set_markers
                    (GameMap.change_first (fun m => JsString.eqb (animalId m) (id a))
                       (marked true) (markers p))
                    (set_doc
                       (set_btn_collect
                          (Some {| collect_disabled := true;
                                   collect_innerHTML := Cards.COLLECTED_HTML |})
                          (doc p1))
                       (set_world_of (Collection.collect (id a) (world_of p)).2 p1)))).
  { apply (collect_click_new a p1).
    - unfold p1, card_ready. simpl_page. split; [exact Hm|]. split; eexists; reflexivity.
    - reflexivity.
    - exact Hnew. }
  rewrite !H2. cbn [fst snd]. clear H2.
  match goal with
  | |- context [Handlers.handleAnimalClick _ _ _ ?q] => set (p2 := q)
  end.
  split; [reflexivity|]. split; [reflexivity|]. split; [exact Hin|].
  split; [reflexivity|]. split; [reflexivity|].
  split; [apply (collect_click_known a); [reflexivity|exact Hin]|].
  unfold Handlers.handleAnimalClick. rewrite read_bind.
  change (Collection.isCollected (world_of p2) (id a))
    with (Collection.isCollected (Collection.collect (id a) (world_of p)).2 (id a)).
  rewrite Hin.
  destruct (show_completes toUpperCase regexp_replace a true p2 card1
              {| speak_class := speak_class speak; speak_innerHTML := speak_innerHTML speak;
                 speak_display := speak_display speak;
                 speak_focus_calls := S (speak_focus_calls speak) |} fs)
    as (card3 & Hshow & _);
    [exact Hm|reflexivity|eexists; reflexivity|reflexivity|exact Hfacts|exact Hregexp|].
  rewrite Hshow. reflexivity.
Qed.

End OpenAndCollect.

Lemma open_collect_reopen_witness :
  let p1 := (Handlers.handleAnimalClick (fun s => s) no_regexp quoll started_page).2 in
  let p2 := (Handlers.collect_click p1).2 in
  Collection.isCollected (world_of p2) (js "quoll") = true
  /\ btn_collect (doc p2)
     = Some {| collect_disabled := true; collect_innerHTML := Cards.COLLECTED_HTML |}
  /\ map collected_look (markers p2) = [true; false].
Proof.
  destruct (open_collect_reopen (fun s => s) no_regexp quoll started_page
              {| props := ∅; factsList := []; speechPractice_hidden := true;
                 modal_class := Some (js "modal"); modal_aria_hidden := Some (js "true") |}
              {| speak_class := Some (js "btn"); speak_innerHTML := js "Read to Me";
                 speak_display := None; speak_focus_calls := 0 |}
              [js "Fast"; js "Loud"])
    as (_ & _ & Hin & Hbtn & Hmarkers & _).
  - reflexivity.
  - reflexivity.
  - eexists. reflexivity.
  - reflexivity.
  - reflexivity.
  - intros sp Hsp. discriminate Hsp.
  - reflexivity.
  - cbn zeta in *. split; [exact Hin|]. split; [exact Hbtn|].
    rewrite Hmarkers. vm_compute. reflexivity.
Defined.

(** ** The stat bars *)

Lemma stat_width_whole (v : nat) :
  (v <= 10)%nat -> stat_width (JsNumber.of_nat v) = JsString.of_nat (10 * v) ++ js "%".
Proof.
  intros H. do 11 (destruct v as [|v]; [vm_compute; reflexivity|]). lia.
Qed.

(** X25: the stat bars are exact on the scale of the data. For a whole
    stat from 0 to 10, [setStatBar] writes the width as the decimal of ten
    times the stat and a percent sign (0%, 10%, ... 100%): the division by
    10 and the multiplication by 100 lose nothing there. On a page without
    the card the call throws. *)
Theorem stat_bars_exact_for_whole_stats (v : nat) (element : card_property) (p : page)
    (card : card_view) :
  (v <= 10)%nat ->
  (cards_modal p = true ->
   animal_modal (doc p) = Some card ->
   Cards.setStatBar element (JsNumber.of_nat v) p
   = (Normal tt,
      set_doc
        (set_animal_modal
           (Some (card_props (<[element := JsString.of_nat (10 * v) ++ js "%"]> (props card))
                    card))
           (doc p)) p))
  /\ (cards_modal p = false ->
      Cards.setStatBar element (JsNumber.of_nat v) p = (Throw TypeError, p)).
Proof.
  intros Hv. split.
  - intros Hm Hc. unfold Cards.setStatBar.
    rewrite (write_property_eq _ _ p card Hm Hc).
    change (JsNumber.to_string
              (JsNumber.mul (JsNumber.div (JsNumber.of_nat v) (JsNumber.of_Z 10))
                 (JsNumber.of_Z 100)) ++ js "%")
      with (stat_width (JsNumber.of_nat v)).
    rewrite stat_width_whole by exact Hv. reflexivity.
  - intros Hm. unfold Cards.setStatBar, Cards.write_property.
    apply write_card_missing, Hm.
Qed.

Lemma stat_bars_exact_for_whole_stats_witness :
  exists card' : card_view,
    animal_modal (doc (Cards.setStatBar StatSpeed_width (JsNumber.of_nat 7)
                         initialised_page).2) = Some card'
    /\ props card' !! StatSpeed_width = Some (js "70%").
Proof.
  destruct (stat_bars_exact_for_whole_stats 7 StatSpeed_width initialised_page
              {| props := ∅; factsList := []; speechPractice_hidden := true;
                 modal_class := Some (js "modal"); modal_aria_hidden := Some (js "true") |})
    as [H _]; [lia|].
  rewrite H by reflexivity. eexists. split; [reflexivity|]. vm_compute. reflexivity.
Defined.
(* ===================================================================== *)
(** * The gallery *)
(* ===================================================================== *)

Lemma render_each (animals : list animal) :
  forall (q : page) (items : list (Dom.node Collection.listener)),
    collection_grid (doc q) = Some items ->
    for_each (fun animal =>
                w ← read world_of;
                let item := Collection.createGalleryItem w animal in
                update_doc (fun d =>
                  set_collection_grid ((fun items => items ++ [item]) <$> collection_grid d) d))
             animals q
    = (Normal tt,
       set_doc
         (set_collection_grid
            (Some (items ++ map (Collection.createGalleryItem (world_of q)) animals))
            (doc q)) q).
Proof.
  induction animals as [|a animals IH]; intros q items Hq.
  - cbn [for_each map]. rewrite app_nil_r. destruct q as [? ? ? ? ? ? ? ? ? ? ? d ? ?].
    cbn in Hq. destruct d. cbn in Hq. subst. reflexivity.
  - cbn [for_each map]. erewrite bind_normal.
    2:{ rewrite read_bind. cbn zeta. unfold update_doc, update. rewrite Hq. reflexivity. }
    erewrite IH; [|reflexivity]. simpl_page. rewrite <- app_assoc. reflexivity.
Qed.

Lemma showGallery_eq (animals : list animal) (p : page) (modal : modal_attributes)
    (items : list (Dom.node Collection.listener)) :
  gallery_modal p = true ->
  gallery_grid p = true ->
  collection_modal (doc p) = Some modal ->
  collection_grid (doc p) = Some items ->
  Gallery.showGallery animals p
  = (Normal tt,
     set_doc
       (set_collection_modal
          (Some {| class_attribute := ClassList.add (class_attribute modal) (js "active");
                   aria_hidden := Some (js "false") |})
          (set_collection_grid
             (Some (map (Collection.createGalleryItem (world_of p)) animals)) (doc p)))
       p).
Proof.
  intros Hm Hg Hmodal Hgrid. unfold Gallery.showGallery, Gallery.renderGallery.
  rewrite !read_bind, Hm, Hg. cbn [negb orb].
  rewrite bind_assoc, read_bind, Hg. cbn [negb]. rewrite bind_assoc, update_doc_bind.
  erewrite bind_normal.
  2:{ apply (render_each animals _ []). simpl_page. rewrite Hgrid. reflexivity. }
  unfold Gallery.write_modal. rewrite update_doc_bind. unfold update_doc, update.
  simpl_page. rewrite Hmodal. reflexivity.
Qed.



(* ===================================================================== *)
(** * The filter buttons *)
(* ===================================================================== *)

(** X27: the filter buttons move the active look and filter nothing. A
    click on a filter button takes the class [filter-btn--active] off
    every filter button and puts it on the clicked one; then the listener
    throws a TypeError, for the object [GameMap] has no [filterMarkers]:
    no marker is touched, hidden or shown, and the collection is as it
    was. *)
Theorem filter_click_moves_the_look_only (index : nat) (p : page) (btn : filter_button) :
  filter_buttons (doc p) !! index = Some btn ->
  let p' := (Handlers.filter_click index p).2 in
  (Handlers.filter_click index p).1 = Throw TypeError
  /\ markers p' = markers p
  /\ world_of p' = world_of p
  /\ map data_filter (filter_buttons (doc p')) = map data_filter (filter_buttons (doc p))
  /\ map active_filter (filter_buttons (doc p'))
     = imap (fun j _ => bool_decide (j = index)) (filter_buttons (doc p)).
Proof.
  intros Hb. cbn zeta. unfold Handlers.filter_click. rewrite read_bind, Hb.
  rewrite !update_doc_bind. unfold raise. cbn [fst snd]. simpl_page.
  split; [reflexivity|]. split; [reflexivity|]. split; [reflexivity|].
  assert (Hactive : valid_token (js "filter-btn--active")) by valid_token_literal.
  split.
  - apply list_eq. intros j. rewrite !list_lookup_fmap.
    destruct (decide (j = index)) as [->|Hne].
    + rewrite list_lookup_alter_eq, list_lookup_fmap. destruct (_ !! index); reflexivity.
    + rewrite list_lookup_alter_ne by (intros ->; contradiction).
      rewrite list_lookup_fmap. destruct (_ !! j); reflexivity.
  - apply list_eq. intros j. rewrite list_lookup_fmap, list_lookup_imap.
    destruct (decide (j = index)) as [->|Hne].
    + rewrite list_lookup_alter_eq, list_lookup_fmap, Hb.
      cbn [fmap option_fmap option_map]. unfold active_filter. cbn [filter_class].
      rewrite contains_add by exact Hactive.
      rewrite !bool_decide_eq_true_2 by reflexivity. reflexivity.
    + rewrite list_lookup_alter_ne by (intros ->; contradiction).
      rewrite list_lookup_fmap. destruct (filter_buttons (doc p) !! j); [|reflexivity].
      cbn [fmap option_fmap option_map]. unfold active_filter. cbn [filter_class].
      rewrite contains_remove, (bool_decide_eq_true_2 (_ = _)) by reflexivity.
      rewrite bool_decide_eq_false_2 by exact Hne. reflexivity.
Qed.

Lemma filter_click_moves_the_look_only_witness :
  (Handlers.filter_click 1 started_page).1 = Throw TypeError
  /\ map active_filter (filter_buttons (doc (Handlers.filter_click 1 started_page).2))
     = [false; true]
  /\ markers (Handlers.filter_click 1 started_page).2 = markers started_page.
Proof.
  destruct (filter_click_moves_the_look_only 1 started_page
              {| filter_class := Some (js "filter-btn"); data_filter := Some (js "deadly") |}
              eq_refl) as (H1 & H2 & _ & _ & H5).
  cbn zeta in *. split; [exact H1|]. split; [|exact H2].
  rewrite H5. reflexivity.
Defined.
